(** * Lead Management Tool (src/app.js): a shallow embedding and its properties

    The application is one script of DOM event handlers over a list of lead
    records kept as JSON text in one localStorage slot.  The embedding follows
    the script function by function:

    - JavaScript strings are sequences of code units; the model keeps the
      code units 0..255 (Rocq's [string]), on which [trim], [toLowerCase],
      [includes] and the classes [\d] and [\s] are defined as ECMAScript
      defines them on that range (the one character of the script's texts
      beyond that range, the dash of a validation message, stands as its
      UTF-8 bytes);
    - a lead is the record the script's JSDoc declares (five string fields);
    - [localStorage] is a finite map from keys to texts with a quota, and a
      write that does not fit throws;
    - a function that can throw returns a completion, and [try_catch] is the
      script's [try { } catch (e) { }]; a third completion marks the runs in
      which the slot holds JSON of a shape the typed model does not cover;
    - the page (form inputs, error texts, list view, modal, pending delete
      target and the storage) is one record threaded through the handlers;
    - the rows of the table are kept as the leads they show, and [rowHtml]
      and [innerHTML] give the markup the script writes for them;
    - a session is what the user does at the page, one action after the
      other, each handler running to completion.

    [console.error] is not modelled: it changes neither the control flow nor
    the store. *)

From Stdlib Require Import String Ascii List Bool Arith Lia ZArith NArith.
From Stdlib Require Import DecimalString DecimalN DecimalPos.
From stdpp Require Import base option list gmap strings.

Import ListNotations.

(** ** JavaScript strings *)

Module JsString.

Definition code (c : ascii) : nat := nat_of_ascii c.

Definition between (lo hi : nat) (c : ascii) : bool :=
  (lo <=? code c) && (code c <=? hi).

(** [\d]: the ten decimal digits. *)
Definition isDigit (c : ascii) : bool := between 48 57 c.

(** WhiteSpace and LineTerminator code units below 256: TAB, LF, VT, FF,
    CR, SP and NBSP.  [String.prototype.trim] strips them and the class
    [\s] matches them. *)
Definition isWhiteSpace (c : ascii) : bool :=
  between 9 13 c || (code c =? 32) || (code c =? 160).

Definition isEmpty (s : string) : bool :=
  match s with EmptyString => true | String _ _ => false end.

(** JavaScript truthiness of a string: every string but the empty one. *)
Definition truthy (s : string) : bool := negb (isEmpty s).

Fixpoint trimStart (s : string) : string :=
  match s with
  | EmptyString => EmptyString
  | String c s' => if isWhiteSpace c then trimStart s' else s
  end.

Fixpoint trimEnd (s : string) : string :=
  match s with
  | EmptyString => EmptyString
  | String c s' =>
      match trimEnd s' with
      | EmptyString => if isWhiteSpace c then EmptyString else String c EmptyString
      | t => String c t
      end
  end.

Definition trim (s : string) : string := trimEnd (trimStart s).

(** Lower-casing of one code unit below 256: A-Z, and the Latin-1 capitals
    U+00C0..U+00DE except the multiplication sign U+00D7. *)
Definition lowerChar (c : ascii) : ascii :=
  if between 65 90 c || (between 192 222 c && negb (code c =? 215))
  then ascii_of_nat (code c + 32)
  else c.

(** [s.toLowerCase()] on a text of code units below 256, where it maps code
    unit by code unit.  On other texts it does not (a capital sigma at the
    end of a word, U+0130, which becomes two code units); those texts are
    outside the model, and the selection by [filterLeads] is proved without
    appeal to the shape of this function. *)
Fixpoint toLowerCase (s : string) : string :=
  match s with
  | EmptyString => EmptyString
  | String c s' => String (lowerChar c) (toLowerCase s')
  end.

(** [s.startsWith(t)] *)
Fixpoint startsWith (s t : string) : bool :=
  match t, s with
  | EmptyString, _ => true
  | String _ _, EmptyString => false
  | String b t', String a s' => if ascii_dec a b then startsWith s' t' else false
  end.

(** [s.includes(t)]: [t] occurs in [s] at some position. *)
Fixpoint includes (s t : string) : bool :=
  startsWith s t ||
  match s with
  | EmptyString => false
  | String _ s' => includes s' t
  end.

Fixpoint drop (n : nat) (s : string) : string :=
  match n, s with
  | O, _ => s
  | S n', String _ s' => drop n' s'
  | S _, EmptyString => EmptyString
  end.

Fixpoint take (n : nat) (s : string) : string :=
  match n, s with
  | S n', String c s' => String c (take n' s')
  | _, _ => EmptyString
  end.

(** [s.slice(from, to)] for [0 <= from <= to]. *)
Definition slice (from to : nat) (s : string) : string :=
  take (to - from) (drop from s).

(** Number-to-string conversion of a non-negative integer. *)
Definition ofNumber (n : N) : string :=
  NilZero.string_of_uint (N.to_uint n).

End JsString.

Import JsString.

(** ** Regular expressions

    The fragment of the regular-expression language the script uses: classes,
    sequencing and bounded repetition, matched in continuation-passing style.
    [test] is [RegExp.prototype.test] for a pattern written between [^] and
    [$] without flags, which accepts a string only as a whole. *)

Module RegExp.

Inductive atom : Type :=
| Digit                (* \d *)
| Space                (* \s *)
| Lit (c : ascii).     (* an escaped or plain character *)

Inductive regex : Type :=
| Class (items : list atom)              (* [...] *)
| Seq (r1 r2 : regex)
| Repeat (r : regex) (lo hi : nat).      (* r{lo,hi} *)

Definition atomMatches (c : ascii) (a : atom) : bool :=
  match a with
  | Digit => isDigit c
  | Space => isWhiteSpace c
  | Lit d => if ascii_dec c d then true else false
  end.

Definition classMatches (items : list atom) (c : ascii) : bool :=
  existsb (atomMatches c) items.

(** [repeatM step lo hi s k]: between [lo] and [hi] rounds of [step], then
    the continuation [k] on what is left. *)
Fixpoint repeatM (step : string -> (string -> bool) -> bool)
    (lo hi : nat) (s : string) (k : string -> bool) : bool :=
  ((lo =? 0) && k s) ||
  match hi with
  | O => false
  | S hi' => step s (fun rest => repeatM step (Nat.pred lo) hi' rest k)
  end.

Fixpoint matchM (r : regex) (s : string) (k : string -> bool) : bool :=
  match r with
  | Class items =>
      match s with
      | EmptyString => false
      | String c rest => classMatches items c && k rest
      end
  | Seq r1 r2 => matchM r1 s (fun rest => matchM r2 rest k)
  | Repeat r' lo hi => repeatM (matchM r') lo hi s k
  end.

(** [/^r$/.test(s)] *)
Definition test (r : regex) (s : string) : bool := matchM r s isEmpty.

End RegExp.

(** ** Validators (app.js 77-117) *)

Record ValidationResult : Type := { valid : bool; message : string }.

(** [value || ''] is [value] itself for every string. *)
Definition validateName (value : string) : ValidationResult :=
  let trimmed := trim value in
  if negb (truthy trimmed) then {| valid := false; message := "Name is required." |}
  else if 100 <? String.length trimmed
  then {| valid := false; message := "Name must be 100 characters or less." |}
  else {| valid := true; message := "" |}.

(** [/^[\d\s\-\(\)\+\.]{7,20}$/] *)
Definition phoneRegex : RegExp.regex :=
  RegExp.Repeat
    (RegExp.Class
       [RegExp.Digit; RegExp.Space; RegExp.Lit "-"; RegExp.Lit "("; RegExp.Lit ")";
        RegExp.Lit "+"; RegExp.Lit "."]%char)
    7 20.

Definition validatePhone (value : string) : ValidationResult :=
  let trimmed := trim value in
  if negb (truthy trimmed) then {| valid := false; message := "Phone number is required." |}
  else if negb (RegExp.test phoneRegex trimmed)
  then {| valid := false; message := "Enter a valid phone number (7–20 digits/symbols)." |}
  else {| valid := true; message := "" |}.

Definition validateSource (value : string) : ValidationResult :=
  if negb (truthy value) || negb (truthy (trim value))
  then {| valid := false; message := "Please select a source." |}
  else {| valid := true; message := "" |}.

Definition validateStatus (value : string) : ValidationResult :=
  if negb (truthy value) || negb (truthy (trim value))
  then {| valid := false; message := "Please select a status." |}
  else {| valid := true; message := "" |}.

(** ** Leads (app.js 40: the record type of the JSDoc) *)

Module Lead.
Record t : Type := { id : string; name : string; phone : string; source : string; status : string }.
End Lead.

(** ** JSON text of a list of leads

    [JSON.stringify] and [JSON.parse] are built-ins of the platform; the
    model gives them on the values the script stores, arrays of objects
    whose properties are strings.

    - [stringify] writes what ECMAScript's SerializeJSONArray,
      SerializeJSONObject and QuoteJSONString write for them.
    - [wellFormed] recognises JSON text (the grammar of ECMA-404): on any
      other text [JSON.parse] throws a SyntaxError.
    - [parse] reads JSON text that denotes an array of lead objects
      (insignificant white space, every escape, properties in any order, a
      repeated property keeping its last value): every object holds the
      five properties of a lead, each a string, and no other property.
      JSON text of any other shape denotes a value the typed model has no
      type for; so does an object with a sixth property, which the script
      would keep and write back with the record. *)

Module JSON.

Definition dquote : ascii := "034"%char.
Definition backslash : ascii := "\"%char.

Definition hexDigit (n : nat) : ascii :=
  nth n (list_ascii_of_string "0123456789abcdef") "0"%char.

(** QuoteJSONString, one code unit. *)
Definition escape (c : ascii) : string :=
  if Ascii.eqb c dquote then String backslash (String dquote EmptyString)
  else if Ascii.eqb c backslash then String backslash (String backslash EmptyString)
  else if code c =? 8 then "\b"
  else if code c =? 9 then "\t"
  else if code c =? 10 then "\n"
  else if code c =? 12 then "\f"
  else if code c =? 13 then "\r"
  else if code c <? 32
  then "\u00" +:+ String (hexDigit (code c / 16)) (String (hexDigit (code c mod 16)) EmptyString)
  else String c EmptyString.

Fixpoint quoteBody (s : string) : string :=
  match s with
  | EmptyString => EmptyString
  | String c s' => escape c +:+ quoteBody s'
  end.

Definition quote (s : string) : string :=
  String dquote (quoteBody s +:+ String dquote EmptyString).

Definition member (kv : string * string) : string :=
  quote kv.1 +:+ ":" +:+ quote kv.2.

Fixpoint join (sep : string) (parts : list string) : string :=
  match parts with
  | [] => EmptyString
  | [p] => p
  | p :: rest => p +:+ sep +:+ join sep rest
  end.

Definition object (props : list (string * string)) : string :=
  "{" +:+ join "," (map member props) +:+ "}".

(** The own properties of a lead object, in the order of the object literal
    of app.js 326.  (A lead built by the add path, app.js 316-330, lists [id]
    last; [parse] reads both orders to the same record.) *)
Definition leadProps (l : Lead.t) : list (string * string) :=
  [("id", Lead.id l); ("name", Lead.name l); ("phone", Lead.phone l);
   ("source", Lead.source l); ("status", Lead.status l)].

Definition stringify (leads : list Lead.t) : string :=
  "[" +:+ join "," (map (fun l => object (leadProps l)) leads) +:+ "]".

(** JSON's insignificant white space: TAB, LF, CR and SP. *)
Definition isWs (c : ascii) : bool :=
  (code c =? 9) || (code c =? 10) || (code c =? 13) || (code c =? 32).

Fixpoint skipWs (s : string) : string :=
  match s with
  | EmptyString => EmptyString
  | String c s' => if isWs c then skipWs s' else s
  end.

Definition unescape (e : ascii) : option ascii :=
  if Ascii.eqb e dquote then Some dquote
  else if Ascii.eqb e backslash then Some backslash
  else if Ascii.eqb e "/" then Some "/"%char
  else if Ascii.eqb e "b" then Some "008"%char
  else if Ascii.eqb e "f" then Some "012"%char
  else if Ascii.eqb e "n" then Some "010"%char
  else if Ascii.eqb e "r" then Some "013"%char
  else if Ascii.eqb e "t" then Some "009"%char
  else None.

Definition hexValue (c : ascii) : option nat :=
  if isDigit c then Some (code c - 48)
  else if between 97 102 c then Some (code c - 87)
  else if between 65 70 c then Some (code c - 55)
  else None.

(** The four hex digits of a [\u] escape; a code unit above 255 has no
    value in the model. *)
Definition unicodeEscape (h1 h2 h3 h4 : ascii) : option ascii :=
  a ← hexValue h1; b ← hexValue h2; c ← hexValue h3; d ← hexValue h4;
  let n := ((a * 16 + b) * 16 + c) * 16 + d in
  if n <? 256 then Some (ascii_of_nat n) else None.

(** The characters of a string literal after its opening quote, up to and
    including the closing quote: the string read and the text left. *)
Fixpoint parseChars (s : string) : option (string * string) :=
  match s with
  | EmptyString => None
  | String c s' =>
      if Ascii.eqb c dquote then Some (EmptyString, s')
      else if Ascii.eqb c backslash then
        match s' with
        | EmptyString => None
        | String e s'' =>
            if Ascii.eqb e "u" then
              match s'' with
              | String h1 (String h2 (String h3 (String h4 s3))) =>
                  match unicodeEscape h1 h2 h3 h4, parseChars s3 with
                  | Some d, Some (r, rest) => Some (String d r, rest)
                  | _, _ => None
                  end
              | _ => None
              end
            else
              match unescape e, parseChars s'' with
              | Some d, Some (r, rest) => Some (String d r, rest)
              | _, _ => None
              end
        end
      else if code c <? 32 then None
      else
        match parseChars s' with
        | Some (r, rest) => Some (String c r, rest)
        | None => None
        end
  end.

Definition parseString (s : string) : option (string * string) :=
  match skipWs s with
  | String c s' => if Ascii.eqb c dquote then parseChars s' else None
  | EmptyString => None
  end.

(** The next token must be the character [c]. *)
Definition expect (c : ascii) (s : string) : option string :=
  match skipWs s with
  | String d s' => if Ascii.eqb d c then Some s' else None
  | EmptyString => None
  end.

Definition parseMember (s : string) : option ((string * string) * string) :=
  '(k, s1) ← parseString s;
  s2 ← expect ":" s1;
  '(v, s3) ← parseString s2;
  Some ((k, v), s3).

(** One or more members and the closing brace; [fuel] bounds the number of
    members and is the length of the text. *)
Fixpoint parseMembers (fuel : nat) (s : string) : option (list (string * string) * string) :=
  match fuel with
  | O => None
  | S fuel' =>
      '(m, s1) ← parseMember s;
      match skipWs s1 with
      | String d s2 =>
          if Ascii.eqb d "," then
            '(ms, s3) ← parseMembers fuel' s2; Some (m :: ms, s3)
          else if Ascii.eqb d "}" then Some ([m], s2)
          else None
      | EmptyString => None
      end
  end.

Definition parseObject (s : string) : option (list (string * string) * string) :=
  s1 ← expect "{" s;
  match expect "}" s1 with
  | Some s2 => Some ([], s2)
  | None => parseMembers (String.length s1) s1
  end.

(** [o[k]] for an object read from text: the last value given to [k]. *)
Fixpoint getProp (k : string) (props : list (string * string)) : option string :=
  match props with
  | [] => None
  | (k', v) :: rest =>
      match getProp k rest with
      | Some v' => Some v'
      | None => if String.eqb k k' then Some v else None
      end
  end.

(** The names of the properties of a lead (app.js 316-321, 331). *)
Definition leadKey (k : string) : bool :=
  String.eqb k "id" || String.eqb k "name" || String.eqb k "phone" ||
  String.eqb k "source" || String.eqb k "status".

(** The lead that an object read from text is: it has the five properties
    and no other. *)
Definition leadOfProps (props : list (string * string)) : option Lead.t :=
  if negb (forallb (fun kv => leadKey kv.1) props) then None else
  i ← getProp "id" props; n ← getProp "name" props; p ← getProp "phone" props;
  so ← getProp "source" props; st ← getProp "status" props;
  Some {| Lead.id := i; Lead.name := n; Lead.phone := p; Lead.source := so; Lead.status := st |}.

Definition parseLead (s : string) : option (Lead.t * string) :=
  '(props, s1) ← parseObject s;
  l ← leadOfProps props;
  Some (l, s1).

Fixpoint parseElements (fuel : nat) (s : string) : option (list Lead.t * string) :=
  match fuel with
  | O => None
  | S fuel' =>
      '(l, s1) ← parseLead s;
      match skipWs s1 with
      | String d s2 =>
          if Ascii.eqb d "," then
            '(ls, s3) ← parseElements fuel' s2; Some (l :: ls, s3)
          else if Ascii.eqb d "]" then Some ([l], s2)
          else None
      | EmptyString => None
      end
  end.

Definition parseArray (s : string) : option (list Lead.t * string) :=
  s1 ← expect "[" s;
  match expect "]" s1 with
  | Some s2 => Some ([], s2)
  | None => parseElements (String.length s1) s1
  end.

(** The list of leads that [text] denotes, if it denotes one. *)
Definition parse (text : string) : option (list Lead.t) :=
  '(leads, rest) ← parseArray text;
  if isEmpty (skipWs rest) then Some leads else None.

(** *** The grammar of JSON text *)

Definition isHex (c : ascii) : bool :=
  match hexValue c with Some _ => true | None => false end.

(** The characters of a string literal after its opening quote: the text
    left after the closing quote. *)
Fixpoint skipChars (s : string) : option string :=
  match s with
  | EmptyString => None
  | String c s' =>
      if Ascii.eqb c dquote then Some s'
      else if Ascii.eqb c backslash then
        match s' with
        | EmptyString => None
        | String e s'' =>
            if Ascii.eqb e "u" then
              match s'' with
              | String h1 (String h2 (String h3 (String h4 s3))) =>
                  if isHex h1 && isHex h2 && isHex h3 && isHex h4 then skipChars s3 else None
              | _ => None
              end
            else
              match unescape e with
              | Some _ => skipChars s''
              | None => None
              end
        end
      else if code c <? 32 then None
      else skipChars s'
  end.

Definition skipString (s : string) : option string :=
  match skipWs s with
  | String c s' => if Ascii.eqb c dquote then skipChars s' else None
  | EmptyString => None
  end.

Fixpoint skipDigits (s : string) : string :=
  match s with
  | EmptyString => EmptyString
  | String c s' => if isDigit c then skipDigits s' else s
  end.

(** One digit or more. *)
Definition digits (s : string) : option string :=
  match s with
  | String c s' => if isDigit c then Some (skipDigits s') else None
  | EmptyString => None
  end.

(** A number: an optional minus sign, an integer part without a leading zero,
    an optional fraction and an optional exponent. *)
Definition skipNumber (s : string) : option string :=
  let s1 := match s with
            | String c r => if Ascii.eqb c "-" then r else s
            | EmptyString => s
            end in
  s2 ← match s1 with
       | String c r => if Ascii.eqb c "0" then Some r else digits s1
       | EmptyString => None
       end;
  s3 ← match s2 with
       | String c r => if Ascii.eqb c "." then digits r else Some s2
       | EmptyString => Some s2
       end;
  match s3 with
  | String c r =>
      if Ascii.eqb c "e" || Ascii.eqb c "E" then
        match r with
        | String d r' => if Ascii.eqb d "+" || Ascii.eqb d "-" then digits r' else digits r
        | EmptyString => None
        end
      else Some s3
  | EmptyString => Some s3
  end.

(** The text left after the word [w]. *)
Definition skipWord (w s : string) : option string :=
  if startsWith s w then Some (drop (String.length w) s) else None.

(** The text left after one value, after the members of an object up to its
    closing brace, and after the elements of an array up to its closing
    bracket; [fuel] bounds the nesting and the number of members and
    elements, and is the length of the text. *)
Fixpoint skipValue (fuel : nat) (s : string) : option string :=
  match fuel with
  | O => None
  | S fuel' =>
      match skipWs s with
      | EmptyString => None
      | String c r =>
          if Ascii.eqb c "{" then
            match expect "}" r with
            | Some r' => Some r'
            | None => skipMembers fuel' r
            end
          else if Ascii.eqb c "[" then
            match expect "]" r with
            | Some r' => Some r'
            | None => skipElements fuel' r
            end
          else if Ascii.eqb c dquote then skipChars r
          else if Ascii.eqb c "-" || isDigit c then skipNumber (String c r)
          else if Ascii.eqb c "t" then skipWord "true" (String c r)
          else if Ascii.eqb c "f" then skipWord "false" (String c r)
          else if Ascii.eqb c "n" then skipWord "null" (String c r)
          else None
      end
  end
with skipMembers (fuel : nat) (s : string) : option string :=
  match fuel with
  | O => None
  | S fuel' =>
      s1 ← skipString s;
      s2 ← expect ":" s1;
      s3 ← skipValue fuel' s2;
      match skipWs s3 with
      | String d r =>
          if Ascii.eqb d "," then skipMembers fuel' r
          else if Ascii.eqb d "}" then Some r
          else None
      | EmptyString => None
      end
  end
with skipElements (fuel : nat) (s : string) : option string :=
  match fuel with
  | O => None
  | S fuel' =>
      s1 ← skipValue fuel' s;
      match skipWs s1 with
      | String d r =>
          if Ascii.eqb d "," then skipElements fuel' r
          else if Ascii.eqb d "]" then Some r
          else None
      | EmptyString => None
      end
  end.

(** [text] is JSON text: one value, and nothing but white space after it. *)
Definition wellFormed (text : string) : bool :=
  match skipValue (S (String.length text)) text with
  | Some rest => isEmpty (skipWs rest)
  | None => false
  end.

End JSON.

(** ** The page: storage, DOM elements and the script's variables *)

(** [localStorage]: the stored items and the quota, in code units of keys
    and values, that a write must stay within. *)
Record Storage : Type := { items : gmap string string; quota : nat }.

Definition usage (m : gmap string string) : nat :=
  map_fold (fun k v n => String.length k + String.length v + n) 0 m.

(** The [value] of the five form controls (app.js 13-17). *)
Record FormInputs : Type := {
  leadIdInput : string;
  leadNameInput : string;
  leadPhoneInput : string;
  leadSourceSelect : string;
  leadStatusSelect : string
}.

(** The [textContent] of [errorElements] (app.js 31-36). *)
Record FieldErrors : Type := {
  nameError : string;
  phoneError : string;
  sourceError : string;
  statusError : string
}.

(** Whether the class list of each control holds ['invalid']. *)
Record InvalidMarks : Type := {
  nameInvalid : bool;
  phoneInvalid : bool;
  sourceInvalid : bool;
  statusInvalid : bool
}.

(** [formTitle.textContent], [submitBtn.textContent], [cancelBtn.style.display]. *)
Record FormHeader : Type := { formTitle : string; submitBtn : string; cancelBtn : string }.

Record FilterInputs : Type := { searchInput : string; statusFilter : string }.

(** [leadsEmpty.style.display], [leadsTableWrap.style.display] and the rows
    of [leadsTbody], one per lead rendered. *)
Record ListView : Type := {
  leadsEmpty : string;
  leadsTableWrap : string;
  leadsTbody : list Lead.t
}.

Record Modal : Type := { modalVisible : bool; ariaHidden : string; modalMessage : string }.

Record Page : Type := {
  localStorage : Storage;
  inputs : FormInputs;
  errorElements : FieldErrors;
  invalid : InvalidMarks;
  header : FormHeader;
  filterInputs : FilterInputs;
  view : ListView;
  modal : Modal;
  deleteTargetId : option string     (* [None] is [null] *)
}.

Definition setStorage (s : Storage) (p : Page) : Page :=
  {| localStorage := s; inputs := inputs p; errorElements := errorElements p;
     invalid := invalid p; header := header p; filterInputs := filterInputs p;
     view := view p; modal := modal p; deleteTargetId := deleteTargetId p |}.

Definition setInputs (i : FormInputs) (p : Page) : Page :=
  {| localStorage := localStorage p; inputs := i; errorElements := errorElements p;
     invalid := invalid p; header := header p; filterInputs := filterInputs p;
     view := view p; modal := modal p; deleteTargetId := deleteTargetId p |}.

Definition setErrors (e : FieldErrors) (p : Page) : Page :=
  {| localStorage := localStorage p; inputs := inputs p; errorElements := e;
     invalid := invalid p; header := header p; filterInputs := filterInputs p;
     view := view p; modal := modal p; deleteTargetId := deleteTargetId p |}.

Definition setInvalid (m : InvalidMarks) (p : Page) : Page :=
  {| localStorage := localStorage p; inputs := inputs p; errorElements := errorElements p;
     invalid := m; header := header p; filterInputs := filterInputs p;
     view := view p; modal := modal p; deleteTargetId := deleteTargetId p |}.

Definition setHeader (h : FormHeader) (p : Page) : Page :=
  {| localStorage := localStorage p; inputs := inputs p; errorElements := errorElements p;
     invalid := invalid p; header := h; filterInputs := filterInputs p;
     view := view p; modal := modal p; deleteTargetId := deleteTargetId p |}.

Definition setView (v : ListView) (p : Page) : Page :=
  {| localStorage := localStorage p; inputs := inputs p; errorElements := errorElements p;
     invalid := invalid p; header := header p; filterInputs := filterInputs p;
     view := v; modal := modal p; deleteTargetId := deleteTargetId p |}.

Definition setModal (m : Modal) (p : Page) : Page :=
  {| localStorage := localStorage p; inputs := inputs p; errorElements := errorElements p;
     invalid := invalid p; header := header p; filterInputs := filterInputs p;
     view := view p; modal := m; deleteTargetId := deleteTargetId p |}.

Definition setDeleteTargetId (t : option string) (p : Page) : Page :=
  {| localStorage := localStorage p; inputs := inputs p; errorElements := errorElements p;
     invalid := invalid p; header := header p; filterInputs := filterInputs p;
     view := view p; modal := modal p; deleteTargetId := t |}.

(** ** Computations of the script: page state and exceptions *)

Inductive Exception : Type := SyntaxError | QuotaExceededError.

(** How a computation ends: with a value, with an exception, or holding a
    value that the typed model has no type for ([Untyped]: JSON text of a
    shape other than a list of leads was read).  The model follows a run no
    further than that: it is not an exception, no handler catches it, and
    nothing is claimed about what the script does with such a value. *)
Inductive Completion (A : Type) : Type :=
| Normal (a : A)
| Throw (e : Exception)
| Untyped.

Arguments Normal {A} a.
Arguments Throw {A} e.
Arguments Untyped {A}.

Definition JS (A : Type) : Type := Page -> Completion A * Page.

#[global] Instance JS_ret : MRet JS := fun A a p => (Normal a, p).

#[global] Instance JS_bind : MBind JS := fun A B f m p =>
  match m p with
  | (Normal a, p') => f a p'
  | (Throw e, p') => (Throw e, p')
  | (Untyped, p') => (Untyped, p')
  end.

Definition throw {A : Type} (e : Exception) : JS A := fun p => (Throw e, p).

(** [try { body } catch (e) { handler }]: what [body] did to the page before
    it threw stays done. *)
Definition try_catch {A : Type} (body : JS A) (handler : Exception -> JS A) : JS A :=
  fun p =>
    match body p with
    | (Normal a, p') => (Normal a, p')
    | (Throw e, p') => handler e p'
    | (Untyped, p') => (Untyped, p')
    end.

Definition getPage : JS Page := fun p => (Normal p, p).

Definition modify (f : Page -> Page) : JS unit := fun p => (Normal tt, f p).

(** The page a computation leaves. *)
Definition exec {A : Type} (m : JS A) (p : Page) : Page := (m p).2.

(** ** The Store (app.js 9, 42-70) *)

Definition STORAGE_KEY : string := "leadManagementLeads".

(** [localStorage.getItem(key)]: the stored text, or [null]. *)
Definition getItem (key : string) : JS (option string) :=
  fun p => (Normal (items (localStorage p) !! key), p).

(** Whether the items still fit the quota once [key] holds [value]. *)
Definition fits (key value : string) (s : Storage) : bool :=
  usage (<[key := value]> (items s)) <=? quota s.

(** [localStorage.setItem(key, value)]: throws, and stores nothing, when the
    items would no longer fit the quota. *)
Definition setItem (key value : string) : JS unit :=
  fun p =>
    let s := localStorage p in
    if fits key value s
    then (Normal tt, setStorage {| items := <[key := value]> (items s); quota := quota s |} p)
    else (Throw QuotaExceededError, p).

(** [JSON.parse(text)]: a SyntaxError on text that is not JSON; the list of
    leads when the text denotes one. *)
Definition JSON_parse (text : string) : JS (list Lead.t) :=
  if JSON.wellFormed text then
    match JSON.parse text with
    | Some leads => mret leads
    | None => fun p => (Untyped, p)
    end
  else throw SyntaxError.

Definition getLeads : JS (list Lead.t) :=
  try_catch
    (data ← getItem STORAGE_KEY;
     match data with
     | Some text => if truthy text then JSON_parse text else mret []
     | None => mret []
     end)
    (fun e => mret []).

Definition saveLeads (leads : list Lead.t) : JS unit :=
  try_catch
    (setItem STORAGE_KEY (JSON.stringify leads))
    (fun e => mret tt).

(** [leads] is the persisted collection of the page: what [getLeads]
    returns there. *)
Definition persisted (p : Page) (leads : list Lead.t) : Prop :=
  getLeads p = (Normal leads, p).

(** What [generateId] reads from the platform: [Date.now()], and the text
    [Math.random().toString(36)]. *)
Record Entropy : Type := { Date_now : N; Math_random_base36 : string }.

Definition generateId (e : Entropy) : string :=
  "lead_" +:+ ofNumber (Date_now e) +:+ "_" +:+ slice 2 9 (Math_random_base36 e).

(** ** The form (app.js 123-178) *)

(** The keys of [errorElements], which also name the four controls. *)
Inductive Field : Type := NameField | PhoneField | SourceField | StatusField.

(** [el.textContent = message || ''] *)
Definition setFieldError (field : Field) (msg : string) : JS unit :=
  modify (fun p =>
    let e := errorElements p in
    setErrors
      match field with
      | NameField => {| nameError := msg; phoneError := phoneError e;
                        sourceError := sourceError e; statusError := statusError e |}
      | PhoneField => {| nameError := nameError e; phoneError := msg;
                         sourceError := sourceError e; statusError := statusError e |}
      | SourceField => {| nameError := nameError e; phoneError := phoneError e;
                          sourceError := msg; statusError := statusError e |}
      | StatusField => {| nameError := nameError e; phoneError := phoneError e;
                          sourceError := sourceError e; statusError := msg |}
      end p).

(** [el.classList.add('invalid')] when [add], [el.classList.remove('invalid')]
    otherwise. *)
Definition toggleInvalidClass (field : Field) (add : bool) : JS unit :=
  modify (fun p =>
    let m := invalid p in
    setInvalid
      match field with
      | NameField => {| nameInvalid := add; phoneInvalid := phoneInvalid m;
                        sourceInvalid := sourceInvalid m; statusInvalid := statusInvalid m |}
      | PhoneField => {| nameInvalid := nameInvalid m; phoneInvalid := add;
                         sourceInvalid := sourceInvalid m; statusInvalid := statusInvalid m |}
      | SourceField => {| nameInvalid := nameInvalid m; phoneInvalid := phoneInvalid m;
                          sourceInvalid := add; statusInvalid := statusInvalid m |}
      | StatusField => {| nameInvalid := nameInvalid m; phoneInvalid := phoneInvalid m;
                          sourceInvalid := sourceInvalid m; statusInvalid := add |}
      end p).

Definition validateForm : JS bool :=
  p ← getPage;
  let nameResult := validateName (leadNameInput (inputs p)) in
  let phoneResult := validatePhone (leadPhoneInput (inputs p)) in
  let sourceResult := validateSource (leadSourceSelect (inputs p)) in
  let statusResult := validateStatus (leadStatusSelect (inputs p)) in
  setFieldError NameField (message nameResult);;
  setFieldError PhoneField (message phoneResult);;
  setFieldError SourceField (message sourceResult);;
  setFieldError StatusField (message statusResult);;
  toggleInvalidClass NameField (negb (valid nameResult));;
  toggleInvalidClass PhoneField (negb (valid phoneResult));;
  toggleInvalidClass SourceField (negb (valid sourceResult));;
  toggleInvalidClass StatusField (negb (valid statusResult));;
  mret (valid nameResult && valid phoneResult && valid sourceResult && valid statusResult).

Definition clearValidation : JS unit :=
  modify (setErrors {| nameError := ""; phoneError := ""; sourceError := ""; statusError := "" |});;
  modify (setInvalid {| nameInvalid := false; phoneInvalid := false;
                        sourceInvalid := false; statusInvalid := false |}).

Definition addMode : FormHeader :=
  {| formTitle := "Add New Lead"; submitBtn := "Add Lead"; cancelBtn := "none" |}.

Definition editMode : FormHeader :=
  {| formTitle := "Edit Lead"; submitBtn := "Update Lead"; cancelBtn := "inline-flex" |}.

Definition emptyInputs : FormInputs :=
  {| leadIdInput := ""; leadNameInput := ""; leadPhoneInput := "";
     leadSourceSelect := ""; leadStatusSelect := "" |}.

Definition resetForm : JS unit :=
  modify (setInputs emptyInputs);;
  modify (setHeader addMode);;
  clearValidation.

(** ** Search and filter (app.js 183-247) *)

Record Filters : Type := { search : string; status : string }.

Definition getFilters (p : Page) : Filters :=
  let f := filterInputs p in
  {| search := if truthy (searchInput f) then toLowerCase (trim (searchInput f)) else "";
     status := if truthy (statusFilter f) then trim (statusFilter f) else "" |}.

Definition filterLeads (leads : list Lead.t) (filters : Filters) : list Lead.t :=
  List.filter
    (fun lead =>
       let matchesSearch :=
         negb (truthy (search filters)) ||
         (truthy (Lead.name lead) && includes (toLowerCase (Lead.name lead)) (search filters)) ||
         (truthy (Lead.phone lead) && includes (toLowerCase (Lead.phone lead)) (search filters)) in
       let matchesStatus :=
         negb (truthy (status filters)) || String.eqb (Lead.status lead) (status filters) in
       matchesSearch && matchesStatus)
    leads.

(** The table body is rebuilt only when some lead passes the filters; the
    rows stand for the [<tr>] elements, one per lead. *)
Definition renderLeads : JS unit :=
  leads ← getLeads;
  p ← getPage;
  let filtered := filterLeads leads (getFilters p) in
  if length filtered =? 0
  then modify (setView {| leadsEmpty := "block"; leadsTableWrap := "none";
                          leadsTbody := leadsTbody (view p) |})
  else modify (setView {| leadsEmpty := "none"; leadsTableWrap := "block";
                          leadsTbody := filtered |}).

(** ** Edit, delete and submit (app.js 256-345) *)

(** [dataId] is [e.target.getAttribute('data-id')]. *)
Definition handleEditClick (dataId : option string) : JS unit :=
  match dataId with
  | None => mret tt
  | Some i =>
      if negb (truthy i) then mret tt
      else
        leads ← getLeads;
        match List.find (fun l => String.eqb (Lead.id l) i) leads with
        | None => mret tt
        | Some lead =>
            modify (setInputs {| leadIdInput := Lead.id lead;
                                 leadNameInput := Lead.name lead;
                                 leadPhoneInput := Lead.phone lead;
                                 leadSourceSelect := Lead.source lead;
                                 leadStatusSelect := Lead.status lead |});;
            modify (setHeader editMode);;
            clearValidation
        end
  end.

Definition showModal (show : bool) : JS unit :=
  modify (fun p =>
    setModal {| modalVisible := show;
                ariaHidden := if show then "false" else "true";
                modalMessage := modalMessage (modal p) |} p).

Definition handleDeleteClick (dataId : option string) : JS unit :=
  match dataId with
  | None => mret tt
  | Some i =>
      if negb (truthy i) then mret tt
      else
        modify (setDeleteTargetId (Some i));;
        modify (fun p =>
          setModal {| modalVisible := modalVisible (modal p);
                      ariaHidden := ariaHidden (modal p);
                      modalMessage := "Are you sure you want to delete this lead?" |} p);;
        showModal true
  end.

(** [!deleteTargetId]: [null] and the empty string are falsy. *)
Definition pendingTarget (p : Page) : option string :=
  match deleteTargetId p with
  | Some t => if truthy t then Some t else None
  | None => None
  end.

Definition confirmDelete : JS unit :=
  p ← getPage;
  match pendingTarget p with
  | None => showModal false
  | Some target =>
      loaded ← getLeads;
      let leads := List.filter (fun l => negb (String.eqb (Lead.id l) target)) loaded in
      saveLeads leads;;
      modify (setDeleteTargetId None);;
      showModal false;;
      resetForm;;
      renderLeads
  end.

Definition cancelModal : JS unit :=
  modify (setDeleteTargetId None);;
  showModal false.

(** [leads.findIndex(f)]: the first index whose element passes, or -1. *)
Fixpoint findIndexFrom {A : Type} (f : A -> bool) (i : Z) (l : list A) : Z :=
  match l with
  | [] => (-1)%Z
  | x :: rest => if f x then i else findIndexFrom f (i + 1)%Z rest
  end.

Definition findIndex {A : Type} (f : A -> bool) (l : list A) : Z := findIndexFrom f 0%Z l.

Definition handleFormSubmit (e : Entropy) : JS unit :=
  ok ← validateForm;
  if negb ok then mret tt
  else
    p ← getPage;
    let i := trim (leadIdInput (inputs p)) in
    leads ← getLeads;
    let name := trim (leadNameInput (inputs p)) in
    let phone := trim (leadPhoneInput (inputs p)) in
    let source := trim (leadSourceSelect (inputs p)) in
    let status := trim (leadStatusSelect (inputs p)) in
    (if truthy i then
       let index := findIndex (fun l => String.eqb (Lead.id l) i) leads in
       if negb (index =? -1)%Z then
         saveLeads
           (<[Z.to_nat index :=
                {| Lead.id := i; Lead.name := name; Lead.phone := phone;
                   Lead.source := source; Lead.status := status |}]> leads)
       else mret tt
     else
       saveLeads
         (leads ++ [{| Lead.id := generateId e; Lead.name := name; Lead.phone := phone;
                       Lead.source := source; Lead.status := status |}]));;
    resetForm;;
    renderLeads.

Definition handleCancelEdit : JS unit := resetForm.

Definition handleSearchOrFilter : JS unit := renderLeads.

(** The listeners the script registers (app.js 348-358, 241-246). *)
Inductive Event : Type :=
| Submit (e : Entropy)
| CancelClick
| SearchOrFilterChange
| EditClick (dataId : option string)
| DeleteClick (dataId : option string)
| ModalCancelClick
| ModalConfirmClick
| OverlayClick (onOverlay : bool).

Definition dispatch (ev : Event) : JS unit :=
  match ev with
  | Submit e => handleFormSubmit e
  | CancelClick => handleCancelEdit
  | SearchOrFilterChange => handleSearchOrFilter
  | EditClick d => handleEditClick d
  | DeleteClick d => handleDeleteClick d
  | ModalCancelClick => cancelModal
  | ModalConfirmClick => confirmDelete
  | OverlayClick onOverlay => if onOverlay then cancelModal else mret tt
  end.

(** The page after a run of events, each handler running to completion. *)
Fixpoint run (evs : list Event) (p : Page) : Page :=
  match evs with
  | [] => p
  | ev :: rest => run rest (exec (dispatch ev) p)
  end.

(** ** The rows of the table (app.js 223-238, 249-254) *)

(** One character of [escapeHtml]: the text is made the [textContent] of a
    detached [div] and read back as its [innerHTML], and the serialisation
    of a text node writes [&], the no-break space, [<] and [>] as character
    references and every other character, quotation marks included, as it
    is.  (The guard [str == null] never holds for a string.) *)
Definition escapeChar (c : ascii) : string :=
  if ascii_dec c "&"%char then "&amp;"
  else if code c =? 160 then "&nbsp;"
  else if ascii_dec c "<"%char then "&lt;"
  else if ascii_dec c ">"%char then "&gt;"
  else String c EmptyString.

Fixpoint escapeHtml (s : string) : string :=
  match s with
  | EmptyString => EmptyString
  | String c s' => escapeChar c +:+ escapeHtml s'
  end.

(** [s.replace(/\s/g, '')] *)
Fixpoint removeWhiteSpace (s : string) : string :=
  match s with
  | EmptyString => EmptyString
  | String c s' =>
      if isWhiteSpace c then removeWhiteSpace s' else String c (removeWhiteSpace s')
  end.

(** [s || '—'] (the dash stands as its UTF-8 bytes) *)
Definition orDash (s : string) : string := if truthy s then s else "—".

(** The quotation mark that delimits the attribute values of a row. *)
Definition quot : string := String JSON.dquote EmptyString.

(** The callback of [filtered.map] (app.js 223-238): the [<tr>] of one lead. *)
Definition rowHtml (lead : Lead.t) : string :=
  let statusClass :=
    if truthy (Lead.status lead)
    then "status-" +:+ removeWhiteSpace (Lead.status lead) else "" in
  let statusDisplay := orDash (Lead.status lead) in
  "<tr data-id=" +:+ quot +:+ escapeHtml (Lead.id lead) +:+ quot +:+ ">" +:+
  "<td>" +:+ escapeHtml (orDash (Lead.name lead)) +:+ "</td>" +:+
  "<td>" +:+ escapeHtml (orDash (Lead.phone lead)) +:+ "</td>" +:+
  "<td>" +:+ escapeHtml (orDash (Lead.source lead)) +:+ "</td>" +:+
  "<td><span class=" +:+ quot +:+ "status-badge " +:+ statusClass +:+ quot +:+ ">" +:+
    escapeHtml statusDisplay +:+ "</span></td>" +:+
  "<td class=" +:+ quot +:+ "actions-cell" +:+ quot +:+ ">" +:+
  "<button type=" +:+ quot +:+ "button" +:+ quot +:+ " class=" +:+ quot +:+
    "btn btn-secondary btn-sm btn-edit" +:+ quot +:+ " data-id=" +:+ quot +:+
    escapeHtml (Lead.id lead) +:+ quot +:+ ">Edit</button>" +:+
  "<button type=" +:+ quot +:+ "button" +:+ quot +:+ " class=" +:+ quot +:+
    "btn btn-danger btn-sm btn-delete" +:+ quot +:+ " data-id=" +:+ quot +:+
    escapeHtml (Lead.id lead) +:+ quot +:+ ">Delete</button>" +:+
  "</td>" +:+
  "</tr>".

(** [leadsTbody.innerHTML] for the rows of the list view: the rows joined
    without a separator. *)
Definition innerHTML (rows : list Lead.t) : string :=
  JSON.join "" (map rowHtml rows).

(** ** The user at the page (app.js 348-358)

    What reaches the script in a session: an event one of its listeners is
    registered for; the user editing the four visible controls of the form,
    which no listener follows; and the user editing the search box or the
    status filter, whose [input] and [change] listeners run
    [handleSearchOrFilter] once the control has its new value. *)

Definition setFilterInputs (f : FilterInputs) (p : Page) : Page :=
  {| localStorage := localStorage p; inputs := inputs p; errorElements := errorElements p;
     invalid := invalid p; header := header p; filterInputs := f;
     view := view p; modal := modal p; deleteTargetId := deleteTargetId p |}.

Inductive Action : Type :=
| Fire (ev : Event)
| FillForm (name phone source status : string)
| TypeSearch (text : string)
| SelectStatus (value : string).

Definition act (a : Action) (p : Page) : Page :=
  match a with
  | Fire ev => exec (dispatch ev) p
  | FillForm name phone source status =>
      setInputs {| leadIdInput := leadIdInput (inputs p); leadNameInput := name;
                   leadPhoneInput := phone; leadSourceSelect := source;
                   leadStatusSelect := status |} p
  | TypeSearch text =>
      exec handleSearchOrFilter
        (setFilterInputs {| searchInput := text;
                            statusFilter := statusFilter (filterInputs p) |} p)
  | SelectStatus value =>
      exec handleSearchOrFilter
        (setFilterInputs {| searchInput := searchInput (filterInputs p);
                            statusFilter := value |} p)
  end.

(** The page after a session, from the first action to the last. *)
Fixpoint session (acts : list Action) (p : Page) : Page :=
  match acts with
  | [] => p
  | a :: rest => session rest (act a p)
  end.

(** ** The records as the script builds them (app.js 316-332)

    [JSON.stringify] lists the properties of an object in the order in which
    they were created.  The update path builds its record with [id] first
    (app.js 326, the order of [JSON.leadProps]); the add path builds the
    payload of the four fields and gives it its [id] last (app.js 316-330);
    and a record that was loaded keeps the order it had in the text. *)

Definition payloadProps (l : Lead.t) : list (string * string) :=
  [("name", Lead.name l); ("phone", Lead.phone l); ("source", Lead.source l);
   ("status", Lead.status l); ("id", Lead.id l)].

(** [JSON.stringify] of an array of objects, each given by its properties in
    their order. *)
Definition stringifyObjects (rows : list (list (string * string))) : string :=
  "[" +:+ JSON.join "," (map JSON.object rows) +:+ "]".

(** * Specifications, in the words of the specification *)

(** The characters of a string, in order. *)
Definition chars (s : string) : list ascii := list_ascii_of_string s.

(** A telephone character: a digit, white space, or one of [- ( ) + .]. *)
Definition phoneChar (c : ascii) : Prop :=
  isDigit c = true \/ isWhiteSpace c = true \/
  c = "-"%char \/ c = "("%char \/ c = ")"%char \/ c = "+"%char \/ c = "."%char.

(** Only telephone characters, and between 7 and 20 of them. *)
Definition phoneFormat (t : string) : Prop :=
  Forall phoneChar (chars t) /\ 7 <= String.length t <= 20.

(** [t] occurs in [s]. *)
Definition occursIn (t s : string) : Prop :=
  exists pre suf, s = pre +:+ t +:+ suf.



(** [r] is [l] with exactly the elements that satisfy [P] kept, each as often
    as it occurs and in the order of [l]. *)
Inductive Selects {A : Type} (P : A -> Prop) : list A -> list A -> Prop :=
| Selects_nil : Selects P [] []
| Selects_keep x l r : P x -> Selects P l r -> Selects P (x :: l) (x :: r)
| Selects_skip x l r : ~ P x -> Selects P l r -> Selects P (x :: l) r.

(** The events that are neither a form submission nor a confirmation of the
    delete dialogue. *)
Definition quiet (ev : Event) : Prop :=
  match ev with
  | Submit _ | ModalConfirmClick => False
  | _ => True
  end.

(** The record the submit handler builds from the trimmed form fields, under
    the id [i] (app.js 316-326). *)
Definition formLead (i : string) (p : Page) : Lead.t :=
  {| Lead.id := i;
     Lead.name := trim (leadNameInput (inputs p));
     Lead.phone := trim (leadPhoneInput (inputs p));
     Lead.source := trim (leadSourceSelect (inputs p));
     Lead.status := trim (leadStatusSelect (inputs p)) |}.

(** The storage is within its quota and its slot holds the text that
    [saveLeads] writes for [leads]: the state the script itself leaves. *)
Definition ownSlot (s : Storage) (leads : list Lead.t) : Prop :=
  usage (items s) <= quota s /\ items s !! STORAGE_KEY = Some (JSON.stringify leads).

(** * The effect of each function, in closed form

    What each function returns and the page it leaves, written without the
    monad; the lemmas [..._eq] below prove that the functions compute
    exactly these. *)

(** What [getLeads] returns, read off the slot. *)
Definition loadOutcome (s : Storage) : Completion (list Lead.t) :=
  match items s !! STORAGE_KEY with
  | Some text =>
      if truthy text then
        if JSON.wellFormed text then
          match JSON.parse text with
          | Some leads => Normal leads
          | None => Untyped
          end
        else Normal []
      else Normal []
  | None => Normal []
  end.

(** The storage after [saveLeads]. *)
Definition slotWrite (leads : list Lead.t) (s : Storage) : Storage :=
  if fits STORAGE_KEY (JSON.stringify leads) s
  then {| items := <[STORAGE_KEY := JSON.stringify leads]> (items s); quota := quota s |}
  else s.

(** Every error element empty. *)
Definition noErrors : FieldErrors :=
  {| nameError := ""; phoneError := ""; sourceError := ""; statusError := "" |}.

(** No control marked invalid. *)
Definition noMarks : InvalidMarks :=
  {| nameInvalid := false; phoneInvalid := false; sourceInvalid := false; statusInvalid := false |}.

(** After [clearValidation]. *)
Definition clearedPage (p : Page) : Page := setInvalid noMarks (setErrors noErrors p).

(** After [resetForm]. *)
Definition resetPage (p : Page) : Page :=
  clearedPage (setHeader addMode (setInputs emptyInputs p)).

(** The list view [renderLeads] leaves when [getLeads] returns [leads]. *)
Definition renderedView (leads : list Lead.t) (p : Page) : ListView :=
  let filtered := filterLeads leads (getFilters p) in
  if length filtered =? 0
  then {| leadsEmpty := "block"; leadsTableWrap := "none"; leadsTbody := leadsTbody (view p) |}
  else {| leadsEmpty := "none"; leadsTableWrap := "block"; leadsTbody := filtered |}.

(** After [showModal(show)]. *)
Definition modalShown (show : bool) (p : Page) : Page :=
  setModal {| modalVisible := show; ariaHidden := if show then "false" else "true";
              modalMessage := modalMessage (modal p) |} p.

(** After [validateForm]. *)
Definition validatedPage (p : Page) : Page :=
  setInvalid
    {| nameInvalid := negb (valid (validateName (leadNameInput (inputs p))));
       phoneInvalid := negb (valid (validatePhone (leadPhoneInput (inputs p))));
       sourceInvalid := negb (valid (validateSource (leadSourceSelect (inputs p))));
       statusInvalid := negb (valid (validateStatus (leadStatusSelect (inputs p)))) |}
    (setErrors
       {| nameError := message (validateName (leadNameInput (inputs p)));
          phoneError := message (validatePhone (leadPhoneInput (inputs p)));
          sourceError := message (validateSource (leadSourceSelect (inputs p)));
          statusError := message (validateStatus (leadStatusSelect (inputs p))) |} p).

(** The result of [validateForm]. *)
Definition formValid (p : Page) : bool :=
  valid (validateName (leadNameInput (inputs p))) &&
  valid (validatePhone (leadPhoneInput (inputs p))) &&
  valid (validateSource (leadSourceSelect (inputs p))) &&
  valid (validateStatus (leadStatusSelect (inputs p))).

(** [leads] filtered by the callback of [confirmDelete] (app.js 294). *)
Definition withoutId (target : string) (leads : list Lead.t) : list Lead.t :=
  List.filter (fun l => negb (String.eqb (Lead.id l) target)) leads.

(** The callback of [findIndex] (app.js 324). *)
Definition hasId (i : string) (l : Lead.t) : bool := String.eqb (Lead.id l) i.

(** The page after a confirmed delete of [target], but for the list view. *)
Definition deletedPage (target : string) (leads : list Lead.t) (p : Page) : Page :=
  resetPage (modalShown false (setDeleteTargetId None
    (exec (saveLeads (withoutId target leads)) p))).

(** The page after a submission that saved [leads], but for the list view. *)
Definition submittedPage (leads : list Lead.t) (p : Page) : Page :=
  resetPage (exec (saveLeads leads) (validatedPage p)).

(** The page [q] with the list view [renderLeads] gives it when [getLeads]
    returns [leads]. *)
Definition rendered (leads : list Lead.t) (q : Page) : Page :=
  setView (renderedView leads q) q.

(** The page after [handleEditClick] found [lead]. *)
Definition editingPage (lead : Lead.t) (p : Page) : Page :=
  clearedPage (setHeader editMode
    (setInputs {| leadIdInput := Lead.id lead; leadNameInput := Lead.name lead;
                  leadPhoneInput := Lead.phone lead; leadSourceSelect := Lead.source lead;
                  leadStatusSelect := Lead.status lead |} p)).

(** The page after [handleDeleteClick] on a row whose id is [i]. *)
Definition askingPage (i : string) (p : Page) : Page :=
  modalShown true
    (setModal {| modalVisible := modalVisible (modal p); ariaHidden := ariaHidden (modal p);
                 modalMessage := "Are you sure you want to delete this lead?" |}
       (setDeleteTargetId (Some i) p)).

(** * Predicates on strings, records, storages and pages *)

(** The string holds a character that is not white space. *)
Definition notBlank (s : string) : Prop :=
  exists c, c ∈ chars s /\ isWhiteSpace c = false.

(** A character of a generated id: a digit, a small letter or the
    underscore. *)
Definition idChar (c : ascii) : bool :=
  isDigit c || between 97 122 c || Ascii.eqb c "_".

(** The random text is written in base 36: its characters from the third to
    the ninth, which [generateId] takes, are digits and small letters. *)
Definition base36 (e : Entropy) : Prop :=
  Forall (fun c => isDigit c || between 97 122 c = true)
    (chars (slice 2 9 (Math_random_base36 e))).

(** A record as the form accepts it: an id that is not empty, and four
    fields that pass their validators and are trimmed. *)
Definition accepted (l : Lead.t) : Prop :=
  Lead.id l <> EmptyString /\
  (valid (validateName (Lead.name l)) = true /\ trim (Lead.name l) = Lead.name l) /\
  (valid (validatePhone (Lead.phone l)) = true /\ trim (Lead.phone l) = Lead.phone l) /\
  (valid (validateSource (Lead.source l)) = true /\ trim (Lead.source l) = Lead.source l) /\
  (valid (validateStatus (Lead.status l)) = true /\ trim (Lead.status l) = Lead.status l).

(** The list view of [p] shows [leads] through the filters in the controls:
    with no lead passing, the empty notice is displayed and the table
    hidden; otherwise the table is displayed and its rows are the leads that
    pass, in their order. *)
Definition shows (p : Page) (leads : list Lead.t) : Prop :=
  match filterLeads leads (getFilters p) with
  | [] => leadsEmpty (view p) = "block" /\ leadsTableWrap (view p) = "none"
  | shown => view p = {| leadsEmpty := "none"; leadsTableWrap := "block"; leadsTbody := shown |}
  end.

(** The dialogue is displayed exactly while a delete is pending, and its
    [aria-hidden] attribute says whether it is. *)
Definition dialogueInStep (p : Page) : Prop :=
  (modalVisible (modal p) = true <-> pendingTarget p <> None) /\
  ariaHidden (modal p) = (if modalVisible (modal p) then "false" else "true").

(** From the storage [s] to [s']: nothing, or one write of [saveLeads]. *)
Definition wrote (s s' : Storage) : Prop :=
  s' = s \/ exists saved, s' = slotWrite saved s.

(** How often the character [c] occurs in [s]. *)
Definition countChar (c : ascii) (s : string) : nat :=
  length (List.filter (Ascii.eqb c) (chars s)).

(** A character that [escapeHtml] rewrites: [&], [<], [>] or the no-break
    space. *)
Definition markupChar (c : ascii) : bool :=
  Ascii.eqb c "&" || Ascii.eqb c "<" || Ascii.eqb c ">" || (code c =? 160).

(** [props] are the properties of the record [l], in the order of the update
    path or in the order of the add path. *)
Definition builtAs (l : Lead.t) (props : list (string * string)) : Prop :=
  props = JSON.leadProps l \/ props = payloadProps l.

(** The ids that [generateId] has for the submissions of a session, in their
    order (a submission that adds nothing does not ask for its id). *)
Fixpoint generatedIds (acts : list Action) : list string :=
  match acts with
  | [] => []
  | Fire (Submit e) :: rest => generateId e :: generatedIds rest
  | _ :: rest => generatedIds rest
  end.

(** * Concrete pages *)

(** A freshly loaded page over the storage [s]. *)
Definition freshPage (s : Storage) : Page :=
  {| localStorage := s;
     inputs := emptyInputs;
     errorElements := noErrors;
     invalid := noMarks;
     header := addMode;
     filterInputs := {| searchInput := ""; statusFilter := "" |};
     view := {| leadsEmpty := "block"; leadsTableWrap := "none"; leadsTbody := [] |};
     modal := {| modalVisible := false; ariaHidden := "true"; modalMessage := "" |};
     deleteTargetId := None |}.

(** A storage that holds nothing, with the quota [q]. *)
Definition emptyStorage (q : nat) : Storage := {| items := ∅; quota := q |}.

(** Three leads; [jo2] has the id of [jo]. *)
Definition jo : Lead.t :=
  {| Lead.id := "x"; Lead.name := "Jo Smith"; Lead.phone := "555-1234567";
     Lead.source := "web"; Lead.status := "new" |}.

Definition amy : Lead.t :=
  {| Lead.id := "y"; Lead.name := "Amy Wong"; Lead.phone := "(555) 765-4321";
     Lead.source := "referral"; Lead.status := "lost" |}.

Definition jo2 : Lead.t :=
  {| Lead.id := "x"; Lead.name := "Joanna Smith"; Lead.phone := "555-7654321";
     Lead.source := "web"; Lead.status := "contacted" |}.

(** A page whose slot holds [leads], with room for 2000 code units. *)
Definition pageWith (leads : list Lead.t) : Page :=
  exec (saveLeads leads) (freshPage (emptyStorage 2000)).

(** The form filled in, with [i] in the hidden id field. *)
Definition filled (i name phone source status : string) (p : Page) : Page :=
  setInputs {| leadIdInput := i; leadNameInput := name; leadPhoneInput := phone;
               leadSourceSelect := source; leadStatusSelect := status |} p.

(** A reading of the clock and of the random generator. *)
Definition someEntropy : Entropy :=
  {| Date_now := 1700000000000; Math_random_base36 := "0.4fzyo82mvyr" |}.

(** The record ["x"] under edit, with a new phone number typed in. *)
Definition editPage : Page :=
  filled "x" "Jo Smith" " 555-0000000 " "web" "new" (pageWith [amy; jo]).

(** A new lead typed in, over a collection of one. *)
Definition addPage : Page :=
  filled "" "Amy Wong" "(555) 765-4321" "referral" "lost" (pageWith [jo]).

(** A stored lead whose id is the one [generateId] is about to return. *)
Definition collidingLead : Lead.t :=
  {| Lead.id := generateId someEntropy; Lead.name := "Jo Smith";
     Lead.phone := "555-1234567"; Lead.source := "web"; Lead.status := "new" |}.

(** A new lead typed in over [collidingLead]. *)
Definition collidingPage : Page :=
  filled "" "Amy Wong" "(555) 765-4321" "referral" "lost" (pageWith [collidingLead]).

(** Two records under the id ["x"], that id pending in the delete dialogue
    and also under edit. *)
Definition duplicatePage : Page :=
  setDeleteTargetId (Some "x")
    (filled "x" "Jo Smith" "555-0000000" "web" "new" (pageWith [jo; amy; jo2])).

(** A page over a storage that holds, beside the slot, an item of another
    script. *)
Definition sharedPage : Page :=
  freshPage {| items := <["theme" := "dark"]> (items (localStorage (pageWith [jo])));
               quota := 2000 |}.

(** A page whose storage holds the text of [leads] and has room for not one
    code unit more. *)
Definition fullPage (leads : list Lead.t) : Page :=
  freshPage {| items := {[ STORAGE_KEY := JSON.stringify leads ]};
               quota := String.length STORAGE_KEY + String.length (JSON.stringify leads) |}.

(** The record ["x"] under edit, with a longer name, on a full storage. *)
Definition fullEditPage : Page :=
  filled "x" "Jo Smith-Jones" "555-1234567" "web" "new" (fullPage [amy; jo]).

(** Two records under the id ["x"], that id under edit with a longer name,
    on a full storage. *)
Definition fullDuplicatePage : Page :=
  filled "x" "Jo Smith-Jones" "555-1234567" "web" "new" (fullPage [jo; amy; jo2]).


(** * Properties *)

(** ** Strings and the validators *)

Lemma isEmpty_true (s : string) : isEmpty s = true <-> s = EmptyString.
Proof. destruct s; simpl; split; congruence. Qed.

Lemma truthy_length (s : string) : truthy s = true <-> 1 <= String.length s.
Proof. destruct s; cbn; split; intros H; try lia; try discriminate H; reflexivity. Qed.

Lemma truthy_false_length (s : string) : truthy s = false <-> String.length s = 0.
Proof. destruct s; cbn; split; intros H; try lia; try discriminate H; reflexivity. Qed.

Lemma classMatches_phone (c : ascii) :
  RegExp.classMatches
    [RegExp.Digit; RegExp.Space; RegExp.Lit "-"; RegExp.Lit "("; RegExp.Lit ")";
     RegExp.Lit "+"; RegExp.Lit "."]%char c = true <-> phoneChar c.
Proof.
  unfold RegExp.classMatches, phoneChar; simpl.
  repeat (destruct (ascii_dec c _) as [->|?]); simpl;
    rewrite ?orb_true_r, ?orb_false_r, ?orb_true_iff; intuition congruence.
Qed.

Lemma repeat_class_whole (items : list RegExp.atom) (hi lo : nat) (s : string) :
  RegExp.repeatM (RegExp.matchM (RegExp.Class items)) lo hi s isEmpty = true <->
  lo <= String.length s <= hi /\ Forall (fun c => RegExp.classMatches items c = true) (chars s).
Proof.
  revert lo s; induction hi as [|hi IH]; intros lo s; simpl.
  - rewrite orb_false_r, andb_true_iff, Nat.eqb_eq, isEmpty_true.
    split.
    + intros [-> ->]; simpl; split; [lia | constructor].
    + intros [Hlen _]; destruct s; simpl in *; [split; [lia | reflexivity] | lia].
  - destruct s as [|c rest]; simpl.
    + rewrite orb_false_r, andb_true_r, Nat.eqb_eq.
      split; [intros ->; split; [lia | constructor] | intros [? _]; lia].
    + rewrite andb_false_r; simpl.
      rewrite andb_true_iff, IH, Forall_cons.
      split; intros H; repeat split; try tauto; try lia.
Qed.

Lemma matchM_Repeat (r : RegExp.regex) (lo hi : nat) (s : string) (k : string -> bool) :
  RegExp.matchM (RegExp.Repeat r lo hi) s k = RegExp.repeatM (RegExp.matchM r) lo hi s k.
Proof. reflexivity. Qed.

Lemma phoneRegex_test (t : string) :
  RegExp.test phoneRegex t = true <-> phoneFormat t.
Proof.
  unfold RegExp.test, phoneRegex, phoneFormat.
  rewrite matchM_Repeat, repeat_class_whole.
  split; intros [H1 H2]; split; try lia.
  - eapply Forall_impl; [exact H2|]. intros c; apply classMatches_phone.
  - eapply Forall_impl; [exact H1|]. intros c; apply classMatches_phone.
Qed.

(** C3.  A name whose trimmed length is between 1 and 100 is valid; one
    whose trimmed length is 0 or more than 100 is not. *)
Theorem validateName_length (s : string) :
  (1 <= String.length (trim s) <= 100 -> valid (validateName s) = true) /\
  (String.length (trim s) = 0 \/ 100 < String.length (trim s) ->
   valid (validateName s) = false).
Proof.
  unfold validateName.
  destruct (truthy (trim s)) eqn:Ht; simpl.
  - apply truthy_length in Ht.
    destruct (100 <? String.length (trim s)) eqn:Hl; simpl.
    + apply Nat.ltb_lt in Hl. split; [lia | reflexivity].
    + apply Nat.ltb_ge in Hl. split; [reflexivity | lia].
  - apply truthy_false_length in Ht. split; [lia | reflexivity].
Qed.

(** C2.  A telephone number is valid exactly when its trimmed form has the
    format of the pattern: only digits, white space, hyphen, parentheses,
    plus and period, between 7 and 20 characters. *)
Theorem validatePhone_format (s : string) :
  (phoneFormat (trim s) -> valid (validatePhone s) = true) /\
  (~ phoneFormat (trim s) -> valid (validatePhone s) = false).
Proof.
  unfold validatePhone.
  destruct (truthy (trim s)) eqn:Ht; simpl.
  - destruct (RegExp.test phoneRegex (trim s)) eqn:Hr; simpl.
    + apply phoneRegex_test in Hr. split; [reflexivity | tauto].
    + split; [|reflexivity]. intros Hf. apply phoneRegex_test in Hf. congruence.
  - split; [|reflexivity].
    intros [_ Hlen]. apply truthy_false_length in Ht. lia.
Qed.

Example validateName_examples :
  valid (validateName "  Jo Smith ") = true /\
  validateName "   " = {| valid := false; message := "Name is required." |}.
Proof. split; reflexivity. Qed.

Example validatePhone_examples :
  valid (validatePhone " (555) 123-4567 ") = true /\
  valid (validatePhone "+1 555.123.4567") = true /\
  valid (validatePhone "123456") = false /\
  valid (validatePhone "123456789012345678901") = false /\
  valid (validatePhone "555-12e4567") = false /\
  validatePhone "" = {| valid := false; message := "Phone number is required." |}.
Proof. repeat split; reflexivity. Qed.

Lemma append_nil_l (t : string) : EmptyString +:+ t = t.
Proof. reflexivity. Qed.

Lemma append_cons (c : ascii) (s t : string) : String c s +:+ t = String c (s +:+ t).
Proof. reflexivity. Qed.

Lemma append_nil_r (s : string) : s +:+ EmptyString = s.
Proof. induction s as [|c s IH]; [reflexivity | rewrite append_cons, IH; reflexivity]. Qed.

Lemma append_assoc (a b c : string) : (a +:+ b) +:+ c = a +:+ (b +:+ c).
Proof.
  induction a as [|x a IH]; [reflexivity|].
  rewrite !append_cons, IH; reflexivity.
Qed.

Lemma append_length (a b : string) :
  String.length (a +:+ b) = String.length a + String.length b.
Proof. induction a as [|x a IH]; [reflexivity | rewrite append_cons; simpl; lia]. Qed.

Lemma startsWith_prefix (s t : string) :
  startsWith s t = true <-> exists suf, s = t +:+ suf.
Proof.
  revert s; induction t as [|b t IH]; intros s.
  - destruct s; simpl; split; eauto.
  - destruct s as [|a s]; simpl.
    + split; [discriminate | intros [suf H]; rewrite append_cons in H; discriminate].
    + destruct (ascii_dec a b) as [->|Hne].
      * rewrite IH. split; intros [suf H]; exists suf.
        -- rewrite append_cons; congruence.
        -- rewrite append_cons in H; congruence.
      * split; [discriminate | intros [suf H]; rewrite append_cons in H; congruence].
Qed.

Lemma includes_occursIn (s t : string) : includes s t = true <-> occursIn t s.
Proof.
  induction s as [|a s IH].
  - cbn [includes]. rewrite orb_false_r, startsWith_prefix. split.
    + intros [suf H]. exists EmptyString, suf. exact H.
    + intros [pre [suf H]]. destruct pre; [|rewrite append_cons in H; discriminate].
      exists suf. exact H.
  - cbn [includes]. rewrite orb_true_iff, startsWith_prefix, IH. split.
    + intros [[suf H] | [pre [suf H]]].
      * exists EmptyString, suf. exact H.
      * exists (String a pre), suf. rewrite append_cons, H. reflexivity.
    + intros [pre [suf H]]. destruct pre as [|x pre].
      * left. exists suf. exact H.
      * right. rewrite append_cons in H. injection H as -> H. exists pre, suf. exact H.
Qed.





Lemma Selects_filter {A : Type} (P : A -> Prop) (f : A -> bool) (l : list A) :
  (forall x, f x = true <-> P x) -> Selects P l (List.filter f l).
Proof.
  intros Hf. induction l as [|x l IH]; simpl.
  - constructor.
  - destruct (f x) eqn:Hx.
    + apply Selects_keep; [apply Hf; exact Hx | exact IH].
    + apply Selects_skip; [rewrite <- Hf; congruence | exact IH].
Qed.

Lemma Selects_elem_of {A : Type} (P : A -> Prop) (l r : list A) :
  Selects P l r -> forall x, x ∈ r <-> x ∈ l /\ P x.
Proof.
  induction 1 as [|x l r Hx _ IH|x l r Hx _ IH]; intros y.
  - split; [intros H; inversion H | intros [H _]; inversion H].
  - rewrite !elem_of_cons, IH. split.
    + intros [->|[? ?]]; auto.
    + intros [[->|?] ?]; auto.
  - rewrite elem_of_cons, IH. split.
    + intros [? ?]; auto.
    + intros [[->|?] ?]; [contradiction | auto].
Qed.

Lemma Selects_sublist {A : Type} (P : A -> Prop) (l r : list A) :
  Selects P l r -> sublist r l.
Proof.
  induction 1; [constructor | apply sublist_skip; assumption | apply sublist_cons; assumption].
Qed.


Lemma lowerChar_idempotent (c : ascii) : lowerChar (lowerChar c) = lowerChar c.
Proof. destruct c as [[] [] [] [] [] [] [] []]; reflexivity. Qed.

Lemma toLowerCase_idempotent (s : string) : toLowerCase (toLowerCase s) = toLowerCase s.
Proof.
  induction s as [|c s IH]; [reflexivity|].
  simpl. rewrite lowerChar_idempotent, IH. reflexivity.
Qed.

(** The search term that [getFilters] hands to [filterLeads] is lower-cased,
    as [filterLeads] expects. *)
Lemma getFilters_search_lower (p : Page) :
  toLowerCase (search (getFilters p)) = search (getFilters p).
Proof.
  unfold getFilters; simpl.
  destruct (truthy (searchInput (filterInputs p))); [|reflexivity].
  apply toLowerCase_idempotent.
Qed.

(** With no filter set, [filterLeads] returns the list it was given. *)
Lemma filterLeads_no_filter (leads : list Lead.t) :
  filterLeads leads {| search := ""; status := "" |} = leads.
Proof.
  unfold filterLeads; simpl. induction leads as [|l leads IH]; [reflexivity|].
  simpl. rewrite IH. reflexivity.
Qed.

(** Filtering a filtered list again, with the same filters, changes nothing. *)
Lemma filterLeads_idempotent (leads : list Lead.t) (f : Filters) :
  filterLeads (filterLeads leads f) f = filterLeads leads f.
Proof.
  unfold filterLeads. induction leads as [|l leads IH]; [reflexivity|].
  simpl. destruct (_ && _) eqn:H; [|exact IH].
  simpl. rewrite H, IH. reflexivity.
Qed.

(** ** JSON text: reading back what was written *)

Lemma parseChars_escape (c : ascii) (t : string) :
  JSON.parseChars (JSON.escape c +:+ t) =
  match JSON.parseChars t with
  | Some (r, rest) => Some (String c r, rest)
  | None => None
  end.
Proof.
  destruct c as [[] [] [] [] [] [] [] []]; reflexivity.
Qed.

Lemma parseChars_quoteBody (s rest : string) :
  JSON.parseChars (JSON.quoteBody s +:+ String JSON.dquote rest) = Some (s, rest).
Proof.
  induction s as [|c s IH]; [reflexivity|].
  cbn [JSON.quoteBody]. rewrite append_assoc, parseChars_escape, IH. reflexivity.
Qed.

Lemma parseString_quote (s rest : string) :
  JSON.parseString (JSON.quote s +:+ rest) = Some (s, rest).
Proof.
  unfold JSON.quote. rewrite append_cons, append_assoc, append_cons, append_nil_l.
  unfold JSON.parseString. cbn [JSON.skipWs]. 
  change (JSON.isWs JSON.dquote) with false. cbv iota.
  change (Ascii.eqb JSON.dquote JSON.dquote) with true. cbv iota.
  apply parseChars_quoteBody.
Qed.

Lemma parseMember_member (kv : string * string) (rest : string) :
  JSON.parseMember (JSON.member kv +:+ rest) = Some (kv, rest).
Proof.
  destruct kv as [k v]. unfold JSON.member, JSON.parseMember. cbn [fst snd].
  rewrite append_assoc, parseString_quote. cbn [mbind option_bind].
  rewrite append_assoc.
  change (JSON.expect ":" (":" +:+ JSON.quote v +:+ rest)) with (Some (JSON.quote v +:+ rest)).
  cbn [mbind option_bind].
  rewrite parseString_quote. reflexivity.
Qed.

Lemma parseMembers_join (props : list (string * string)) (rest : string) (fuel : nat) :
  props <> [] -> length props <= fuel ->
  JSON.parseMembers fuel (JSON.join "," (map JSON.member props) +:+ "}" +:+ rest)
  = Some (props, rest).
Proof.
  revert fuel. induction props as [|p props IH]; intros fuel Hne Hfuel; [congruence|].
  destruct fuel as [|fuel]; [simpl in Hfuel; lia|].
  destruct props as [|q props].
  - cbn [map JSON.join JSON.parseMembers].
    rewrite parseMember_member. reflexivity.
  - cbn [map JSON.join JSON.parseMembers] in *.
    rewrite append_assoc, parseMember_member. cbn [mbind option_bind].
    rewrite append_assoc.
    change (JSON.skipWs ("," +:+ ?t)) with (String ","%char t).
    change (Ascii.eqb "," ",") with true. cbv iota.
    rewrite IH; [reflexivity | discriminate | simpl in *; lia].
Qed.

Lemma leadOfProps_leadProps (l : Lead.t) : JSON.leadOfProps (JSON.leadProps l) = Some l.
Proof. destruct l; reflexivity. Qed.

Lemma parseLead_object (l : Lead.t) (rest : string) :
  JSON.parseLead (JSON.object (JSON.leadProps l) +:+ rest) = Some (l, rest).
Proof.
  unfold JSON.parseLead, JSON.parseObject, JSON.object.
  rewrite !append_assoc.
  change (JSON.expect "{" ("{" +:+ ?t)) with (Some t).
  cbn [mbind option_bind].
  set (body := JSON.join "," (map JSON.member (JSON.leadProps l)) +:+ "}" +:+ rest).
  assert (Hbody : exists t, body = String JSON.dquote (String "i" (String "d" (String JSON.dquote (String ":" t))))).
  { unfold body. destruct l. eexists. reflexivity. }
  destruct Hbody as [t Ht].
  assert (Hexp : JSON.expect "}" body = None) by (rewrite Ht; reflexivity).
  rewrite Hexp.
  assert (Hlen : 5 <= String.length body) by (rewrite Ht; simpl; lia).
  unfold body in *. rewrite parseMembers_join; [|discriminate|exact Hlen].
  cbn [mbind option_bind]. rewrite leadOfProps_leadProps. reflexivity.
Qed.

Lemma join_cons_cons (sep p q : string) (parts : list string) :
  JSON.join sep (p :: q :: parts) = p +:+ sep +:+ JSON.join sep (q :: parts).
Proof. reflexivity. Qed.

Lemma join_length (k : nat) (sep : string) (parts : list string) :
  Forall (fun p => k <= String.length p) parts ->
  k * length parts <= String.length (JSON.join sep parts).
Proof.
  induction 1 as [|p parts Hp Hparts IH]; [simpl; lia|].
  destruct parts as [|q parts]; [simpl; lia|].
  rewrite join_cons_cons, !append_length.
  change (length (p :: q :: parts)) with (S (length (q :: parts))). lia.
Qed.

Lemma object_length (l : Lead.t) : 7 <= String.length (JSON.object (JSON.leadProps l)).
Proof.
  assert (H : exists t, JSON.object (JSON.leadProps l) =
                        String "{" (String JSON.dquote (String "i" (String "d"
                          (String JSON.dquote (String ":" (String JSON.dquote t)))))))
    by (eexists; reflexivity).
  destruct H as [t ->]. simpl. lia.
Qed.

Lemma join_objects_length (leads : list Lead.t) :
  7 * length leads <=
  String.length (JSON.join "," (map (fun l => JSON.object (JSON.leadProps l)) leads)).
Proof.
  rewrite <- (length_map (fun l => JSON.object (JSON.leadProps l)) leads) at 1.
  apply join_length, Forall_map, Forall_forall. intros l _. apply object_length.
Qed.

Lemma parseElements_join (leads : list Lead.t) (rest : string) (fuel : nat) :
  leads <> [] -> length leads <= fuel ->
  JSON.parseElements fuel
    (JSON.join "," (map (fun l => JSON.object (JSON.leadProps l)) leads) +:+ "]" +:+ rest)
  = Some (leads, rest).
Proof.
  revert fuel. induction leads as [|l leads IH]; intros fuel Hne Hfuel; [congruence|].
  destruct fuel as [|fuel]; [simpl in Hfuel; lia|].
  destruct leads as [|l' leads].
  - cbn [map JSON.join JSON.parseElements].
    rewrite parseLead_object. reflexivity.
  - cbn [map JSON.join JSON.parseElements] in *.
    rewrite append_assoc, parseLead_object. cbn [mbind option_bind].
    rewrite append_assoc.
    change (JSON.skipWs ("," +:+ ?t)) with (String ","%char t).
    change (Ascii.eqb "," ",") with true. cbv iota.
    rewrite IH; [reflexivity | discriminate | simpl in *; lia].
Qed.

(** [JSON.parse(JSON.stringify(leads))] is [leads]. *)
Lemma parse_stringify (leads : list Lead.t) : JSON.parse (JSON.stringify leads) = Some leads.
Proof.
  unfold JSON.parse, JSON.parseArray, JSON.stringify.
  change (JSON.expect "[" ("[" +:+ ?t)) with (Some t).
  cbn [mbind option_bind].
  destruct leads as [|l leads]; [reflexivity|].
  set (ls := l :: leads).
  set (body := JSON.join "," (map (fun l => JSON.object (JSON.leadProps l)) ls) +:+ "]").
  assert (Hexp : JSON.expect "]" body = None).
  { unfold body, ls. destruct leads; cbn [map JSON.join]; reflexivity. }
  rewrite Hexp.
  assert (Hlen : length ls <= String.length body).
  { unfold body. rewrite append_length. pose proof (join_objects_length ls). lia. }
  unfold body in *.
  rewrite <- (append_nil_r "]"), parseElements_join; [reflexivity | discriminate | ].
  rewrite append_nil_r. exact Hlen.
Qed.

Lemma stringify_truthy (leads : list Lead.t) : truthy (JSON.stringify leads) = true.
Proof. reflexivity. Qed.

(** *** What [stringify] writes is JSON text *)

Lemma skipChars_escape (c : ascii) (t : string) :
  JSON.skipChars (JSON.escape c +:+ t) = JSON.skipChars t.
Proof. destruct c as [[] [] [] [] [] [] [] []]; reflexivity. Qed.

Lemma skipChars_quoteBody (s rest : string) :
  JSON.skipChars (JSON.quoteBody s +:+ String JSON.dquote rest) = Some rest.
Proof.
  induction s as [|c s IH]; [reflexivity|].
  cbn [JSON.quoteBody]. rewrite append_assoc, skipChars_escape. exact IH.
Qed.

Lemma quote_append (s rest : string) :
  JSON.quote s +:+ rest = String JSON.dquote (JSON.quoteBody s +:+ String JSON.dquote rest).
Proof.
  unfold JSON.quote. rewrite append_cons, append_assoc, append_cons, append_nil_l. reflexivity.
Qed.

Lemma skipString_quote (s rest : string) : JSON.skipString (JSON.quote s +:+ rest) = Some rest.
Proof. rewrite quote_append. apply skipChars_quoteBody. Qed.

Lemma skipValue_quote (fuel : nat) (s rest : string) :
  JSON.skipValue (S fuel) (JSON.quote s +:+ rest) = Some rest.
Proof. rewrite quote_append. apply skipChars_quoteBody. Qed.

Lemma skipMembers_join (props : list (string * string)) (rest : string) (fuel : nat) :
  props <> [] -> length props < fuel ->
  JSON.skipMembers fuel (JSON.join "," (map JSON.member props) +:+ "}" +:+ rest) = Some rest.
Proof.
  revert fuel. induction props as [|[k v] props IH]; intros fuel Hne Hfuel; [congruence|].
  destruct fuel as [|[|fuel]]; [simpl in Hfuel; lia | simpl in Hfuel; lia |].
  assert (Hmember : forall t,
            JSON.skipMembers (S (S fuel)) (JSON.member (k, v) +:+ t) =
            match JSON.skipWs t with
            | String d r =>
                if Ascii.eqb d "," then JSON.skipMembers (S fuel) r
                else if Ascii.eqb d "}" then Some r
                else None
            | EmptyString => None
            end).
  { intros t. cbn [JSON.skipMembers]. unfold JSON.member. cbn [fst snd].
    rewrite append_assoc, skipString_quote. cbn [mbind option_bind].
    rewrite append_assoc.
    change (JSON.expect ":" (":" +:+ ?u)) with (Some u). cbn [mbind option_bind].
    rewrite skipValue_quote. reflexivity. }
  destruct props as [|q props].
  - cbn [map JSON.join]. rewrite Hmember. reflexivity.
  - rewrite map_cons, (map_cons _ q), join_cons_cons, !append_assoc, Hmember.
    change (JSON.skipWs ("," +:+ ?t)) with (String ","%char t).
    change (Ascii.eqb "," ",") with true. cbv iota.
    change (JSON.member q :: map JSON.member props) with (map JSON.member (q :: props)).
    apply IH; [discriminate | simpl in *; lia].
Qed.

Lemma skipValue_object (l : Lead.t) (rest : string) (fuel : nat) :
  7 <= fuel -> JSON.skipValue fuel (JSON.object (JSON.leadProps l) +:+ rest) = Some rest.
Proof.
  intros Hfuel. destruct fuel as [|fuel]; [lia|].
  unfold JSON.object. rewrite !append_assoc.
  change (JSON.skipValue (S fuel) ("{" +:+ ?t)) with
    (match JSON.expect "}" t with
     | Some r' => Some r'
     | None => JSON.skipMembers fuel t
     end).
  set (body := JSON.join "," (map JSON.member (JSON.leadProps l)) +:+ "}" +:+ rest).
  assert (Hexp : JSON.expect "}" body = None) by (unfold body; destruct l; reflexivity).
  rewrite Hexp. unfold body. apply skipMembers_join; [discriminate|].
  change (length (JSON.leadProps l)) with 5. lia.
Qed.

Lemma skipElements_join (leads : list Lead.t) (rest : string) (fuel : nat) :
  leads <> [] -> length leads + 7 <= fuel ->
  JSON.skipElements fuel
    (JSON.join "," (map (fun l => JSON.object (JSON.leadProps l)) leads) +:+ "]" +:+ rest)
  = Some rest.
Proof.
  revert fuel. induction leads as [|l leads IH]; intros fuel Hne Hfuel; [congruence|].
  destruct fuel as [|fuel]; [simpl in Hfuel; lia|].
  destruct leads as [|l' leads].
  - cbn [map JSON.join JSON.skipElements].
    rewrite skipValue_object by (simpl in Hfuel; lia). reflexivity.
  - rewrite map_cons, (map_cons _ l'), join_cons_cons, !append_assoc.
    cbn [JSON.skipElements]. rewrite skipValue_object by (simpl in Hfuel; lia).
    cbn [mbind option_bind].
    change (JSON.skipWs ("," +:+ ?t)) with (String ","%char t).
    change (Ascii.eqb "," ",") with true. cbv iota.
    change (JSON.object (JSON.leadProps l') ::
            map (fun l => JSON.object (JSON.leadProps l)) leads)
      with (map (fun l => JSON.object (JSON.leadProps l)) (l' :: leads)).
    apply IH; [discriminate | simpl in *; lia].
Qed.

Lemma wellFormed_stringify (leads : list Lead.t) : JSON.wellFormed (JSON.stringify leads) = true.
Proof.
  destruct leads as [|l leads]; [reflexivity|].
  set (ls := l :: leads).
  unfold JSON.wellFormed, JSON.stringify.
  set (body := JSON.join "," (map (fun l => JSON.object (JSON.leadProps l)) ls) +:+ "]").
  assert (Hlen : length ls + 7 <= String.length ("[" +:+ body)).
  { unfold body. rewrite !append_length.
    change (String.length "[") with 1. change (String.length "]") with 1.
    pose proof (join_objects_length ls).
    assert (1 <= length ls) by (unfold ls; simpl; lia). lia. }
  change (JSON.skipValue (S ?n) ("[" +:+ body)) with
    (match JSON.expect "]" body with
     | Some r' => Some r'
     | None => JSON.skipElements n body
     end).
  assert (Hexp : JSON.expect "]" body = None).
  { unfold body, ls. destruct leads; cbn [map JSON.join]; reflexivity. }
  rewrite Hexp. unfold body in *.
  rewrite <- (append_nil_r "]") at 2.
  rewrite skipElements_join; [reflexivity | discriminate | exact Hlen].
Qed.

(** ** The Store *)

Lemma setStorage_same (p : Page) : setStorage (localStorage p) p = p.
Proof. destruct p; reflexivity. Qed.

Lemma getLeads_eq (p : Page) : getLeads p = (loadOutcome (localStorage p), p).
Proof.
  unfold getLeads, try_catch, loadOutcome, getItem, mbind, JS_bind, JSON_parse.
  destruct (items (localStorage p) !! STORAGE_KEY) as [text|]; [|reflexivity].
  destruct (truthy text); [|reflexivity].
  destruct (JSON.wellFormed text); [|reflexivity].
  destruct (JSON.parse text); reflexivity.
Qed.

Lemma saveLeads_eq (leads : list Lead.t) (p : Page) :
  saveLeads leads p = (Normal tt, setStorage (slotWrite leads (localStorage p)) p).
Proof.
  unfold saveLeads, try_catch, setItem, slotWrite.
  destruct (fits STORAGE_KEY (JSON.stringify leads) (localStorage p)); [reflexivity|].
  rewrite setStorage_same. reflexivity.
Qed.

Lemma exec_saveLeads (leads : list Lead.t) (p : Page) :
  exec (saveLeads leads) p = setStorage (slotWrite leads (localStorage p)) p.
Proof. unfold exec. rewrite saveLeads_eq. reflexivity. Qed.

Lemma persisted_loadOutcome (p : Page) (leads : list Lead.t) :
  persisted p leads <-> loadOutcome (localStorage p) = Normal leads.
Proof.
  unfold persisted. rewrite getLeads_eq. split; [intros H; injection H; auto | congruence].
Qed.

Lemma persisted_storage (p q : Page) (leads : list Lead.t) :
  localStorage p = localStorage q -> persisted q leads -> persisted p leads.
Proof. rewrite !persisted_loadOutcome. congruence. Qed.

Lemma loadOutcome_slotWrite (leads : list Lead.t) (s : Storage) :
  loadOutcome (slotWrite leads s) =
  if fits STORAGE_KEY (JSON.stringify leads) s then Normal leads else loadOutcome s.
Proof.
  unfold slotWrite. destruct (fits _ _ s); [|reflexivity].
  unfold loadOutcome. cbn [items].
  rewrite lookup_insert_eq, stringify_truthy, wellFormed_stringify, parse_stringify.
  reflexivity.
Qed.

(** After [saveLeads] the persisted collection is the one saved when the
    write fits, and the one persisted before when it does not. *)
Lemma persisted_saveLeads (leads old : list Lead.t) (p : Page) :
  persisted p old ->
  persisted (exec (saveLeads leads) p)
    (if fits STORAGE_KEY (JSON.stringify leads) (localStorage p) then leads else old).
Proof.
  rewrite !persisted_loadOutcome, exec_saveLeads. intros H.
  change (localStorage (setStorage ?s p)) with s.
  rewrite loadOutcome_slotWrite. destruct (fits _ _ _); [reflexivity | exact H].
Qed.

(** A write of [saveLeads] that fits leaves the storage in such a state. *)
Lemma ownSlot_saveLeads (leads : list Lead.t) (p : Page) :
  fits STORAGE_KEY (JSON.stringify leads) (localStorage p) = true ->
  ownSlot (localStorage (exec (saveLeads leads) p)) leads.
Proof.
  intros H. rewrite exec_saveLeads.
  change (localStorage (setStorage ?s p)) with s.
  unfold slotWrite. rewrite H. split; cbn [items quota].
  - apply Nat.leb_le. exact H.
  - apply lookup_insert_eq.
Qed.

Lemma ownSlot_persisted (p : Page) (leads : list Lead.t) :
  ownSlot (localStorage p) leads -> persisted p leads.
Proof.
  intros [_ H]. apply persisted_loadOutcome. unfold loadOutcome.
  rewrite H, stringify_truthy, wellFormed_stringify, parse_stringify. reflexivity.
Qed.

(** *** The quota *)

Lemma usage_insert (m : gmap string string) (k v : string) :
  m !! k = None -> usage (<[k := v]> m) = String.length k + String.length v + usage m.
Proof.
  intros H. unfold usage. rewrite map_fold_insert_L; [reflexivity | intros; lia | exact H].
Qed.

Lemma usage_replace (m : gmap string string) (k v v' : string) :
  m !! k = Some v ->
  usage (<[k := v']> m) + String.length v = usage m + String.length v'.
Proof.
  intros H.
  rewrite <- (insert_delete_eq m k v'), usage_insert by apply lookup_delete_eq.
  rewrite <- (insert_delete_id m k v H) at 2.
  rewrite usage_insert by apply lookup_delete_eq. lia.
Qed.

(** A text no longer than the one in the slot always fits. *)
Lemma fits_no_longer (s : Storage) (leads leads' : list Lead.t) :
  ownSlot s leads ->
  String.length (JSON.stringify leads') <= String.length (JSON.stringify leads) ->
  fits STORAGE_KEY (JSON.stringify leads') s = true.
Proof.
  intros [Hq Hslot] Hlen. unfold fits. apply Nat.leb_le.
  pose proof (usage_replace (items s) STORAGE_KEY _ (JSON.stringify leads') Hslot). lia.
Qed.

Lemma join_sublist_length (sep : string) (l k : list string) :
  sublist l k -> String.length (JSON.join sep l) <= String.length (JSON.join sep k).
Proof.
  induction 1 as [|x l k Hsub IH|x l k Hsub IH].
  - lia.
  - destruct l as [|y l], k as [|z k].
    + lia.
    + rewrite join_cons_cons, !append_length. cbn [JSON.join]. lia.
    + apply sublist_nil_r in Hsub. discriminate Hsub.
    + rewrite !join_cons_cons, !append_length. lia.
  - destruct k as [|z k].
    + apply sublist_nil_r in Hsub. subst l. simpl. lia.
    + rewrite join_cons_cons, !append_length. lia.
Qed.

Lemma stringify_sublist_length (l k : list Lead.t) :
  sublist l k -> String.length (JSON.stringify l) <= String.length (JSON.stringify k).
Proof.
  intros H. unfold JSON.stringify. rewrite !append_length.
  pose proof (join_sublist_length ","
                (map (fun l => JSON.object (JSON.leadProps l)) l)
                (map (fun l => JSON.object (JSON.leadProps l)) k)) as Hj.
  assert (Hs : sublist (map (fun l => JSON.object (JSON.leadProps l)) l)
                       (map (fun l => JSON.object (JSON.leadProps l)) k)).
  { clear Hj. induction H; simpl;
      [constructor | apply sublist_skip | apply sublist_cons]; assumption. }
  specialize (Hj Hs). lia.
Qed.

(** C5, as amended.  When the write fits the quota, loading after saving a
    collection returns that collection, in the same order and with the same
    fields. *)
Theorem getLeads_saveLeads (leads : list Lead.t) (p : Page) :
  fits STORAGE_KEY (JSON.stringify leads) (localStorage p) = true ->
  getLeads (exec (saveLeads leads) p) = (Normal leads, exec (saveLeads leads) p).
Proof.
  intros Hfits. rewrite getLeads_eq, exec_saveLeads.
  change (localStorage (setStorage ?s p)) with s.
  rewrite loadOutcome_slotWrite, Hfits. reflexivity.
Qed.



(** ** The handlers as page transformers *)

Lemma clearValidation_eq (p : Page) : clearValidation p = (Normal tt, clearedPage p).
Proof. reflexivity. Qed.

Lemma resetForm_eq (p : Page) : resetForm p = (Normal tt, resetPage p).
Proof. reflexivity. Qed.

Lemma showModal_eq (show : bool) (p : Page) : showModal show p = (Normal tt, modalShown show p).
Proof. reflexivity. Qed.

Lemma validateForm_eq (p : Page) : validateForm p = (Normal (formValid p), validatedPage p).
Proof. reflexivity. Qed.

Lemma cancelModal_eq (p : Page) :
  cancelModal p = (Normal tt, modalShown false (setDeleteTargetId None p)).
Proof. reflexivity. Qed.

Lemma renderLeads_eq (leads : list Lead.t) (p : Page) :
  persisted p leads -> renderLeads p = (Normal tt, setView (renderedView leads p) p).
Proof.
  intros H. unfold renderLeads, renderedView, mbind, JS_bind. rewrite H.
  unfold getPage, modify.
  destruct (length _ =? 0); reflexivity.
Qed.

(** [renderLeads] changes the list view at most. *)
Lemma renderLeads_frame (p : Page) :
  exists v, exec renderLeads p = setView v p.
Proof.
  unfold exec, renderLeads, mbind, JS_bind. rewrite getLeads_eq.
  destruct (loadOutcome (localStorage p)) as [leads|e|].
  - unfold getPage, modify. destruct (length _ =? 0); eexists; reflexivity.
  - exists (view p). destruct p; reflexivity.
  - exists (view p). destruct p; reflexivity.
Qed.

Ltac js_run :=
  unfold mbind, JS_bind, mret, JS_ret, getPage, modify;
  cbv beta iota zeta; cbn [negb fst snd];
  repeat (rewrite ?saveLeads_eq, ?resetForm_eq, ?showModal_eq,
            ?validateForm_eq, ?clearValidation_eq;
          cbv beta iota zeta; cbn [negb fst snd]).

Lemma confirmDelete_pending (p : Page) (target : string) (leads : list Lead.t) :
  pendingTarget p = Some target -> persisted p leads ->
  exists v, confirmDelete p = (Normal tt, setView v (deletedPage target leads p)).
Proof.
  intros Ht Hl. unfold confirmDelete. js_run. rewrite Ht, Hl. js_run.
  set (q := resetPage _).
  assert (Hq : q = deletedPage target leads p)
    by (unfold q, deletedPage; rewrite exec_saveLeads; reflexivity).
  assert (Hp : persisted q
            (if fits STORAGE_KEY (JSON.stringify (withoutId target leads)) (localStorage p)
             then withoutId target leads else leads)).
  { eapply persisted_storage; [|apply (persisted_saveLeads _ _ p Hl)].
    rewrite Hq. reflexivity. }
  rewrite (renderLeads_eq _ q Hp), Hq. eexists. reflexivity.
Qed.

Lemma confirmDelete_idle (p : Page) :
  pendingTarget p = None -> confirmDelete p = (Normal tt, modalShown false p).
Proof. intros H. unfold confirmDelete. js_run. rewrite H. reflexivity. Qed.

Lemma handleDeleteClick_storage (d : option string) (p : Page) :
  localStorage (exec (handleDeleteClick d) p) = localStorage p.
Proof.
  unfold handleDeleteClick. destruct d as [i|]; [|reflexivity].
  destruct (truthy i); reflexivity.
Qed.

Lemma handleEditClick_storage (d : option string) (p : Page) :
  localStorage (exec (handleEditClick d) p) = localStorage p.
Proof.
  unfold handleEditClick. destruct d as [i|]; [|reflexivity].
  destruct (truthy i); cbn [negb]; [|reflexivity].
  unfold exec. js_run. rewrite getLeads_eq.
  destruct (loadOutcome (localStorage p)) as [leads|e|]; try reflexivity.
  destruct (find _ _); reflexivity.
Qed.

(** ** Submitting *)

Lemma hasId_true (i : string) (l : Lead.t) : hasId i l = true <-> Lead.id l = i.
Proof. apply String.eqb_eq. Qed.

Lemma hasId_false (i : string) (l : Lead.t) : hasId i l = false <-> Lead.id l <> i.
Proof. apply String.eqb_neq. Qed.

Section FindIndex.
Context {A : Type} (f : A -> bool).

Lemma findIndexFrom_none (i : Z) (l : list A) :
  Forall (fun x => f x = false) l -> findIndexFrom f i l = (-1)%Z.
Proof.
  intros H. revert i. induction H as [|x l Hx _ IH]; intros i; simpl; [reflexivity|].
  rewrite Hx. apply IH.
Qed.

Lemma findIndexFrom_first (i : Z) (pre : list A) (x : A) (suf : list A) :
  Forall (fun y => f y = false) pre -> f x = true ->
  findIndexFrom f i (pre ++ x :: suf) = (i + Z.of_nat (length pre))%Z.
Proof.
  intros Hpre Hx. revert i. induction Hpre as [|y pre Hy _ IH]; intros i.
  - simpl. rewrite Hx. lia.
  - cbn [app findIndexFrom]. rewrite Hy, IH. simpl length. lia.
Qed.

(** A list splits at the first element that passes [f], if there is one. *)
Lemma first_split (l : list A) :
  Forall (fun x => f x = false) l \/
  exists pre x suf, l = pre ++ x :: suf /\ Forall (fun y => f y = false) pre /\ f x = true.
Proof.
  induction l as [|a l IH]; [left; constructor|].
  destruct (f a) eqn:Ha.
  - right. exists [], a, l. repeat split; [constructor | exact Ha].
  - destruct IH as [IH | (pre & x & suf & -> & Hpre & Hx)].
    + left. constructor; assumption.
    + right. exists (a :: pre), x, suf. repeat split; [constructor; assumption | exact Hx].
Qed.

End FindIndex.

Lemma insert_first_split {A : Type} (pre : list A) (x y : A) (suf : list A) :
  <[Z.to_nat (Z.of_nat (length pre)) := y]> (pre ++ x :: suf) = pre ++ y :: suf.
Proof.
  rewrite Nat2Z.id. rewrite insert_app_r_alt by lia.
  rewrite Nat.sub_diag. reflexivity.
Qed.

Lemma first_with_id (i : string) (leads : list Lead.t) :
  (exists l, l ∈ leads /\ Lead.id l = i) ->
  exists pre old suf,
    leads = pre ++ old :: suf /\ Forall (fun l => Lead.id l <> i) pre /\ Lead.id old = i.
Proof.
  intros (l & Hl & Hi).
  destruct (first_split (hasId i) leads) as [Hnone | (pre & old & suf & -> & Hpre & Hold)].
  - rewrite Forall_forall in Hnone. apply Hnone, hasId_false in Hl. contradiction.
  - exists pre, old, suf. split; [reflexivity|]. split; [|apply hasId_true; exact Hold].
    eapply Forall_impl; [exact Hpre|]. intros x. apply hasId_false.
Qed.

Lemma persisted_validatedPage (p : Page) (leads : list Lead.t) :
  persisted p leads -> persisted (validatedPage p) leads.
Proof. apply persisted_storage. reflexivity. Qed.

Lemma render_submittedPage (saved old : list Lead.t) (p : Page) :
  persisted p old ->
  exists v, renderLeads (submittedPage saved p) = (Normal tt, setView v (submittedPage saved p)).
Proof.
  intros Hl. eexists. apply renderLeads_eq.
  eapply persisted_storage;
    [|apply (persisted_saveLeads saved old _ (persisted_validatedPage p old Hl))].
  reflexivity.
Qed.

Lemma handleFormSubmit_invalid (e : Entropy) (p : Page) :
  formValid p = false -> handleFormSubmit e p = (Normal tt, validatedPage p).
Proof. intros H. unfold handleFormSubmit. js_run. rewrite H. reflexivity. Qed.

(** The add path: no id in the form. *)
Lemma handleFormSubmit_add (e : Entropy) (p : Page) (leads : list Lead.t) :
  formValid p = true -> trim (leadIdInput (inputs p)) = EmptyString -> persisted p leads ->
  exists v,
    handleFormSubmit e p =
    (Normal tt, setView v (submittedPage (leads ++ [formLead (generateId e) p]) p)).
Proof.
  intros Hv Hi Hl.
  destruct (render_submittedPage (leads ++ [formLead (generateId e) p]) leads p Hl)
    as [v Hrender].
  exists v. rewrite <- Hrender.
  unfold handleFormSubmit. js_run. rewrite Hv. js_run.
  rewrite (persisted_validatedPage p leads Hl). js_run.
  change (inputs (validatedPage p)) with (inputs p). rewrite Hi.
  cbn [truthy isEmpty negb]. js_run.
  unfold submittedPage. rewrite exec_saveLeads. reflexivity.
Qed.

(** The update path when the id is found: the first record that has it is
    replaced in place. *)
Lemma handleFormSubmit_found (e : Entropy) (p : Page) (i : string)
    (pre : list Lead.t) (old : Lead.t) (suf : list Lead.t) :
  formValid p = true -> trim (leadIdInput (inputs p)) = i -> i <> EmptyString ->
  persisted p (pre ++ old :: suf) ->
  Forall (fun l => Lead.id l <> i) pre -> Lead.id old = i ->
  exists v,
    handleFormSubmit e p =
    (Normal tt, setView v (submittedPage (pre ++ formLead i p :: suf) p)).
Proof.
  intros Hv Hi Hne Hl Hpre Hold.
  destruct (render_submittedPage (pre ++ formLead i p :: suf) _ p Hl) as [v Hrender].
  exists v. rewrite <- Hrender.
  unfold handleFormSubmit. js_run. rewrite Hv. js_run.
  rewrite (persisted_validatedPage p _ Hl). js_run.
  change (inputs (validatedPage p)) with (inputs p). rewrite Hi.
  destruct i as [|c i]; [congruence|]. cbn [truthy isEmpty negb]. cbv iota.
  unfold findIndex.
  rewrite (findIndexFrom_first (fun l => String.eqb (Lead.id l) (String c i)) 0 pre old suf).
  - rewrite Z.add_0_l.
    destruct (Z.of_nat (length pre) =? -1)%Z eqn:Hz; [apply Z.eqb_eq in Hz; lia|].
    cbn [negb]. cbv iota. rewrite insert_first_split. js_run.
    unfold submittedPage. rewrite exec_saveLeads. reflexivity.
  - eapply Forall_impl; [exact Hpre|]. intros l. apply hasId_false.
  - apply hasId_true. exact Hold.
Qed.

(** The update path when no record has the id: nothing is saved. *)
Lemma handleFormSubmit_missing (e : Entropy) (p : Page) (i : string) (leads : list Lead.t) :
  formValid p = true -> trim (leadIdInput (inputs p)) = i -> i <> EmptyString ->
  persisted p leads -> Forall (fun l => Lead.id l <> i) leads ->
  exists v, handleFormSubmit e p = (Normal tt, setView v (resetPage (validatedPage p))).
Proof.
  intros Hv Hi Hne Hl Hall.
  assert (Hrender : renderLeads (resetPage (validatedPage p)) =
                    (Normal tt, setView (renderedView leads (resetPage (validatedPage p)))
                                  (resetPage (validatedPage p)))).
  { apply renderLeads_eq. eapply persisted_storage; [|exact Hl]. reflexivity. }
  eexists. rewrite <- Hrender.
  unfold handleFormSubmit. js_run. rewrite Hv. js_run.
  rewrite (persisted_validatedPage p _ Hl). js_run.
  change (inputs (validatedPage p)) with (inputs p). rewrite Hi.
  destruct i as [|c i]; [congruence|]. cbn [truthy isEmpty negb]. cbv iota.
  unfold findIndex. rewrite findIndexFrom_none.
  - cbn. js_run. reflexivity.
  - eapply Forall_impl; [exact Hall|]. intros l. apply hasId_false.
Qed.

(** ** Validation of the whole form *)

Lemma validateName_message (s : string) :
  valid (validateName s) = false -> message (validateName s) <> EmptyString.
Proof.
  unfold validateName. destruct (truthy (trim s)); simpl; [|discriminate].
  destruct (100 <? _); simpl; discriminate.
Qed.

Lemma validatePhone_message (s : string) :
  valid (validatePhone s) = false -> message (validatePhone s) <> EmptyString.
Proof.
  unfold validatePhone. destruct (truthy (trim s)); simpl; [|discriminate].
  destruct (RegExp.test _ _); simpl; discriminate.
Qed.

Lemma validateSource_message (s : string) :
  valid (validateSource s) = false -> message (validateSource s) <> EmptyString.
Proof. unfold validateSource. destruct (_ || _); simpl; discriminate. Qed.

Lemma validateStatus_message (s : string) :
  valid (validateStatus s) = false -> message (validateStatus s) <> EmptyString.
Proof. unfold validateStatus. destruct (_ || _); simpl; discriminate. Qed.

(** C7.  [validateForm] applies the four validators to the four inputs,
    writes each one's message to its error element and marks each control
    invalid exactly when its validator fails, whatever the other validators
    say; a failing validator's message is never empty; and the result is
    true exactly when all four validators pass. *)
Theorem validateForm_checks_all (p : Page) :
  let n := validateName (leadNameInput (inputs p)) in
  let ph := validatePhone (leadPhoneInput (inputs p)) in
  let so := validateSource (leadSourceSelect (inputs p)) in
  let st := validateStatus (leadStatusSelect (inputs p)) in
  exists ok p',
    validateForm p = (Normal ok, p') /\
    errorElements p' =
      {| nameError := message n; phoneError := message ph;
         sourceError := message so; statusError := message st |} /\
    invalid p' =
      {| nameInvalid := negb (valid n); phoneInvalid := negb (valid ph);
         sourceInvalid := negb (valid so); statusInvalid := negb (valid st) |} /\
    (valid n = false -> nameError (errorElements p') <> EmptyString) /\
    (valid ph = false -> phoneError (errorElements p') <> EmptyString) /\
    (valid so = false -> sourceError (errorElements p') <> EmptyString) /\
    (valid st = false -> statusError (errorElements p') <> EmptyString) /\
    (ok = true <->
     valid n = true /\ valid ph = true /\ valid so = true /\ valid st = true) /\
    inputs p' = inputs p /\ localStorage p' = localStorage p.
Proof.
  intros n ph so st. exists (formValid p), (validatedPage p).
  split; [apply validateForm_eq|].
  split; [reflexivity|]. split; [reflexivity|].
  split; [apply validateName_message|].
  split; [apply validatePhone_message|].
  split; [apply validateSource_message|].
  split; [apply validateStatus_message|].
  split; [|split; reflexivity].
  unfold formValid. fold n ph so st. rewrite !andb_true_iff. tauto.
Qed.

(** ** Deleting *)

Lemma withoutId_Forall (t : string) (leads : list Lead.t) :
  Forall (fun l => Lead.id l <> t) (withoutId t leads).
Proof.
  apply Forall_forall. intros l Hl. apply list_elem_of_In, filter_In in Hl as [_ H].
  apply negb_true_iff, String.eqb_neq in H. exact H.
Qed.

Lemma withoutId_Selects (t : string) (leads : list Lead.t) :
  Selects (fun l => Lead.id l <> t) leads (withoutId t leads).
Proof.
  apply Selects_filter. intros l. rewrite negb_true_iff. apply String.eqb_neq.
Qed.

Lemma pendingTarget_Some (p : Page) (t : string) :
  deleteTargetId p = Some t -> t <> EmptyString -> pendingTarget p = Some t.
Proof.
  intros H Hne. unfold pendingTarget. rewrite H.
  destruct t; [congruence | reflexivity].
Qed.

(** The write of a confirmed delete fits whenever the slot holds what the
    script itself wrote, within the quota. *)
Lemma fits_withoutId (t : string) (leads : list Lead.t) (s : Storage) :
  ownSlot s leads -> fits STORAGE_KEY (JSON.stringify (withoutId t leads)) s = true.
Proof.
  intros H. apply (fits_no_longer s leads _ H), stringify_sublist_length.
  eapply Selects_sublist, withoutId_Selects.
Qed.

Lemma dispatch_quiet (ev : Event) (p : Page) :
  quiet ev -> localStorage (exec (dispatch ev) p) = localStorage p.
Proof.
  destruct ev as [e| | |d|d| | |o]; cbn [quiet dispatch]; intros H; try contradiction.
  - reflexivity.
  - unfold handleSearchOrFilter. destruct (renderLeads_frame p) as [v ->]. reflexivity.
  - apply handleEditClick_storage.
  - apply handleDeleteClick_storage.
  - reflexivity.
  - destruct o; reflexivity.
Qed.

Lemma run_quiet (evs : list Event) (p : Page) :
  Forall quiet evs -> localStorage (run evs p) = localStorage p.
Proof.
  intros H. revert p. induction H as [|ev evs Hev _ IH]; intros p; [reflexivity|].
  cbn [run]. rewrite IH. apply dispatch_quiet. exact Hev.
Qed.

(** C8.  The persisted collection changes in the delete dialogue only on
    confirmation.  No run of events without a confirmation (and without a
    form submission) changes the storage: not the delete click that sets the
    pending target, not a cancel.  Cancelling clears the pending target.
    Confirming without a pending target changes nothing.  Confirming with
    the pending target [t] saves the persisted collection without the
    records whose id is [t], resets the form to add mode and clears the
    pending target; what is persisted afterwards is that collection without
    those records (always so when the slot holds what the script wrote,
    within the quota), or the collection as it was if the write is refused. *)
Theorem delete_only_on_confirmation (p : Page) :
  (forall evs, Forall quiet evs -> localStorage (run evs p) = localStorage p) /\
  (forall d, localStorage (exec (handleDeleteClick d) p) = localStorage p) /\
  (localStorage (exec cancelModal p) = localStorage p /\
   deleteTargetId (exec cancelModal p) = None) /\
  (deleteTargetId p = None -> localStorage (exec confirmDelete p) = localStorage p) /\
  (forall t leads, deleteTargetId p = Some t -> t <> EmptyString -> persisted p leads ->
     let kept := List.filter (fun l => negb (String.eqb (Lead.id l) t)) leads in
     exists p',
       confirmDelete p = (Normal tt, p') /\
       localStorage p' = localStorage (exec (saveLeads kept) p) /\
       Selects (fun l => Lead.id l <> t) leads kept /\
       persisted p'
         (if fits STORAGE_KEY (JSON.stringify kept) (localStorage p) then kept else leads) /\
       (ownSlot (localStorage p) leads -> persisted p' kept) /\
       inputs p' = emptyInputs /\ header p' = addMode /\ deleteTargetId p' = None).
Proof.
  split; [intros evs; apply run_quiet|].
  split; [intros d; apply handleDeleteClick_storage|].
  split; [split; reflexivity|].
  split.
  - intros H. unfold exec. rewrite confirmDelete_idle; [reflexivity|].
    unfold pendingTarget. rewrite H. reflexivity.
  - intros t leads Ht Hne Hl kept. subst kept. fold (withoutId t leads).
    destruct (confirmDelete_pending p t leads (pendingTarget_Some p t Ht Hne) Hl) as [v Hrun].
    exists (setView v (deletedPage t leads p)).
    assert (Hp : persisted (setView v (deletedPage t leads p))
              (if fits STORAGE_KEY (JSON.stringify (withoutId t leads)) (localStorage p)
               then withoutId t leads else leads)).
    { eapply persisted_storage; [|apply (persisted_saveLeads _ leads p Hl)]. reflexivity. }
    split; [exact Hrun|]. split; [reflexivity|]. split; [apply withoutId_Selects|].
    split; [exact Hp|]. split; [|repeat split].
    intros Hown. rewrite (fits_withoutId t leads _ Hown) in Hp. exact Hp.
Qed.

(** ** Updating *)

Lemma submittedPage_storage (saved : list Lead.t) (p : Page) :
  localStorage (submittedPage saved p) = localStorage (exec (saveLeads saved) p).
Proof. unfold submittedPage. rewrite !exec_saveLeads. reflexivity. Qed.

Lemma persisted_submittedPage (saved old : list Lead.t) (v : ListView) (p : Page) :
  persisted p old ->
  persisted (setView v (submittedPage saved p))
    (if fits STORAGE_KEY (JSON.stringify saved) (localStorage p) then saved else old).
Proof.
  intros Hl. eapply persisted_storage; [|apply (persisted_saveLeads saved old p Hl)].
  change (localStorage (setView v ?q)) with (localStorage q). apply submittedPage_storage.
Qed.

Lemma formValid_of_validateForm (p : Page) :
  (validateForm p).1 = Normal true -> formValid p = true.
Proof. rewrite validateForm_eq. cbn [fst]. congruence. Qed.

(** C4, as amended.  A submission of a valid form that carries the id [i],
    over the persisted collection [leads].  When some record has that id,
    the collection handed to [saveLeads] is [leads] with the first such
    record replaced, at its position, by the record of the form's trimmed
    fields under the same id; it is the persisted collection afterwards
    when the write fits the quota, and a write that does not fit is
    refused, which leaves [leads] persisted.  When no record has that id,
    the storage is left as it was.  In every case the handler completes
    normally and shows no error. *)
Theorem update_replaces_first_or_nothing (e : Entropy) (p : Page) (i : string)
    (leads : list Lead.t) :
  (validateForm p).1 = Normal true ->
  trim (leadIdInput (inputs p)) = i -> i <> EmptyString ->
  persisted p leads ->
  exists p',
    handleFormSubmit e p = (Normal tt, p') /\
    errorElements p' =
      {| nameError := ""; phoneError := ""; sourceError := ""; statusError := "" |} /\
    ((exists l, l ∈ leads /\ Lead.id l = i) ->
     exists pre old suf,
       leads = pre ++ old :: suf /\
       Forall (fun l => Lead.id l <> i) pre /\ Lead.id old = i /\
       let updated := pre ++ formLead i p :: suf in
       Lead.id (formLead i p) = Lead.id old /\
       localStorage p' = localStorage (exec (saveLeads updated) p) /\
       persisted p'
         (if fits STORAGE_KEY (JSON.stringify updated) (localStorage p)
          then updated else leads)) /\
    (Forall (fun l => Lead.id l <> i) leads ->
     localStorage p' = localStorage p /\ persisted p' leads).
Proof.
  intros Hv Hi Hne Hl. apply formValid_of_validateForm in Hv.
  destruct (first_split (hasId i) leads)
    as [Hnone | (pre & old & suf & Hsplit & Hpre & Hold)].
  - assert (Hall : Forall (fun l => Lead.id l <> i) leads).
    { eapply Forall_impl; [exact Hnone|]. intros x. apply hasId_false. }
    destruct (handleFormSubmit_missing e p i leads Hv Hi Hne Hl Hall) as [v Hrun].
    eexists. split; [exact Hrun|]. split; [reflexivity|]. split.
    + intros (l & Hin & Hli). rewrite Forall_forall in Hall. apply Hall in Hin. contradiction.
    + intros _. split; [reflexivity|]. eapply persisted_storage; [|exact Hl]. reflexivity.
  - assert (Hpre' : Forall (fun l => Lead.id l <> i) pre).
    { eapply Forall_impl; [exact Hpre|]. intros x. apply hasId_false. }
    apply hasId_true in Hold. subst leads.
    destruct (handleFormSubmit_found e p i pre old suf Hv Hi Hne Hl Hpre' Hold) as [v Hrun].
    eexists. split; [exact Hrun|]. split; [reflexivity|]. split.
    + intros _. exists pre, old, suf.
      split; [reflexivity|]. split; [exact Hpre'|]. split; [exact Hold|].
      intros updated. split; [symmetry; exact Hold|].
      split; [apply submittedPage_storage | apply persisted_submittedPage; exact Hl].
    + intros Hall. rewrite Forall_app, Forall_cons in Hall.
      destruct Hall as (_ & Hold' & _). contradiction.
Qed.

(** C10, as amended.  With two records under the id [i] in the persisted
    collection, [old] the first of them and [dup] a later one: a confirmed
    delete of [i] hands to [saveLeads] the collection without any record
    whose id is [i]; a valid update with id [i] hands to it the collection
    with [old] alone replaced, [dup] and every other record after [old]
    staying as they are.  What is handed over is what is persisted
    afterwards when the write fits the quota; a write that does not fit is
    refused and leaves the collection as it was.  The write of a delete is
    never refused when the slot holds what the script wrote, within the
    quota. *)
Theorem duplicates_delete_all_update_first (e : Entropy) (p : Page) (i : string)
    (pre mid suf : list Lead.t) (old dup : Lead.t) :
  let leads := pre ++ old :: mid ++ dup :: suf in
  persisted p leads ->
  Forall (fun l => Lead.id l <> i) pre -> Lead.id old = i -> Lead.id dup = i ->
  i <> EmptyString ->
  (deleteTargetId p = Some i ->
   let kept := List.filter (fun l => negb (String.eqb (Lead.id l) i)) leads in
   localStorage (exec confirmDelete p) = localStorage (exec (saveLeads kept) p) /\
   Selects (fun l => Lead.id l <> i) leads kept /\
   (old ∉ kept) /\ (dup ∉ kept) /\
   persisted (exec confirmDelete p)
     (if fits STORAGE_KEY (JSON.stringify kept) (localStorage p) then kept else leads) /\
   (ownSlot (localStorage p) leads -> persisted (exec confirmDelete p) kept)) /\
  ((validateForm p).1 = Normal true -> trim (leadIdInput (inputs p)) = i ->
   let updated := pre ++ formLead i p :: mid ++ dup :: suf in
   localStorage (exec (handleFormSubmit e) p) = localStorage (exec (saveLeads updated) p) /\
   persisted (exec (handleFormSubmit e) p)
     (if fits STORAGE_KEY (JSON.stringify updated) (localStorage p) then updated else leads)).
Proof.
  intros leads Hl Hpre Hold Hdup Hne. split.
  - intros Ht kept. subst kept. fold (withoutId i leads).
    destruct (confirmDelete_pending p i leads (pendingTarget_Some p i Ht Hne) Hl) as [v Hrun].
    unfold exec at 1 3 4. rewrite Hrun. cbn [snd].
    pose proof (withoutId_Forall i leads) as Hkept. rewrite Forall_forall in Hkept.
    split; [reflexivity|]. split; [apply withoutId_Selects|].
    split; [intros H; apply Hkept in H; contradiction|].
    split; [intros H; apply Hkept in H; contradiction|].
    assert (Hp : persisted (setView v (deletedPage i leads p))
              (if fits STORAGE_KEY (JSON.stringify (withoutId i leads)) (localStorage p)
               then withoutId i leads else leads)).
    { eapply persisted_storage; [|apply (persisted_saveLeads _ leads p Hl)]. reflexivity. }
    split; [exact Hp|].
    intros Hown. rewrite (fits_withoutId i leads _ Hown) in Hp. exact Hp.
  - intros Hv Hi updated. subst updated. apply formValid_of_validateForm in Hv.
    destruct (handleFormSubmit_found e p i pre old (mid ++ dup :: suf)
                Hv Hi Hne Hl Hpre Hold) as [v Hrun].
    unfold exec at 1 3. rewrite Hrun. cbn [snd].
    split; [apply submittedPage_storage | apply persisted_submittedPage; exact Hl].
Qed.

(** ** Identifiers *)

Lemma ids_insert_first (i : string) (p : Page) (pre suf : list Lead.t) (old : Lead.t) :
  Lead.id old = i ->
  map Lead.id (pre ++ formLead i p :: suf) = map Lead.id (pre ++ old :: suf).
Proof. intros H. rewrite !map_app. cbn [map]. rewrite H. reflexivity. Qed.

Lemma sublist_map {A B : Type} (f : A -> B) (l k : list A) :
  sublist l k -> sublist (map f l) (map f k).
Proof. induction 1; simpl; [constructor | apply sublist_skip | apply sublist_cons]; assumption. Qed.

Lemma NoDup_ids_withoutId (t : string) (leads : list Lead.t) :
  NoDup (map Lead.id leads) -> NoDup (map Lead.id (withoutId t leads)).
Proof.
  intros H. eapply sublist_NoDup; [exact H|].
  apply sublist_map. eapply Selects_sublist. apply withoutId_Selects.
Qed.

(** C9, as amended.  From a persisted collection whose ids are pairwise
    distinct, a form submission (an update by id, or an addition whose
    generated id is not yet an id of the collection) and a confirmed delete
    both leave a persisted collection whose ids are pairwise distinct. *)
Theorem ids_stay_distinct (e : Entropy) (p : Page) (leads : list Lead.t) :
  persisted p leads ->
  NoDup (map Lead.id leads) ->
  (trim (leadIdInput (inputs p)) = EmptyString -> generateId e ∉ map Lead.id leads) ->
  (exists leads', persisted (exec (handleFormSubmit e) p) leads' /\
                  NoDup (map Lead.id leads')) /\
  (exists leads', persisted (exec confirmDelete p) leads' /\
                  NoDup (map Lead.id leads')).
Proof.
  intros Hl Hnd Hfresh. split.
  - destruct (formValid p) eqn:Hv.
    + destruct (trim (leadIdInput (inputs p))) as [|c i'] eqn:Hi.
      * destruct (handleFormSubmit_add e p leads Hv Hi Hl) as [v Hrun].
        unfold exec. rewrite Hrun. cbn [snd].
        eexists. split; [apply persisted_submittedPage; exact Hl|].
        destruct (fits _ _ _); [|exact Hnd].
        rewrite map_app. cbn [map formLead Lead.id].
        apply NoDup_app. split; [exact Hnd|]. split; [|apply NoDup_singleton].
        intros x Hx Hx'. apply list_elem_of_singleton in Hx'. subst x.
        apply (Hfresh eq_refl). exact Hx.
      * set (i := String c i') in *.
        assert (Hne : i <> EmptyString) by discriminate.
        destruct (first_split (hasId i) leads)
          as [Hnone | (pre & old & suf & Hsplit & Hpre & Hold)].
        -- assert (Hall : Forall (fun l => Lead.id l <> i) leads).
           { eapply Forall_impl; [exact Hnone|]. intros x. apply hasId_false. }
           destruct (handleFormSubmit_missing e p i leads Hv Hi Hne Hl Hall) as [v Hrun].
           unfold exec. rewrite Hrun. cbn [snd].
           exists leads. split; [|exact Hnd].
           eapply persisted_storage; [|exact Hl]. reflexivity.
        -- assert (Hpre' : Forall (fun l => Lead.id l <> i) pre).
           { eapply Forall_impl; [exact Hpre|]. intros x. apply hasId_false. }
           apply hasId_true in Hold. subst leads.
           destruct (handleFormSubmit_found e p i pre old suf
                       Hv Hi Hne Hl Hpre' Hold) as [v Hrun].
           unfold exec. rewrite Hrun. cbn [snd].
           eexists. split; [apply persisted_submittedPage; exact Hl|].
           destruct (fits _ _ _); [|exact Hnd].
           rewrite (ids_insert_first i p pre suf old Hold). exact Hnd.
    + unfold exec. rewrite (handleFormSubmit_invalid e p Hv). cbn [snd].
      exists leads. split; [|exact Hnd].
      eapply persisted_storage; [|exact Hl]. reflexivity.
  - destruct (pendingTarget p) as [t|] eqn:Ht.
    + destruct (confirmDelete_pending p t leads Ht Hl) as [v Hrun].
      unfold exec. rewrite Hrun. cbn [snd].
      eexists. split.
      * eapply persisted_storage;
          [|apply (persisted_saveLeads (withoutId t leads) leads p Hl)].
        reflexivity.
      * destruct (fits _ _ _); [|exact Hnd]. apply NoDup_ids_withoutId. exact Hnd.
    + unfold exec. rewrite (confirmDelete_idle p Ht). cbn [snd].
      exists leads. split; [|exact Hnd].
      eapply persisted_storage; [|exact Hl]. reflexivity.
Qed.

(** ** Trimming *)

Lemma trimEnd_blank (s : string) :
  trimEnd s = EmptyString <-> Forall (fun c => isWhiteSpace c = true) (chars s).
Proof.
  induction s as [|c s IH]; simpl.
  - split; [constructor | reflexivity].
  - destruct (trimEnd s) as [|d t] eqn:Ht.
    + destruct (isWhiteSpace c) eqn:Hc.
      * split; [intros _; constructor; [exact Hc | apply IH; reflexivity] | reflexivity].
      * split; [discriminate | intros H; inversion H; congruence].
    + split; [discriminate|]. intros H. inversion H as [|? ? _ Hs]. apply IH in Hs. discriminate.
Qed.

Lemma trimStart_chars (s : string) :
  exists ws, chars s = ws ++ chars (trimStart s) /\ Forall (fun c => isWhiteSpace c = true) ws.
Proof.
  induction s as [|c s (ws & Heq & Hws)]; simpl.
  - exists []. split; [reflexivity | constructor].
  - destruct (isWhiteSpace c) eqn:Hc.
    + exists (c :: ws). split; [simpl; f_equal; exact Heq | constructor; assumption].
    + exists []. split; [reflexivity | constructor].
Qed.

Lemma trimEnd_idempotent (s : string) : trimEnd (trimEnd s) = trimEnd s.
Proof.
  induction s as [|c s IH]; [reflexivity|].
  simpl. destruct (trimEnd s) as [|d t] eqn:Ht.
  - destruct (isWhiteSpace c) eqn:Hc; simpl; [reflexivity | rewrite Hc; reflexivity].
  - change (trimEnd (String c (String d t))) with
      (match trimEnd (String d t) with
       | EmptyString => if isWhiteSpace c then EmptyString else String c EmptyString
       | t' => String c t'
       end).
    rewrite IH. reflexivity.
Qed.

(** What [trimEnd] leaves begins as the string began. *)
Lemma trimEnd_head (c : ascii) (s : string) :
  isWhiteSpace c = false -> exists t, trimEnd (String c s) = String c t.
Proof.
  intros Hc. simpl. destruct (trimEnd s); rewrite ?Hc; eexists; reflexivity.
Qed.

Lemma trimStart_head (s : string) :
  trimStart s = EmptyString \/
  exists c t, trimStart s = String c t /\ isWhiteSpace c = false.
Proof.
  induction s as [|c s IH]; [left; reflexivity|].
  simpl. destruct (isWhiteSpace c) eqn:Hc; [exact IH|].
  right. exists c, s. split; [reflexivity | exact Hc].
Qed.

Lemma trimStart_trim (s : string) : trimStart (trim s) = trim s.
Proof.
  unfold trim. destruct (trimStart_head s) as [-> | (c & t & -> & Hc)]; [reflexivity|].
  destruct (trimEnd_head c t Hc) as [u ->]. simpl. rewrite Hc. reflexivity.
Qed.

Lemma trim_idempotent (s : string) : trim (trim s) = trim s.
Proof.
  unfold trim at 1. rewrite trimStart_trim. unfold trim. apply trimEnd_idempotent.
Qed.

Lemma trim_blank (s : string) :
  trim s = EmptyString <-> Forall (fun c => isWhiteSpace c = true) (chars s).
Proof.
  unfold trim. rewrite trimEnd_blank.
  destruct (trimStart_chars s) as (ws & Heq & Hws). rewrite Heq, Forall_app. tauto.
Qed.

Lemma blank_or_not (l : list ascii) :
  Forall (fun c => isWhiteSpace c = true) l \/ exists c, c ∈ l /\ isWhiteSpace c = false.
Proof.
  induction l as [|c l [IH | (d & Hd & Hw)]].
  - left. constructor.
  - destruct (isWhiteSpace c) eqn:Hc.
    + left. constructor; assumption.
    + right. exists c. split; [apply list_elem_of_here | exact Hc].
  - right. exists d. split; [apply list_elem_of_further; exact Hd | exact Hw].
Qed.

Lemma trim_notBlank (s : string) : truthy (trim s) = true <-> notBlank s.
Proof.
  unfold notBlank. split.
  - intros H. destruct (blank_or_not (chars s)) as [Hall | Hex]; [|exact Hex].
    apply trim_blank in Hall. rewrite Hall in H. discriminate H.
  - intros (c & Hin & Hc). destruct (trim s) eqn:Ht; [|reflexivity].
    apply trim_blank in Ht. rewrite Forall_forall in Ht. apply Ht in Hin. congruence.
Qed.

Lemma truthy_trim (s : string) : truthy (trim s) = true -> truthy s = true.
Proof. destruct s; [discriminate | reflexivity]. Qed.

Lemma isWhiteSpace_lowerChar (c : ascii) : isWhiteSpace (lowerChar c) = isWhiteSpace c.
Proof. destruct c as [[] [] [] [] [] [] [] []]; reflexivity. Qed.

Lemma trimStart_toLowerCase (s : string) :
  trimStart (toLowerCase s) = toLowerCase (trimStart s).
Proof.
  induction s as [|c s IH]; [reflexivity|].
  simpl. rewrite isWhiteSpace_lowerChar. destruct (isWhiteSpace c); [exact IH | reflexivity].
Qed.

Lemma trimEnd_toLowerCase (s : string) :
  trimEnd (toLowerCase s) = toLowerCase (trimEnd s).
Proof.
  induction s as [|c s IH]; [reflexivity|].
  simpl. rewrite IH, isWhiteSpace_lowerChar.
  destruct (trimEnd s); simpl; [destruct (isWhiteSpace c)|]; reflexivity.
Qed.

Lemma trim_toLowerCase (s : string) : trim (toLowerCase s) = toLowerCase (trim s).
Proof. unfold trim. rewrite trimStart_toLowerCase, trimEnd_toLowerCase. reflexivity. Qed.

(** ** More on the validators *)

Lemma validators_trim_eq (s t : string) :
  trim s = trim t ->
  validateName s = validateName t /\ validatePhone s = validatePhone t /\
  validateSource s = validateSource t /\ validateStatus s = validateStatus t.
Proof.
  intros H.
  assert (Hb : forall u, negb (truthy u) || negb (truthy (trim u)) = negb (truthy (trim u))).
  { intros u. destruct (truthy (trim u)) eqn:Hu; [|apply orb_true_r].
    rewrite (truthy_trim u Hu). reflexivity. }
  unfold validateName, validatePhone, validateSource, validateStatus.
  rewrite !Hb, H. repeat split; reflexivity.
Qed.

(** The validators judge the trimmed text: two values that trim to the same
    text get the same verdict and the same message, so white space around a
    value never matters; in particular a value passes exactly when its
    trimmed form, which is what gets stored, passes. *)
Theorem validators_judge_trimmed_text (s t : string) :
  trim s = trim t ->
  validateName s = validateName t /\ validatePhone s = validatePhone t /\
  validateSource s = validateSource t /\ validateStatus s = validateStatus t.
Proof. apply validators_trim_eq. Qed.

(** A source, and a status, is accepted exactly when it holds a character
    that is not white space; nothing else about the value is checked. *)
Theorem validateSource_validateStatus_accept (s : string) :
  (valid (validateSource s) = true <-> notBlank s) /\
  (valid (validateStatus s) = true <-> notBlank s).
Proof.
  rewrite <- trim_notBlank. unfold validateSource, validateStatus.
  destruct (truthy (trim s)) eqn:Ht.
  - rewrite (truthy_trim s Ht). simpl. tauto.
  - rewrite orb_true_r. simpl. split; split; discriminate.
Qed.

(** Each validator returns the empty message exactly when it accepts, so
    after [validateForm] a field shows an error text exactly when it is
    marked invalid. *)
Theorem error_text_iff_invalid (p : Page) :
  (forall s, (message (validateName s) = EmptyString <-> valid (validateName s) = true) /\
             (message (validatePhone s) = EmptyString <-> valid (validatePhone s) = true) /\
             (message (validateSource s) = EmptyString <-> valid (validateSource s) = true) /\
             (message (validateStatus s) = EmptyString <-> valid (validateStatus s) = true)) /\
  let p' := exec validateForm p in
  (nameError (errorElements p') <> EmptyString <-> nameInvalid (invalid p') = true) /\
  (phoneError (errorElements p') <> EmptyString <-> phoneInvalid (invalid p') = true) /\
  (sourceError (errorElements p') <> EmptyString <-> sourceInvalid (invalid p') = true) /\
  (statusError (errorElements p') <> EmptyString <-> statusInvalid (invalid p') = true).
Proof.
  assert (H : forall s,
    (message (validateName s) = EmptyString <-> valid (validateName s) = true) /\
    (message (validatePhone s) = EmptyString <-> valid (validatePhone s) = true) /\
    (message (validateSource s) = EmptyString <-> valid (validateSource s) = true) /\
    (message (validateStatus s) = EmptyString <-> valid (validateStatus s) = true)).
  { intros s. unfold validateName, validatePhone, validateSource, validateStatus.
    destruct (truthy (trim s)), (truthy s), (100 <? String.length (trim s)),
      (RegExp.test phoneRegex (trim s)); simpl; repeat split; congruence. }
  split; [exact H|].
  destruct (H (leadNameInput (inputs p))) as (Hn & _).
  destruct (H (leadPhoneInput (inputs p))) as (_ & Hp & _).
  destruct (H (leadSourceSelect (inputs p))) as (_ & _ & Hs & _).
  destruct (H (leadStatusSelect (inputs p))) as (_ & _ & _ & Ht).
  unfold exec. rewrite validateForm_eq. cbv zeta.
  cbn [snd validatedPage setInvalid setErrors errorElements invalid
       nameError phoneError sourceError statusError
       nameInvalid phoneInvalid sourceInvalid statusInvalid].
  rewrite !negb_true_iff, Hn, Hp, Hs, Ht.
  repeat split; intros H0;
    first [apply not_true_is_false; exact H0 | rewrite H0; discriminate].
Qed.

(** ** More on the filters *)

(** What [getFilters] returns is trimmed, the search term and the status
    alike (the search term stays trimmed under the lower-casing), and a
    control that holds white space only gives the empty filter, which
    selects everything. *)
Theorem getFilters_trimmed (p : Page) :
  let f := getFilters p in
  trim (search f) = search f /\ trim (status f) = status f /\
  (~ notBlank (searchInput (filterInputs p)) -> search f = EmptyString) /\
  (~ notBlank (statusFilter (filterInputs p)) -> status f = EmptyString).
Proof.
  unfold getFilters. cbn [search status].
  set (a := searchInput (filterInputs p)). set (b := statusFilter (filterInputs p)).
  assert (Hblank : forall u, ~ notBlank u -> trim u = EmptyString).
  { intros u Hu. destruct (trim u) eqn:Ht; [reflexivity|].
    exfalso. apply Hu, trim_notBlank. rewrite Ht. reflexivity. }
  split; [|split; [|split]].
  - destruct (truthy a); [|reflexivity]. rewrite <- trim_toLowerCase, trim_idempotent. reflexivity.
  - destruct (truthy b); [|reflexivity]. apply trim_idempotent.
  - intros H. rewrite (Hblank a H). destruct (truthy a); reflexivity.
  - intros H. rewrite (Hblank b H). destruct (truthy b); reflexivity.
Qed.

Lemma filter_filter_impl {A : Type} (f g : A -> bool) (l : list A) :
  (forall x, g x = true -> f x = true) ->
  List.filter g (List.filter f l) = List.filter g l.
Proof.
  intros H. induction l as [|x l IH]; [reflexivity|].
  simpl. destruct (f x) eqn:Hf; simpl.
  - rewrite IH. reflexivity.
  - destruct (g x) eqn:Hg; [apply H in Hg; congruence | exact IH].
Qed.

Lemma filter_sublist {A : Type} (f : A -> bool) (l : list A) : sublist (List.filter f l) l.
Proof.
  induction l as [|x l IH]; simpl; [constructor|].
  destruct (f x); [apply sublist_skip | apply sublist_cons]; exact IH.
Qed.

Lemma occursIn_trans (a b c : string) : occursIn a b -> occursIn b c -> occursIn a c.
Proof.
  intros (p1 & s1 & ->) (p2 & s2 & ->).
  exists (p2 +:+ p1), (s1 +:+ s2). rewrite !append_assoc. reflexivity.
Qed.

Lemma occursIn_empty_inv (a : string) : occursIn a EmptyString -> a = EmptyString.
Proof.
  intros (pre & suf & H). destruct pre; [|rewrite append_cons in H; discriminate].
  rewrite append_nil_l in H. destruct a; [reflexivity | rewrite append_cons in H; discriminate].
Qed.

Lemma includes_trans (a b c : string) :
  includes c b = true -> includes b a = true -> includes c a = true.
Proof. rewrite !includes_occursIn. intros H1 H2. eapply occursIn_trans; eassumption. Qed.

(** Typing on narrows the list: when the term [s] occurs in the longer term
    [s'], every lead that [s'] selects is selected by [s] too, and filtering
    by [s'] what [s] selected gives what [s'] selects. *)
Theorem filterLeads_narrows (leads : list Lead.t) (s s' st : string) :
  includes s' s = true ->
  sublist (filterLeads leads {| search := s'; status := st |})
          (filterLeads leads {| search := s; status := st |}) /\
  filterLeads (filterLeads leads {| search := s; status := st |})
              {| search := s'; status := st |} =
  filterLeads leads {| search := s'; status := st |}.
Proof.
  intros Hocc.
  assert (H : filterLeads (filterLeads leads {| search := s; status := st |})
                {| search := s'; status := st |} =
              filterLeads leads {| search := s'; status := st |}).
  { unfold filterLeads. cbn [search status]. apply filter_filter_impl.
    intros l. rewrite !andb_true_iff, !orb_true_iff, !andb_true_iff.
    intros [Hs Hst]. split; [|exact Hst].
    destruct s' as [|c s'].
    - apply includes_occursIn, occursIn_empty_inv in Hocc. subst s. left. left. reflexivity.
    - destruct Hs as [[Hs | [Hn Hs]] | [Hn Hs]]; [discriminate Hs | |].
      + left. right. split; [exact Hn|]. eapply includes_trans; eassumption.
      + right. split; [exact Hn|]. eapply includes_trans; eassumption. }
  split; [|exact H]. rewrite <- H. apply filter_sublist.
Qed.

Lemma toLowerCase_append_fixed (a b : string) :
  toLowerCase (a +:+ b) = a +:+ b -> toLowerCase a = a /\ toLowerCase b = b.
Proof.
  induction a as [|c a IH]; [intros H; split; [reflexivity | exact H]|].
  rewrite append_cons. simpl. intros H. injection H as Hc H.
  destruct (IH H) as [Ha Hb]. split; [congruence | exact Hb].
Qed.

Lemma includes_lower_fixed (s t : string) :
  includes (toLowerCase s) t = true -> toLowerCase t = t.
Proof.
  rewrite includes_occursIn. intros (pre & suf & H).
  pose proof (toLowerCase_idempotent s) as Hi. rewrite H in Hi.
  apply toLowerCase_append_fixed in Hi as [_ Hi].
  apply toLowerCase_append_fixed in Hi as [Hi _]. exact Hi.
Qed.

(** [filterLeads] lower-cases the names and the phones but not the term: a
    term that holds a capital letter selects no lead at all. *)
Theorem filterLeads_capital_term (leads : list Lead.t) (s st : string) :
  toLowerCase s <> s -> filterLeads leads {| search := s; status := st |} = [].
Proof.
  intros Hs. unfold filterLeads. cbn [search status].
  induction leads as [|l leads IH]; [reflexivity|].
  simpl. rewrite IH.
  destruct s as [|c s]; [contradiction Hs; reflexivity|]. cbn [truthy isEmpty negb orb].
  destruct (truthy (Lead.name l) && includes (toLowerCase (Lead.name l)) (String c s)) eqn:Hn.
  { apply andb_true_iff in Hn as [_ Hn]. apply includes_lower_fixed in Hn. contradiction. }
  destruct (truthy (Lead.phone l) && includes (toLowerCase (Lead.phone l)) (String c s)) eqn:Hp.
  { apply andb_true_iff in Hp as [_ Hp]. apply includes_lower_fixed in Hp. contradiction. }
  reflexivity.
Qed.

Lemma filter_filter_andb {A : Type} (f g : A -> bool) (l : list A) :
  List.filter g (List.filter f l) = List.filter (fun x => f x && g x) l.
Proof.
  induction l as [|x l IH]; [reflexivity|].
  simpl. destruct (f x); simpl; [destruct (g x)|]; rewrite IH; reflexivity.
Qed.

(** The two filters act independently: filtering by both at once is
    filtering by the search term and then by the status, or the other way
    round. *)
Theorem filterLeads_search_then_status (leads : list Lead.t) (s st : string) :
  filterLeads leads {| search := s; status := st |} =
    filterLeads (filterLeads leads {| search := s; status := "" |})
                {| search := ""; status := st |} /\
  filterLeads leads {| search := s; status := st |} =
    filterLeads (filterLeads leads {| search := ""; status := st |})
                {| search := s; status := "" |}.
Proof.
  unfold filterLeads. cbn [search status]. rewrite !filter_filter_andb.
  split; apply filter_ext; intros l; cbn [truthy isEmpty negb orb andb];
    rewrite ?andb_true_r; [reflexivity | apply andb_comm].
Qed.

(** ** Generated ids *)

Lemma string_of_uint_digits (d : Decimal.uint) :
  Forall (fun c => isDigit c = true) (chars (NilEmpty.string_of_uint d)).
Proof. induction d; simpl; constructor; try reflexivity; assumption. Qed.

Lemma to_uint_nonnil (n : N) : N.to_uint n <> Decimal.Nil.
Proof.
  destruct n as [|q]; [discriminate|]. apply DecimalPos.Unsigned.to_uint_nonnil.
Qed.

Lemma ofNumber_digits (n : N) : Forall (fun c => isDigit c = true) (chars (ofNumber n)).
Proof.
  unfold ofNumber. pose proof (to_uint_nonnil n) as H.
  destruct (N.to_uint n) eqn:E; try contradiction; rewrite <- E;
    (replace (NilZero.string_of_uint (N.to_uint n))
       with (NilEmpty.string_of_uint (N.to_uint n)) by (rewrite E; reflexivity));
    apply string_of_uint_digits.
Qed.

Lemma ofNumber_inj (n m : N) : ofNumber n = ofNumber m -> n = m.
Proof.
  unfold ofNumber. intros H. apply DecimalN.Unsigned.to_uint_inj.
  pose proof (NilZero.usu _ (to_uint_nonnil n)) as Hn.
  pose proof (NilZero.usu _ (to_uint_nonnil m)) as Hm.
  rewrite H in Hn. congruence.
Qed.

Lemma ofNumber_truthy (n : N) : truthy (ofNumber n) = true.
Proof.
  unfold ofNumber. pose proof (to_uint_nonnil n) as H.
  destruct (N.to_uint n); try contradiction; reflexivity.
Qed.

(** Two texts that begin with digits up to an underscore are equal only if
    the digits are, and what follows the underscore is. *)
Lemma digits_underscore_inj (d1 d2 r1 r2 : string) :
  Forall (fun c => isDigit c = true) (chars d1) ->
  Forall (fun c => isDigit c = true) (chars d2) ->
  d1 +:+ "_" +:+ r1 = d2 +:+ "_" +:+ r2 -> d1 = d2 /\ r1 = r2.
Proof.
  revert d2. induction d1 as [|c d1 IH]; intros d2 H1 H2 H.
  - destruct d2 as [|c2 d2].
    + rewrite !append_nil_l in H. injection H as H. auto.
    + rewrite append_nil_l, !append_cons in H. injection H as Hc _.
      inversion H2 as [|? ? Hd _]. subst c2. discriminate Hd.
  - destruct d2 as [|c2 d2].
    + rewrite append_nil_l, !append_cons in H. injection H as Hc _.
      inversion H1 as [|? ? Hd _]. subst c. discriminate Hd.
    + rewrite !append_cons in H. injection H as Hc H.
      inversion H1; inversion H2; subst.
      destruct (IH d2) as [-> ->]; auto.
Qed.

Lemma take_length (n : nat) (s : string) : String.length (take n s) <= n.
Proof.
  revert s. induction n as [|n IH]; intros s; [simpl; lia|].
  destruct s as [|c s]; simpl; [lia|]. specialize (IH s). lia.
Qed.

Lemma chars_append (a b : string) : chars (a +:+ b) = chars a ++ chars b.
Proof.
  induction a as [|c a IH]; [reflexivity|].
  rewrite append_cons. unfold chars in *. simpl. rewrite IH. reflexivity.
Qed.

(** [generateId] returns the same id twice exactly when the clock reads the
    same millisecond and the random texts agree from the third to the ninth
    character: the clock alone tells two ids apart. *)
Theorem generateId_collision (e1 e2 : Entropy) :
  generateId e1 = generateId e2 <->
  Date_now e1 = Date_now e2 /\
  slice 2 9 (Math_random_base36 e1) = slice 2 9 (Math_random_base36 e2).
Proof.
  unfold generateId. split.
  - intros H. change ("lead_" +:+ ?x) with (String "l" (String "e" (String "a"
      (String "d" (String "_" x))))) in H.
    injection H as H.
    apply digits_underscore_inj in H as [Hd Hr]; try apply ofNumber_digits.
    split; [apply ofNumber_inj; exact Hd | exact Hr].
  - intros [-> ->]. reflexivity.
Qed.

(** A generated id is never empty (the click handlers ignore an empty id),
    it is the prefix, the digits of the clock, an underscore and at most
    seven characters of the random text. *)
Theorem generateId_shape (e : Entropy) :
  truthy (generateId e) = true /\
  exists d r,
    generateId e = "lead_" +:+ d +:+ "_" +:+ r /\
    d <> EmptyString /\ Forall (fun c => isDigit c = true) (chars d) /\
    String.length r <= 7.
Proof.
  split; [reflexivity|].
  exists (ofNumber (Date_now e)), (slice 2 9 (Math_random_base36 e)).
  split; [reflexivity|]. split; [|split].
  - pose proof (ofNumber_truthy (Date_now e)) as H. destruct (ofNumber _); [discriminate H | discriminate].
  - apply ofNumber_digits.
  - unfold slice. apply (take_length 7).
Qed.

Lemma generateId_idChars (e : Entropy) :
  base36 e -> Forall (fun c => idChar c = true) (chars (generateId e)).
Proof.
  intros H. unfold generateId. rewrite !chars_append, !Forall_app.
  split; [repeat constructor|]. split; [|split; [repeat constructor|]].
  - eapply Forall_impl; [apply ofNumber_digits|].
    intros c Hc. unfold idChar. rewrite Hc. reflexivity.
  - eapply Forall_impl; [exact H|].
    intros c Hc. unfold idChar. cbv beta in Hc. rewrite Hc. reflexivity.
Qed.

Lemma idChar_not_white (c : ascii) : idChar c = true -> isWhiteSpace c = false.
Proof. destruct c as [[] [] [] [] [] [] [] []]; cbv; congruence. Qed.

Lemma trimStart_plain (s : string) :
  Forall (fun c => isWhiteSpace c = false) (chars s) -> trimStart s = s.
Proof. destruct s as [|c s]; [reflexivity|]. intros H. inversion H as [|? ? Hc _]. simpl. rewrite Hc. reflexivity. Qed.

Lemma trimEnd_plain (s : string) :
  Forall (fun c => isWhiteSpace c = false) (chars s) -> trimEnd s = s.
Proof.
  induction s as [|c s IH]; [reflexivity|].
  intros H. inversion H as [|? ? Hc Hs]. subst. simpl. rewrite (IH Hs), Hc.
  destruct s; reflexivity.
Qed.

Lemma trim_plain (s : string) :
  Forall (fun c => isWhiteSpace c = false) (chars s) -> trim s = s.
Proof. intros H. unfold trim. rewrite (trimStart_plain s H). apply trimEnd_plain, H. Qed.

Lemma trim_generateId (e : Entropy) : base36 e -> trim (generateId e) = generateId e.
Proof.
  intros H. apply trim_plain. eapply Forall_impl; [apply generateId_idChars, H|].
  apply idChar_not_white.
Qed.

(** ** The handlers, up to the final render *)

Lemma exec_renderLeads (leads : list Lead.t) (q : Page) :
  persisted q leads -> exec renderLeads q = rendered leads q.
Proof. intros H. unfold exec. rewrite (renderLeads_eq leads q H). reflexivity. Qed.

Lemma persisted_rendered (leads shown : list Lead.t) (q : Page) :
  persisted q leads -> persisted (rendered shown q) leads.
Proof. apply persisted_storage. reflexivity. Qed.

Lemma handleFormSubmit_add_render (e : Entropy) (p : Page) (leads : list Lead.t) :
  formValid p = true -> trim (leadIdInput (inputs p)) = EmptyString -> persisted p leads ->
  handleFormSubmit e p = renderLeads (submittedPage (leads ++ [formLead (generateId e) p]) p).
Proof.
  intros Hv Hi Hl.
  unfold handleFormSubmit. js_run. rewrite Hv. js_run.
  rewrite (persisted_validatedPage p leads Hl). js_run.
  change (inputs (validatedPage p)) with (inputs p). rewrite Hi.
  cbn [truthy isEmpty negb]. js_run.
  unfold submittedPage. rewrite exec_saveLeads. reflexivity.
Qed.

Lemma handleFormSubmit_found_render (e : Entropy) (p : Page) (i : string)
    (pre : list Lead.t) (old : Lead.t) (suf : list Lead.t) :
  formValid p = true -> trim (leadIdInput (inputs p)) = i -> i <> EmptyString ->
  persisted p (pre ++ old :: suf) ->
  Forall (fun l => Lead.id l <> i) pre -> Lead.id old = i ->
  handleFormSubmit e p = renderLeads (submittedPage (pre ++ formLead i p :: suf) p).
Proof.
  intros Hv Hi Hne Hl Hpre Hold.
  unfold handleFormSubmit. js_run. rewrite Hv. js_run.
  rewrite (persisted_validatedPage p _ Hl). js_run.
  change (inputs (validatedPage p)) with (inputs p). rewrite Hi.
  destruct i as [|c i]; [congruence|]. cbn [truthy isEmpty negb]. cbv iota.
  unfold findIndex.
  rewrite (findIndexFrom_first (fun l => String.eqb (Lead.id l) (String c i)) 0 pre old suf).
  - rewrite Z.add_0_l.
    destruct (Z.of_nat (length pre) =? -1)%Z eqn:Hz; [apply Z.eqb_eq in Hz; lia|].
    cbn [negb]. cbv iota. rewrite insert_first_split. js_run.
    unfold submittedPage. rewrite exec_saveLeads. reflexivity.
  - eapply Forall_impl; [exact Hpre|]. intros l. apply hasId_false.
  - apply hasId_true. exact Hold.
Qed.

Lemma handleFormSubmit_missing_render (e : Entropy) (p : Page) (i : string)
    (leads : list Lead.t) :
  formValid p = true -> trim (leadIdInput (inputs p)) = i -> i <> EmptyString ->
  persisted p leads -> Forall (fun l => Lead.id l <> i) leads ->
  handleFormSubmit e p = renderLeads (resetPage (validatedPage p)).
Proof.
  intros Hv Hi Hne Hl Hall.
  unfold handleFormSubmit. js_run. rewrite Hv. js_run.
  rewrite (persisted_validatedPage p _ Hl). js_run.
  change (inputs (validatedPage p)) with (inputs p). rewrite Hi.
  destruct i as [|c i]; [congruence|]. cbn [truthy isEmpty negb]. cbv iota.
  unfold findIndex. rewrite findIndexFrom_none.
  - cbn. js_run. reflexivity.
  - eapply Forall_impl; [exact Hall|]. intros l. apply hasId_false.
Qed.

Lemma confirmDelete_pending_render (p : Page) (target : string) (leads : list Lead.t) :
  pendingTarget p = Some target -> persisted p leads ->
  confirmDelete p = renderLeads (deletedPage target leads p).
Proof.
  intros Ht Hl. unfold confirmDelete. js_run. rewrite Ht, Hl. js_run.
  unfold deletedPage. rewrite exec_saveLeads. reflexivity.
Qed.

Lemma persisted_submitted (saved old : list Lead.t) (p : Page) :
  persisted p old ->
  persisted (submittedPage saved p)
    (if fits STORAGE_KEY (JSON.stringify saved) (localStorage p) then saved else old).
Proof.
  intros Hl. eapply persisted_storage; [|apply (persisted_saveLeads saved old p Hl)].
  apply submittedPage_storage.
Qed.

Lemma persisted_deleted (t : string) (leads : list Lead.t) (p : Page) :
  persisted p leads ->
  persisted (deletedPage t leads p)
    (if fits STORAGE_KEY (JSON.stringify (withoutId t leads)) (localStorage p)
     then withoutId t leads else leads).
Proof.
  intros Hl. eapply persisted_storage; [|apply (persisted_saveLeads _ leads p Hl)]. reflexivity.
Qed.

Lemma exec_confirmDelete_pending (p : Page) (t : string) (leads : list Lead.t) :
  pendingTarget p = Some t -> persisted p leads ->
  exec confirmDelete p =
  rendered (if fits STORAGE_KEY (JSON.stringify (withoutId t leads)) (localStorage p)
            then withoutId t leads else leads)
    (deletedPage t leads p).
Proof.
  intros Ht Hl. unfold exec.
  rewrite (confirmDelete_pending_render p t leads Ht Hl),
    (renderLeads_eq _ _ (persisted_deleted t leads p Hl)).
  reflexivity.
Qed.

Lemma exec_handleFormSubmit_add (e : Entropy) (p : Page) (leads : list Lead.t) :
  formValid p = true -> trim (leadIdInput (inputs p)) = EmptyString -> persisted p leads ->
  exec (handleFormSubmit e) p =
  rendered (if fits STORAGE_KEY (JSON.stringify (leads ++ [formLead (generateId e) p]))
                 (localStorage p)
            then leads ++ [formLead (generateId e) p] else leads)
    (submittedPage (leads ++ [formLead (generateId e) p]) p).
Proof.
  intros Hv Hi Hl. unfold exec.
  rewrite (handleFormSubmit_add_render e p leads Hv Hi Hl),
    (renderLeads_eq _ _ (persisted_submitted _ leads p Hl)).
  reflexivity.
Qed.

(** ** Adding *)

(** A valid form with no id adds one record: the trimmed fields under the
    generated id, after the records there were, which stay as they are.  If
    the write is refused the collection stays as it was.  Either way the
    form is emptied, in add mode, and shows no error. *)
Theorem add_appends_one (e : Entropy) (p : Page) (leads : list Lead.t) :
  (validateForm p).1 = Normal true ->
  trim (leadIdInput (inputs p)) = EmptyString -> persisted p leads ->
  let added := formLead (generateId e) p in
  let p' := exec (handleFormSubmit e) p in
  persisted p'
    (if fits STORAGE_KEY (JSON.stringify (leads ++ [added])) (localStorage p)
     then leads ++ [added] else leads) /\
  inputs p' = emptyInputs /\ header p' = addMode /\
  errorElements p' = noErrors /\ invalid p' = noMarks.
Proof.
  intros Hv Hi Hl added p'. apply formValid_of_validateForm in Hv.
  pose proof (persisted_submitted (leads ++ [added]) leads p Hl) as Hp.
  subst p' added. rewrite (exec_handleFormSubmit_add e p leads Hv Hi Hl).
  split; [apply persisted_rendered; exact Hp | repeat split].
Qed.

(** A form that fails validation is neither saved nor cleared: what the user
    typed stays in the controls, the storage, the header and the list stay
    as they were, and at least one error text is shown. *)
Theorem invalid_submission_keeps_form (e : Entropy) (p : Page) :
  (validateForm p).1 = Normal false ->
  let p' := exec (handleFormSubmit e) p in
  inputs p' = inputs p /\ header p' = header p /\ localStorage p' = localStorage p /\
  view p' = view p /\ errorElements p' <> noErrors.
Proof.
  intros Hv p'. rewrite validateForm_eq in Hv. cbn [fst] in Hv.
  assert (Hf : formValid p = false) by congruence.
  subst p'. unfold exec. rewrite (handleFormSubmit_invalid e p Hf). cbn [snd].
  do 4 (split; [reflexivity|]).
  change (errorElements (validatedPage p)) with
    {| nameError := message (validateName (leadNameInput (inputs p)));
       phoneError := message (validatePhone (leadPhoneInput (inputs p)));
       sourceError := message (validateSource (leadSourceSelect (inputs p)));
       statusError := message (validateStatus (leadStatusSelect (inputs p))) |}.
  unfold noErrors. intros H. injection H as Hn Hp Hs Ht.
  unfold formValid in Hf.
  destruct (valid (validateName _)) eqn:En;
    [|exact (validateName_message _ En Hn)].
  destruct (valid (validatePhone _)) eqn:Ep;
    [|exact (validatePhone_message _ Ep Hp)].
  destruct (valid (validateSource _)) eqn:Es;
    [|exact (validateSource_message _ Es Hs)].
  destruct (valid (validateStatus _)) eqn:Et;
    [discriminate Hf | exact (validateStatus_message _ Et Ht)].
Qed.

(** ** Editing *)

Lemma find_first {A : Type} (f : A -> bool) (pre : list A) (x : A) (suf : list A) :
  Forall (fun y => f y = false) pre -> f x = true -> List.find f (pre ++ x :: suf) = Some x.
Proof.
  intros Hpre Hx. induction Hpre as [|y pre Hy _ IH]; simpl.
  - rewrite Hx. reflexivity.
  - rewrite Hy. exact IH.
Qed.

Lemma find_none {A : Type} (f : A -> bool) (l : list A) :
  Forall (fun y => f y = false) l -> List.find f l = None.
Proof. induction 1 as [|y l Hy _ IH]; simpl; [reflexivity | rewrite Hy; exact IH]. Qed.

Lemma handleEditClick_found (p : Page) (i : string) (pre suf : list Lead.t) (l : Lead.t) :
  i <> EmptyString -> persisted p (pre ++ l :: suf) ->
  Forall (fun x => Lead.id x <> i) pre -> Lead.id l = i ->
  handleEditClick (Some i) p = (Normal tt, editingPage l p).
Proof.
  intros Hne Hl Hpre Hi. unfold handleEditClick.
  destruct i as [|c i]; [congruence|]. cbn [truthy isEmpty negb]. cbv iota.
  js_run. rewrite Hl. js_run.
  rewrite (find_first (fun x => String.eqb (Lead.id x) (String c i)) pre l suf).
  - reflexivity.
  - eapply Forall_impl; [exact Hpre|]. intros x. apply hasId_false.
  - apply hasId_true. exact Hi.
Qed.

Lemma handleEditClick_missing (p : Page) (i : string) (leads : list Lead.t) :
  persisted p leads -> Forall (fun x => Lead.id x <> i) leads ->
  handleEditClick (Some i) p = (Normal tt, p).
Proof.
  intros Hl Hall. unfold handleEditClick.
  destruct (truthy i); cbn [negb]; [|reflexivity].
  js_run. rewrite Hl. js_run.
  rewrite (find_none (fun x => String.eqb (Lead.id x) i)); [reflexivity|].
  eapply Forall_impl; [exact Hall|]. intros x. apply hasId_false.
Qed.

(** A click on Edit puts the first record that has the row's id into the
    form, in edit mode and with the validation marks cleared, and touches
    nothing else; a click whose id no record has (any more), or that carries
    no id, leaves the page as it is. *)
Theorem handleEditClick_loads_first (p : Page) (i : string) (leads : list Lead.t) :
  persisted p leads ->
  (forall pre l suf,
      i <> EmptyString -> leads = pre ++ l :: suf ->
      Forall (fun x => Lead.id x <> i) pre -> Lead.id l = i ->
      let p' := exec (handleEditClick (Some i)) p in
      inputs p' = {| leadIdInput := i; leadNameInput := Lead.name l;
                     leadPhoneInput := Lead.phone l; leadSourceSelect := Lead.source l;
                     leadStatusSelect := Lead.status l |} /\
      header p' = editMode /\ errorElements p' = noErrors /\ invalid p' = noMarks /\
      localStorage p' = localStorage p /\ view p' = view p /\ modal p' = modal p /\
      filterInputs p' = filterInputs p /\ deleteTargetId p' = deleteTargetId p) /\
  (Forall (fun x => Lead.id x <> i) leads -> exec (handleEditClick (Some i)) p = p) /\
  exec (handleEditClick None) p = p /\
  exec (handleEditClick (Some EmptyString)) p = p.
Proof.
  intros Hl. split; [|split; [|split; reflexivity]].
  - intros pre l suf Hne -> Hpre Hi p'. subst p'. unfold exec.
    rewrite (handleEditClick_found p i pre suf l Hne Hl Hpre Hi). cbn [snd].
    subst i. repeat split.
  - intros Hall. unfold exec. rewrite (handleEditClick_missing p i leads Hl Hall). reflexivity.
Qed.

Lemma formValid_editingPage (l : Lead.t) (p : Page) :
  accepted l -> formValid (editingPage l p) = true.
Proof.
  intros (_ & (Hn & _) & (Hp & _) & (Hs & _) & (Ht & _)).
  unfold formValid.
  change (inputs (editingPage l p)) with
    {| leadIdInput := Lead.id l; leadNameInput := Lead.name l;
       leadPhoneInput := Lead.phone l; leadSourceSelect := Lead.source l;
       leadStatusSelect := Lead.status l |}.
  cbn [leadNameInput leadPhoneInput leadSourceSelect leadStatusSelect].
  rewrite Hn, Hp, Hs, Ht. reflexivity.
Qed.

Lemma formLead_editingPage (l : Lead.t) (p : Page) :
  accepted l -> formLead (Lead.id l) (editingPage l p) = l.
Proof.
  intros (_ & (_ & Hn) & (_ & Hp) & (_ & Hs) & (_ & Ht)).
  unfold formLead.
  change (inputs (editingPage l p)) with
    {| leadIdInput := Lead.id l; leadNameInput := Lead.name l;
       leadPhoneInput := Lead.phone l; leadSourceSelect := Lead.source l;
       leadStatusSelect := Lead.status l |}.
  cbn [leadNameInput leadPhoneInput leadSourceSelect leadStatusSelect].
  rewrite Hn, Hp, Hs, Ht. destruct l; reflexivity.
Qed.

(** Opening a record for editing and submitting the form as it was filled
    leaves the collection as it was: with every stored record as the form
    accepts it and the id trimmed, the record is replaced by itself. *)
Theorem edit_then_submit_keeps_collection (e : Entropy) (p : Page) (i : string)
    (leads : list Lead.t) :
  persisted p leads -> Forall accepted leads ->
  (exists l, l ∈ leads /\ Lead.id l = i) -> trim i = i ->
  let p' := run [EditClick (Some i); Submit e] p in
  persisted p' leads /\ inputs p' = emptyInputs /\ header p' = addMode.
Proof.
  intros Hl Hacc Hex Htrim p'.
  destruct (first_with_id i leads Hex) as (pre & l & suf & -> & Hpre & Hi).
  assert (Hal : accepted l).
  { rewrite Forall_app, Forall_cons in Hacc. tauto. }
  assert (Hne : i <> EmptyString) by (destruct Hal as [H _]; congruence).
  set (q := editingPage l p).
  assert (Hedit : exec (handleEditClick (Some i)) p = q).
  { unfold exec. rewrite (handleEditClick_found p i pre suf l Hne Hl Hpre Hi). reflexivity. }
  assert (Hq : persisted q (pre ++ l :: suf)) by (eapply persisted_storage; [|exact Hl]; reflexivity).
  assert (Hid : trim (leadIdInput (inputs q)) = i).
  { change (leadIdInput (inputs q)) with (Lead.id l). rewrite Hi. exact Htrim. }
  assert (Hform : formLead i q = l).
  { rewrite <- Hi. apply formLead_editingPage. exact Hal. }
  pose proof (persisted_submitted (pre ++ l :: suf) (pre ++ l :: suf) q Hq) as Hp.
  assert (Hp' : persisted (submittedPage (pre ++ l :: suf) q) (pre ++ l :: suf)).
  { destruct (fits _ _ _); exact Hp. }
  assert (Hsubmit : exec (handleFormSubmit e) q =
                    rendered (pre ++ l :: suf) (submittedPage (pre ++ l :: suf) q)).
  { unfold exec.
    rewrite (handleFormSubmit_found_render e q i pre l suf
               (formValid_editingPage l p Hal) Hid Hne Hq Hpre Hi), Hform.
    rewrite (renderLeads_eq _ _ Hp'). reflexivity. }
  subst p'. cbn [run dispatch]. rewrite Hedit, Hsubmit.
  split; [apply persisted_rendered; exact Hp' | split; reflexivity].
Qed.

(** ** Clicking twice *)

Lemma pendingTarget_frame (p q : Page) :
  deleteTargetId q = deleteTargetId p -> pendingTarget q = pendingTarget p.
Proof. unfold pendingTarget. intros ->. reflexivity. Qed.

Lemma formValid_emptyInputs (p : Page) : inputs p = emptyInputs -> formValid p = false.
Proof. intros H. unfold formValid. rewrite H. reflexivity. Qed.

Lemma submittedPage_frame (saved : list Lead.t) (p : Page) :
  inputs (submittedPage saved p) = emptyInputs /\ header (submittedPage saved p) = addMode /\
  filterInputs (submittedPage saved p) = filterInputs p /\
  modal (submittedPage saved p) = modal p /\
  deleteTargetId (submittedPage saved p) = deleteTargetId p /\
  view (submittedPage saved p) = view p.
Proof. unfold submittedPage. rewrite exec_saveLeads. repeat split. Qed.

Lemma deletedPage_frame (t : string) (leads : list Lead.t) (p : Page) :
  inputs (deletedPage t leads p) = emptyInputs /\ header (deletedPage t leads p) = addMode /\
  filterInputs (deletedPage t leads p) = filterInputs p /\
  modalVisible (modal (deletedPage t leads p)) = false /\
  ariaHidden (modal (deletedPage t leads p)) = "true" /\
  deleteTargetId (deletedPage t leads p) = None /\
  view (deletedPage t leads p) = view p.
Proof. unfold deletedPage. rewrite exec_saveLeads. repeat split. Qed.

(** After a valid submission over a loadable collection the page is the
    reset form over some storage, rendered. *)
Lemma handleFormSubmit_valid (e : Entropy) (p : Page) (leads : list Lead.t) :
  formValid p = true -> persisted p leads ->
  exists q shown,
    exec (handleFormSubmit e) p = rendered shown q /\ persisted q shown /\
    inputs q = emptyInputs /\ header q = addMode /\
    filterInputs q = filterInputs p /\ modal q = modal p /\
    deleteTargetId q = deleteTargetId p /\ view q = view p /\
    (localStorage q = localStorage p /\ shown = leads \/
     exists saved,
       localStorage q = localStorage (exec (saveLeads saved) p) /\
       shown = (if fits STORAGE_KEY (JSON.stringify saved) (localStorage p)
                then saved else leads) /\
       (saved = leads ++ [formLead (generateId e) p] \/
        exists pre old suf, leads = pre ++ old :: suf /\
          saved = pre ++ formLead (trim (leadIdInput (inputs p))) p :: suf /\
          trim (leadIdInput (inputs p)) <> EmptyString /\
          Lead.id old = trim (leadIdInput (inputs p)))).
Proof.
  intros Hv Hl. unfold exec.
  destruct (trim (leadIdInput (inputs p))) as [|c i'] eqn:Hi.
  - rewrite (handleFormSubmit_add_render e p leads Hv Hi Hl).
    pose proof (persisted_submitted (leads ++ [formLead (generateId e) p]) leads p Hl) as Hp.
    eexists _, _. split; [rewrite (renderLeads_eq _ _ Hp); reflexivity|].
    split; [exact Hp|]. do 6 (split; [apply submittedPage_frame|]).
    right. eexists. split; [apply submittedPage_storage|]. split; [reflexivity|].
    left. reflexivity.
  - assert (Hne : String c i' <> EmptyString) by discriminate.
    destruct (first_split (hasId (String c i')) leads)
      as [Hnone | (pre & old & suf & Hsplit & Hpre & Hold)].
    + assert (Hall : Forall (fun l => Lead.id l <> String c i') leads).
      { eapply Forall_impl; [exact Hnone|]. intros x. apply hasId_false. }
      rewrite (handleFormSubmit_missing_render e p _ leads Hv Hi Hne Hl Hall).
      assert (Hp : persisted (resetPage (validatedPage p)) leads)
        by (eapply persisted_storage; [|exact Hl]; reflexivity).
      eexists _, _. split; [rewrite (renderLeads_eq _ _ Hp); reflexivity|].
      split; [exact Hp|]. do 6 (split; [reflexivity|]).
      left. split; reflexivity.
    + assert (Hpre' : Forall (fun l => Lead.id l <> String c i') pre).
      { eapply Forall_impl; [exact Hpre|]. intros x. apply hasId_false. }
      apply hasId_true in Hold. subst leads.
      rewrite (handleFormSubmit_found_render e p _ pre old suf Hv Hi Hne Hl Hpre' Hold).
      pose proof (persisted_submitted (pre ++ formLead (String c i') p :: suf) _ p Hl) as Hp.
      eexists _, _. split; [rewrite (renderLeads_eq _ _ Hp); reflexivity|].
      split; [exact Hp|]. do 6 (split; [apply submittedPage_frame|]).
      right. eexists. split; [apply submittedPage_storage|]. split; [reflexivity|].
      right. exists pre, old, suf. repeat split; [exact Hne | exact Hold].
Qed.

(** A second click does no harm: on a page whose collection loads,
    submitting the form again right after a submission, and confirming again
    right after a confirmation, leave the storage as the first click left
    it. *)
Theorem second_click_changes_nothing (e1 e2 : Entropy) (p : Page) (leads : list Lead.t) :
  persisted p leads ->
  localStorage (run [Submit e1; Submit e2] p) = localStorage (run [Submit e1] p) /\
  localStorage (run [ModalConfirmClick; ModalConfirmClick] p) =
    localStorage (run [ModalConfirmClick] p).
Proof.
  intros Hl. cbn [run dispatch]. split.
  - destruct (formValid p) eqn:Hv.
    + destruct (handleFormSubmit_valid e1 p leads Hv Hl) as (q & shown & -> & _ & Hin & _).
      unfold exec. rewrite handleFormSubmit_invalid; [reflexivity|].
      apply formValid_emptyInputs. exact Hin.
    + unfold exec at 2 3. rewrite (handleFormSubmit_invalid e1 p Hv). cbn [snd].
      unfold exec. rewrite (handleFormSubmit_invalid e2 (validatedPage p) Hv). reflexivity.
  - destruct (pendingTarget p) as [t|] eqn:Ht.
    + rewrite (exec_confirmDelete_pending p t leads Ht Hl).
      unfold exec. rewrite confirmDelete_idle; [reflexivity|].
      unfold pendingTarget.
      change (deleteTargetId (rendered ?l ?q)) with (deleteTargetId q).
      destruct (deletedPage_frame t leads p) as (_ & _ & _ & _ & _ & -> & _). reflexivity.
    + unfold exec at 2 3. rewrite (confirmDelete_idle p Ht). cbn [snd].
      unfold exec. rewrite confirmDelete_idle; [reflexivity | exact Ht].
Qed.

(** ** Deleting an id that no record has *)

Lemma withoutId_absent (t : string) (leads : list Lead.t) :
  Forall (fun l => Lead.id l <> t) leads -> withoutId t leads = leads.
Proof.
  induction 1 as [|l leads Hl _ IH]; [reflexivity|].
  unfold withoutId in *. simpl. apply String.eqb_neq in Hl. rewrite Hl, IH. reflexivity.
Qed.

(** Confirming the delete of an id that no record has (the record went away
    in the meantime) leaves the collection as it was, and still closes the
    dialogue and resets the form. *)
Theorem confirmDelete_absent_id (p : Page) (t : string) (leads : list Lead.t) :
  deleteTargetId p = Some t -> t <> EmptyString -> persisted p leads ->
  Forall (fun l => Lead.id l <> t) leads ->
  let p' := exec confirmDelete p in
  persisted p' leads /\ deleteTargetId p' = None /\ modalVisible (modal p') = false /\
  inputs p' = emptyInputs /\ header p' = addMode.
Proof.
  intros Ht Hne Hl Hall p'. subst p'.
  rewrite (exec_confirmDelete_pending p t leads (pendingTarget_Some p t Ht Hne) Hl).
  pose proof (persisted_deleted t leads p Hl) as Hp.
  rewrite (withoutId_absent t leads Hall) in Hp.
  assert (Hp' : persisted (deletedPage t leads p) leads) by (destruct (fits _ _ _); exact Hp).
  destruct (deletedPage_frame t leads p) as (Hin & Hh & _ & Hv & _ & Hd & _).
  split; [apply persisted_rendered; exact Hp'|].
  split; [exact Hd|]. split; [exact Hv|]. split; [exact Hin | exact Hh].
Qed.

(** ** Cancelling an edit *)

(** Cancel abandons the edit for good: whatever record was in the form, the
    storage stays as it was, and the submission that follows updates no
    record.  With four values that pass validation it goes down the add
    path: the record of the trimmed values, under a generated id, is
    appended to the persisted collection when the write fits the quota, and
    the collection stays as it was when the write is refused.  With a value
    that fails validation nothing is saved. *)
Theorem cancel_then_submit_adds (e : Entropy) (p : Page) (leads : list Lead.t)
    (name phone source status : string) :
  persisted p leads ->
  let added := {| Lead.id := generateId e; Lead.name := trim name; Lead.phone := trim phone;
                  Lead.source := trim source; Lead.status := trim status |} in
  let allValid :=
    valid (validateName name) && valid (validatePhone phone) &&
    valid (validateSource source) && valid (validateStatus status) in
  localStorage (act (Fire CancelClick) p) = localStorage p /\
  persisted (session [Fire CancelClick; FillForm name phone source status; Fire (Submit e)] p)
    (if allValid && fits STORAGE_KEY (JSON.stringify (leads ++ [added])) (localStorage p)
     then leads ++ [added] else leads).
Proof.
  intros Hl added ok. split; [reflexivity|].
  cbn [session act dispatch]. unfold handleCancelEdit.
  unfold exec at 2. rewrite resetForm_eq. cbn [snd].
  set (q := setInputs _ _).
  assert (Hq : persisted q leads) by (eapply persisted_storage; [|exact Hl]; reflexivity).
  assert (Hv : formValid q = ok).
  { unfold formValid.
    change (inputs q) with
      {| leadIdInput := ""; leadNameInput := name; leadPhoneInput := phone;
         leadSourceSelect := source; leadStatusSelect := status |}.
    reflexivity. }
  destruct ok.
  - rewrite (exec_handleFormSubmit_add e q leads Hv eq_refl Hq).
    apply persisted_rendered.
    exact (persisted_submitted (leads ++ [added]) leads q Hq).
  - unfold exec. rewrite (handleFormSubmit_invalid e q Hv). cbn [snd andb].
    eapply persisted_storage; [|exact Hq]. reflexivity.
Qed.

(** ** Sessions *)

Lemma handleEditClick_cases (d : option string) (p : Page) :
  exec (handleEditClick d) p = p \/ exists l, exec (handleEditClick d) p = editingPage l p.
Proof.
  unfold handleEditClick. destruct d as [i|]; [|left; reflexivity].
  destruct (truthy i); cbn [negb]; [|left; reflexivity].
  unfold exec. js_run. rewrite getLeads_eq.
  destruct (loadOutcome (localStorage p)) as [leads|e|]; try (left; reflexivity).
  destruct (find _ _) as [l|]; [right; exists l; reflexivity | left; reflexivity].
Qed.

Lemma handleDeleteClick_cases (d : option string) (p : Page) :
  exec (handleDeleteClick d) p = p \/
  exists i, i <> EmptyString /\ exec (handleDeleteClick d) p = askingPage i p.
Proof.
  unfold handleDeleteClick. destruct d as [i|]; [|left; reflexivity].
  destruct i as [|c i]; [left; reflexivity|].
  right. exists (String c i). split; [discriminate | reflexivity].
Qed.

(** *** One action *)

Lemma renderLeads_storage (p : Page) : localStorage (exec renderLeads p) = localStorage p.
Proof. destruct (renderLeads_frame p) as [v ->]. reflexivity. Qed.

Lemma slotWrite_discipline (saved : list Lead.t) (s : Storage) :
  quota (slotWrite saved s) = quota s /\
  (forall k, k <> STORAGE_KEY -> items (slotWrite saved s) !! k = items s !! k) /\
  (usage (items s) <= quota s -> usage (items (slotWrite saved s)) <= quota s) /\
  (items (slotWrite saved s) !! STORAGE_KEY = items s !! STORAGE_KEY \/
   items (slotWrite saved s) !! STORAGE_KEY = Some (JSON.stringify saved)).
Proof.
  unfold slotWrite. destruct (fits STORAGE_KEY (JSON.stringify saved) s) eqn:Hf.
  - cbn [items quota]. split; [reflexivity|]. split; [|split].
    + intros k Hk. apply lookup_insert_ne. congruence.
    + intros _. apply Nat.leb_le. exact Hf.
    + right. apply lookup_insert_eq.
  - split; [reflexivity|]. split; [reflexivity|]. split; [tauto | left; reflexivity].
Qed.

Lemma dialogueInStep_frame (p q : Page) :
  modal q = modal p -> deleteTargetId q = deleteTargetId p ->
  dialogueInStep p -> dialogueInStep q.
Proof.
  unfold dialogueInStep. intros Hm Ht. rewrite Hm, (pendingTarget_frame p q Ht). tauto.
Qed.

Lemma dialogueInStep_closed (p : Page) :
  modalVisible (modal p) = false -> ariaHidden (modal p) = "true" ->
  pendingTarget p = None -> dialogueInStep p.
Proof.
  unfold dialogueInStep. intros -> -> ->. split; [|reflexivity].
  split; [discriminate | congruence].
Qed.

Lemma shows_rendered (leads : list Lead.t) (q : Page) : shows (rendered leads q) leads.
Proof.
  unfold shows, rendered, renderedView.
  change (getFilters (setView ?v q)) with (getFilters q).
  destruct (filterLeads leads (getFilters q)) as [|l shown]; cbn [length Nat.eqb];
    [split; reflexivity | reflexivity].
Qed.

Lemma shows_frame (p q : Page) (leads : list Lead.t) :
  filterInputs q = filterInputs p -> view q = view p -> shows p leads -> shows q leads.
Proof.
  unfold shows, getFilters. intros Hf Hv. rewrite Hf, Hv. tauto.
Qed.

Lemma accepted_formLead (i : string) (p : Page) :
  formValid p = true -> i <> EmptyString -> accepted (formLead i p).
Proof.
  intros Hv Hi. unfold formValid in Hv. rewrite !andb_true_iff in Hv.
  destruct Hv as (((Hn & Hp) & Hs) & Ht).
  unfold accepted, formLead. cbn [Lead.id Lead.name Lead.phone Lead.source Lead.status].
  rewrite !trim_idempotent.
  destruct (validators_trim_eq (trim (leadNameInput (inputs p))) (leadNameInput (inputs p))
              (trim_idempotent _)) as (-> & _).
  destruct (validators_trim_eq (trim (leadPhoneInput (inputs p))) (leadPhoneInput (inputs p))
              (trim_idempotent _)) as (_ & -> & _).
  destruct (validators_trim_eq (trim (leadSourceSelect (inputs p))) (leadSourceSelect (inputs p))
              (trim_idempotent _)) as (_ & _ & -> & _).
  destruct (validators_trim_eq (trim (leadStatusSelect (inputs p))) (leadStatusSelect (inputs p))
              (trim_idempotent _)) as (_ & _ & _ & ->).
  repeat split; assumption.
Qed.

Lemma generateId_nonempty (e : Entropy) : generateId e <> EmptyString.
Proof. discriminate. Qed.

Lemma accepted_withoutId (t : string) (leads : list Lead.t) :
  Forall accepted leads -> Forall accepted (withoutId t leads).
Proof.
  rewrite !Forall_forall. intros H l Hl.
  apply (Selects_elem_of _ _ _ (withoutId_Selects t leads)) in Hl as [Hl _]. apply H, Hl.
Qed.

(** One action on a page whose collection loads: the collection still
    loads, and accepted records stay accepted; the list shows the
    collection, or is, with the collection and the filters, as it was; the
    storage is as it was but for one write of [saveLeads] at most; and the
    dialogue stays in step with the pending delete. *)
Lemma act_typed (a : Action) (p : Page) (leads : list Lead.t) :
  persisted p leads ->
  exists leads',
    persisted (act a p) leads' /\
    (Forall accepted leads -> Forall accepted leads') /\
    (shows (act a p) leads' \/
     leads' = leads /\ filterInputs (act a p) = filterInputs p /\ view (act a p) = view p) /\
    wrote (localStorage p) (localStorage (act a p)) /\
    (dialogueInStep p -> dialogueInStep (act a p)).
Proof.
  intros Hl.
  assert (Hsame : forall q, localStorage q = localStorage p ->
            filterInputs q = filterInputs p -> view q = view p ->
            (dialogueInStep p -> dialogueInStep q) ->
            exists leads', persisted q leads' /\
              (Forall accepted leads -> Forall accepted leads') /\
              (shows q leads' \/
               leads' = leads /\ filterInputs q = filterInputs p /\ view q = view p) /\
              wrote (localStorage p) (localStorage q) /\
              (dialogueInStep p -> dialogueInStep q)).
  { intros q Hs Hf Hv Hd. exists leads. split; [eapply persisted_storage; eassumption|].
    split; [tauto|]. split; [right; auto|]. split; [left; exact Hs | exact Hd]. }
  assert (Hrender : forall q, localStorage q = localStorage p ->
            modal q = modal p -> deleteTargetId q = deleteTargetId p ->
            exists leads', persisted (exec renderLeads q) leads' /\
              (Forall accepted leads -> Forall accepted leads') /\
              (shows (exec renderLeads q) leads' \/
               leads' = leads /\ filterInputs (exec renderLeads q) = filterInputs p /\
               view (exec renderLeads q) = view p) /\
              wrote (localStorage p) (localStorage (exec renderLeads q)) /\
              (dialogueInStep p -> dialogueInStep (exec renderLeads q))).
  { intros q Hs Hm Ht.
    assert (Hq : persisted q leads) by (eapply persisted_storage; eassumption).
    exists leads. rewrite (exec_renderLeads _ _ Hq).
    split; [apply persisted_rendered, Hq|]. split; [tauto|].
    split; [left; apply shows_rendered|]. split; [left; exact Hs|].
    apply dialogueInStep_frame; assumption. }
  destruct a as [ev| | |]; cbn [act].
  - destruct ev as [e| | |d|d| | |o]; cbn [dispatch].
    + destruct (formValid p) eqn:Hv.
      * destruct (handleFormSubmit_valid e p leads Hv Hl)
          as (q & shown & -> & Hq & _ & _ & _ & Hm & Ht & _ & Hcase).
        exists shown. split; [apply persisted_rendered, Hq|].
        split; [|split; [left; apply shows_rendered|split]].
        -- intros Hacc. destruct Hcase as [[_ ->] | (saved & _ & -> & Hsaved)]; [exact Hacc|].
           destruct (fits _ _ _); [|exact Hacc].
           destruct Hsaved as [-> | (pre & old & suf & -> & -> & Hne & _)].
           ++ apply Forall_app. split; [exact Hacc|]. constructor; [|constructor].
              apply accepted_formLead; [exact Hv | apply generateId_nonempty].
           ++ rewrite Forall_app, Forall_cons in *. destruct Hacc as (Hpre & _ & Hsuf).
              split; [exact Hpre|]. split; [|exact Hsuf].
              apply accepted_formLead; assumption.
        -- destruct Hcase as [[Hs _] | (saved & Hs & _)]; [left; exact Hs|].
           right. exists saved. rewrite exec_saveLeads in Hs. exact Hs.
        -- apply dialogueInStep_frame; assumption.
      * unfold exec. rewrite (handleFormSubmit_invalid e p Hv).
        apply Hsame; try reflexivity. apply dialogueInStep_frame; reflexivity.
    + apply Hsame; try reflexivity. apply dialogueInStep_frame; reflexivity.
    + apply Hrender; reflexivity.
    + destruct (handleEditClick_cases d p) as [-> | [l ->]]; apply Hsame; try reflexivity;
        [tauto | apply dialogueInStep_frame; reflexivity].
    + destruct (handleDeleteClick_cases d p) as [-> | (i & Hi & ->)];
        apply Hsame; try reflexivity; [tauto|].
      intros _. unfold dialogueInStep, pendingTarget. cbn.
      destruct i; [congruence|]. cbn. split; [split; [discriminate | reflexivity] | reflexivity].
    + apply Hsame; try reflexivity. intros _. apply dialogueInStep_closed; reflexivity.
    + destruct (pendingTarget p) as [t|] eqn:Ht.
      * rewrite (exec_confirmDelete_pending p t leads Ht Hl).
        pose proof (persisted_deleted t leads p Hl) as Hq.
        destruct (deletedPage_frame t leads p) as (_ & _ & _ & Hv & Ha & Hd & _).
        eexists. split; [apply persisted_rendered, Hq|].
        split; [|split; [left; apply shows_rendered|split]].
        -- intros Hacc. destruct (fits _ _ _); [apply accepted_withoutId, Hacc | exact Hacc].
        -- right. exists (withoutId t leads). unfold deletedPage.
           rewrite exec_saveLeads. reflexivity.
        -- intros _. apply dialogueInStep_closed; [exact Hv | exact Ha |].
           unfold pendingTarget.
           change (deleteTargetId (rendered ?l ?q)) with (deleteTargetId q).
           rewrite Hd. reflexivity.
      * unfold exec. rewrite (confirmDelete_idle p Ht). apply Hsame; try reflexivity.
        intros _. apply dialogueInStep_closed; [reflexivity | reflexivity | exact Ht].
    + destruct o; apply Hsame; try reflexivity;
        [intros _; apply dialogueInStep_closed; reflexivity | tauto].
  - apply Hsame; try reflexivity. apply dialogueInStep_frame; reflexivity.
  - apply Hrender; reflexivity.
  - apply Hrender; reflexivity.
Qed.

(** *** Sessions *)

Lemma session_typed (acts : list Action) (p : Page) (leads : list Lead.t) :
  persisted p leads ->
  exists leads',
    persisted (session acts p) leads' /\
    (Forall accepted leads -> Forall accepted leads') /\
    (shows p leads -> shows (session acts p) leads') /\
    (dialogueInStep p -> dialogueInStep (session acts p)) /\
    quota (localStorage (session acts p)) = quota (localStorage p) /\
    (forall k, k <> STORAGE_KEY ->
       items (localStorage (session acts p)) !! k = items (localStorage p) !! k) /\
    (usage (items (localStorage p)) <= quota (localStorage p) ->
     usage (items (localStorage (session acts p))) <= quota (localStorage (session acts p))).
Proof.
  revert p leads. induction acts as [|a acts IH]; intros p leads Hl; cbn [session].
  - exists leads. split; [exact Hl|]. do 3 (split; [tauto|]).
    split; [reflexivity|]. split; [reflexivity | tauto].
  - destruct (act_typed a p leads Hl) as (l1 & H1 & Hacc1 & Hshow1 & Hw & Hd1).
    destruct (IH (act a p) l1 H1) as (l2 & H2 & Hacc2 & Hshow2 & Hd2 & Hq & Hk & Hu).
    assert (Hstep : quota (localStorage (act a p)) = quota (localStorage p) /\
      (forall k, k <> STORAGE_KEY ->
                 items (localStorage (act a p)) !! k = items (localStorage p) !! k) /\
      (usage (items (localStorage p)) <= quota (localStorage p) ->
       usage (items (localStorage (act a p))) <= quota (localStorage p))).
    { destruct Hw as [-> | [saved ->]]; [split; [reflexivity|]; split; [reflexivity | tauto]|].
      destruct (slotWrite_discipline saved (localStorage p)) as (S1 & S2 & S3 & _).
      repeat split; assumption. }
    destruct Hstep as (Sq & Sk & Su).
    exists l2. split; [exact H2|]. split; [tauto|]. split; [|split; [tauto|]].
    + intros Hs. apply Hshow2.
      destruct Hshow1 as [Hs1 | (-> & Hf & Hv)]; [exact Hs1|].
      exact (shows_frame p _ leads Hf Hv Hs).
    + split; [congruence|]. split.
      * intros k Hne. rewrite (Hk k Hne). apply Sk, Hne.
      * intros H. apply Hu. rewrite Sq. apply Su, H.
Qed.

(** Every record the script stores is one the form accepts: if the records
    of the collection have an id, pass the four validators and are trimmed,
    then so do the records of the collection after any session, which stays
    loadable. *)
Theorem stored_records_stay_accepted (acts : list Action) (p : Page) (leads : list Lead.t) :
  persisted p leads -> Forall accepted leads ->
  exists leads', persisted (session acts p) leads' /\ Forall accepted leads'.
Proof.
  intros Hl Hacc. destruct (session_typed acts p leads Hl) as (leads' & H & Ha & _).
  exists leads'. split; [exact H | apply Ha, Hacc].
Qed.

(** The list on screen follows the storage: once [renderLeads] has run (the
    script runs it when it loads), then whatever the user does, the list
    shows the persisted collection through the filters that are in the
    controls. *)
Theorem list_shows_persisted_leads (acts : list Action) (p : Page) (leads : list Lead.t) :
  persisted p leads ->
  let p' := session acts (exec renderLeads p) in
  exists leads', persisted p' leads' /\ shows p' leads'.
Proof.
  intros Hl p'. subst p'. rewrite (exec_renderLeads _ _ Hl).
  destruct (session_typed acts (rendered leads p) leads (persisted_rendered _ _ _ Hl))
    as (leads' & H & _ & Hs & _).
  exists leads'. split; [exact H | apply Hs, shows_rendered].
Qed.

(** Whatever the user does on a page whose collection loads, the script
    keeps to its slot: the quota and the items under every other key stay as
    they were, and a storage within its quota stays within it. *)
Theorem session_keeps_to_its_slot (acts : list Action) (p : Page) (leads : list Lead.t) :
  persisted p leads ->
  let s := localStorage p in
  let s' := localStorage (session acts p) in
  quota s' = quota s /\
  (forall k, k <> STORAGE_KEY -> items s' !! k = items s !! k) /\
  (usage (items s) <= quota s -> usage (items s') <= quota s').
Proof.
  intros Hl. destruct (session_typed acts p leads Hl) as (leads' & _ & _ & _ & _ & H).
  exact H.
Qed.

(** The dialogue is displayed exactly while a delete is pending, with
    [aria-hidden] set accordingly: a page in that state, whose collection
    loads, stays in it whatever the user does. *)
Theorem dialogue_open_iff_delete_pending (acts : list Action) (p : Page)
    (leads : list Lead.t) :
  persisted p leads -> dialogueInStep p -> dialogueInStep (session acts p).
Proof.
  intros Hl Hd. destruct (session_typed acts p leads Hl) as (leads' & _ & _ & _ & H & _).
  apply H, Hd.
Qed.

(** ** Rows *)

Lemma countChar_append (c : ascii) (a b : string) :
  countChar c (a +:+ b) = countChar c a + countChar c b.
Proof.
  unfold countChar. rewrite chars_append, List.filter_app, length_app. reflexivity.
Qed.

Lemma countChar_cons (c d : ascii) (s : string) :
  countChar c (String d s) = (if Ascii.eqb c d then 1 else 0) + countChar c s.
Proof. unfold countChar, chars. simpl. destruct (Ascii.eqb c d); reflexivity. Qed.

Lemma escapeChar_plain (c : ascii) : markupChar c = false -> escapeChar c = String c EmptyString.
Proof. destruct c as [[] [] [] [] [] [] [] []]; cbv; congruence. Qed.

Lemma escapeChar_markup (c : ascii) :
  markupChar c = true ->
  countChar "<" (escapeChar c) = 0 /\ countChar ">" (escapeChar c) = 0 /\
  1 < String.length (escapeChar c).
Proof. destruct c as [[] [] [] [] [] [] [] []]; cbv; intros H; try discriminate H; repeat split; lia. Qed.

Lemma countChar_escapeHtml (s : string) :
  countChar "<" (escapeHtml s) = 0 /\ countChar ">" (escapeHtml s) = 0.
Proof.
  induction s as [|c s [IH1 IH2]]; [split; reflexivity|].
  cbn [escapeHtml]. rewrite !countChar_append, IH1, IH2.
  destruct (markupChar c) eqn:Hc.
  - destruct (escapeChar_markup c Hc) as (-> & -> & _). split; reflexivity.
  - rewrite (escapeChar_plain c Hc), !countChar_cons.
    unfold markupChar in Hc. rewrite !orb_false_iff in Hc. destruct Hc as (((_ & Hlt) & Hgt) & _).
    rewrite (Ascii.eqb_sym "<"%char), (Ascii.eqb_sym ">"%char), Hlt, Hgt. split; reflexivity.
Qed.

Lemma escapeHtml_length (s : string) :
  String.length s <= String.length (escapeHtml s) /\
  (String.length (escapeHtml s) = String.length s ->
   Forall (fun c => markupChar c = false) (chars s)).
Proof.
  induction s as [|c s [IH1 IH2]]; [split; [reflexivity | constructor]|].
  cbn [escapeHtml]. rewrite append_length. cbn [String.length].
  destruct (markupChar c) eqn:Hc.
  - destruct (escapeChar_markup c Hc) as (_ & _ & Hlen). split; [lia | intros H; lia].
  - rewrite (escapeChar_plain c Hc). cbn [String.length]. split; [lia|].
    intros H. constructor; [exact Hc | apply IH2; lia].
Qed.

Lemma escapeHtml_plain (s : string) :
  Forall (fun c => markupChar c = false) (chars s) -> escapeHtml s = s.
Proof.
  induction s as [|c s IH]; [reflexivity|].
  intros H. inversion H as [|? ? Hc Hs]. subst.
  cbn [escapeHtml]. rewrite (escapeChar_plain c Hc), (IH Hs). reflexivity.
Qed.

Lemma escapeChar_cases (c : ascii) :
  (markupChar c = false /\ escapeChar c = String c EmptyString) \/
  (c = "&"%char /\ escapeChar c = "&amp;") \/
  (code c = 160 /\ escapeChar c = "&nbsp;") \/
  (c = "<"%char /\ escapeChar c = "&lt;") \/
  (c = ">"%char /\ escapeChar c = "&gt;").
Proof.
  destruct (markupChar c) eqn:Hc; [|left; split; [reflexivity | apply escapeChar_plain, Hc]].
  right. unfold escapeChar. unfold markupChar in Hc.
  destruct (ascii_dec c "&") as [->|H1]; [left; split; reflexivity|].
  destruct (code c =? 160) eqn:H2; [right; left; split; [apply Nat.eqb_eq, H2 | reflexivity]|].
  destruct (ascii_dec c "<") as [->|H3]; [right; right; left; split; reflexivity|].
  destruct (ascii_dec c ">") as [->|H4]; [right; right; right; split; reflexivity|].
  apply Ascii.eqb_neq in H1, H3, H4. rewrite H1, H3, H4 in Hc. discriminate Hc.
Qed.

Lemma code_inj (c d : ascii) : code c = code d -> c = d.
Proof.
  unfold code. intros H.
  rewrite <- (ascii_nat_embedding c), <- (ascii_nat_embedding d), H. reflexivity.
Qed.

Lemma escapeChar_inj (c d : ascii) (s t : string) :
  escapeChar c +:+ s = escapeChar d +:+ t -> c = d /\ s = t.
Proof.
  destruct (escapeChar_cases c) as [[Hc ->] | [[Hc ->] | [[Hc ->] | [[Hc ->] | [Hc ->]]]]];
  destruct (escapeChar_cases d) as [[Hd ->] | [[Hd ->] | [[Hd ->] | [[Hd ->] | [Hd ->]]]]];
  rewrite ?append_cons, ?append_nil_l; intros H;
  try (injection H as H; discriminate H);
  try discriminate H;
  try (injection H as <- <-; try (subst; discriminate); split; [|reflexivity];
       first [reflexivity | congruence | apply code_inj; congruence]).
  all: try (injection H as E _; subst; discriminate).
  all: injection H as ->; split; [first [congruence | apply code_inj; congruence] | reflexivity].
Qed.

Lemma escapeHtml_inj (s t : string) : escapeHtml s = escapeHtml t -> s = t.
Proof.
  revert t. induction s as [|c s IH]; intros t H.
  - destruct t as [|d t]; [reflexivity|]. cbn [escapeHtml] in H.
    destruct d as [[] [] [] [] [] [] [] []]; discriminate H.
  - destruct t as [|d t].
    + cbn [escapeHtml] in H. destruct c as [[] [] [] [] [] [] [] []]; discriminate H.
    + cbn [escapeHtml] in H. apply escapeChar_inj in H as [-> H]. f_equal. apply IH, H.
Qed.

(** What [escapeHtml] returns holds neither [<] nor [>], so it opens and
    closes no tag; it loses nothing (different texts give different
    results); and it returns the text as it is exactly when the text holds
    none of [&], [<], [>] and the no-break space: quotation marks are not
    escaped. *)
Theorem escapeHtml_neutralises_tags (s : string) :
  countChar "<" (escapeHtml s) = 0 /\ countChar ">" (escapeHtml s) = 0 /\
  (forall t, escapeHtml s = escapeHtml t -> s = t) /\
  (escapeHtml s = s <-> Forall (fun c => markupChar c = false) (chars s)).
Proof.
  split; [apply countChar_escapeHtml|]. split; [apply countChar_escapeHtml|].
  split; [intros t; apply escapeHtml_inj|].
  split; [|apply escapeHtml_plain].
  intros H. apply escapeHtml_length. rewrite H. reflexivity.
Qed.

Lemma countChar_removeWhiteSpace (c : ascii) (s : string) :
  isWhiteSpace c = false -> countChar c (removeWhiteSpace s) = countChar c s.
Proof.
  intros Hc. induction s as [|d s IH]; [reflexivity|].
  cbn [removeWhiteSpace]. destruct (isWhiteSpace d) eqn:Hd.
  - rewrite countChar_cons, IH. destruct (Ascii.eqb c d) eqn:E; [|reflexivity].
    apply Ascii.eqb_eq in E. congruence.
  - rewrite !countChar_cons, IH. reflexivity.
Qed.

Lemma countChar_statusClass (c : ascii) (s : string) :
  isWhiteSpace c = false -> countChar c "status-" = 0 ->
  countChar c (if truthy s then "status-" +:+ removeWhiteSpace s else "") = countChar c s.
Proof.
  intros Hc H0. destruct s as [|d s]; [reflexivity|].
  cbn [truthy isEmpty negb]. rewrite countChar_append, H0.
  apply countChar_removeWhiteSpace, Hc.
Qed.

Lemma rowHtml_tags (l : Lead.t) :
  countChar "<" (rowHtml l) = 18 + countChar "<" (Lead.status l) /\
  countChar ">" (rowHtml l) = 18 + countChar ">" (Lead.status l).
Proof.
  unfold rowHtml. cbv zeta. rewrite !countChar_append.
  rewrite !(proj1 (countChar_escapeHtml _)), !(proj2 (countChar_escapeHtml _)).
  rewrite !countChar_statusClass by reflexivity.
  split; set (n := countChar _ (Lead.status l)); clearbody n;
    repeat match goal with
      | |- context [countChar ?c ?s] =>
          let v := eval vm_compute in (countChar c s) in change (countChar c s) with v
      end; lia.
Qed.

Lemma join_empty_cons (x : string) (rest : list string) :
  JSON.join "" (x :: rest) = x +:+ JSON.join "" rest.
Proof.
  destruct rest as [|y rest]; [cbn [JSON.join]; rewrite append_nil_r; reflexivity|].
  rewrite join_cons_cons. reflexivity.
Qed.

(** The markup of the table body is that of the row template, whatever the
    id, the name, the phone and the source hold: each row has 18 tags, and
    the only [<] and [>] beyond theirs are those of the status, which the
    row puts into the [class] attribute without escaping it. *)
Theorem innerHTML_tags (rows : list Lead.t) :
  countChar "<" (innerHTML rows) =
    18 * length rows + list_sum (map (fun l => countChar "<" (Lead.status l)) rows) /\
  countChar ">" (innerHTML rows) =
    18 * length rows + list_sum (map (fun l => countChar ">" (Lead.status l)) rows).
Proof.
  unfold innerHTML. induction rows as [|l rows [IH1 IH2]]; [split; reflexivity|].
  cbn [map]. rewrite join_empty_cons, !countChar_append, IH1, IH2.
  destruct (rowHtml_tags l) as [-> ->]. cbn [length].
  change (list_sum (?a :: ?r)) with (a + list_sum r). split; lia.
Qed.

Lemma idChar_plain (c : ascii) :
  idChar c = true -> markupChar c = false /\ c <> JSON.dquote.
Proof. destruct c as [[] [] [] [] [] [] [] []]; cbv; intros H; try discriminate H; split; congruence. Qed.

(** A generated id is written into the rows as it is: when the random text
    is in base 36, the id holds digits, small letters and underscores only,
    so [escapeHtml] and [trim] leave it unchanged and it holds no quotation
    mark that would end the [data-id] attribute. *)
Theorem generateId_in_rows (e : Entropy) :
  base36 e ->
  Forall (fun c => idChar c = true) (chars (generateId e)) /\
  escapeHtml (generateId e) = generateId e /\
  trim (generateId e) = generateId e /\
  countChar JSON.dquote (generateId e) = 0.
Proof.
  intros H. pose proof (generateId_idChars e H) as Hid.
  split; [exact Hid|]. split; [|split; [apply trim_generateId, H|]].
  - apply escapeHtml_plain. eapply Forall_impl; [exact Hid|]. intros c Hc.
    apply idChar_plain, Hc.
  - unfold countChar. induction Hid as [|c l Hc _ IH]; [reflexivity|].
    cbn [List.filter]. destruct (Ascii.eqb JSON.dquote c) eqn:E; [|exact IH].
    apply Ascii.eqb_eq in E. apply idChar_plain in Hc as [_ Hc]. congruence.
Qed.

(** ** The order of the properties in the stored text *)

Lemma quote_length (s : string) : 2 <= String.length (JSON.quote s).
Proof. unfold JSON.quote. cbn [String.length]. rewrite append_length. simpl. lia. Qed.

Lemma member_length (kv : string * string) : 1 <= String.length (JSON.member kv).
Proof.
  unfold JSON.member. rewrite !append_length. pose proof (quote_length kv.1). lia.
Qed.

Lemma members_head (props : list (string * string)) (rest : string) :
  props <> [] ->
  exists t, JSON.join "," (map JSON.member props) +:+ rest = String JSON.dquote t.
Proof.
  destruct props as [|[k v] props]; [congruence|]. intros _.
  destruct props as [|q props].
  - cbn [map JSON.join]. unfold JSON.member. cbn [fst snd].
    rewrite append_assoc, quote_append. eexists. reflexivity.
  - rewrite map_cons, (map_cons _ q), join_cons_cons. unfold JSON.member at 1. cbn [fst snd].
    rewrite !append_assoc, quote_append. eexists. reflexivity.
Qed.

Lemma members_length (props : list (string * string)) :
  length props <= String.length (JSON.join "," (map JSON.member props)).
Proof.
  pose proof (join_length 1 "," (map JSON.member props)) as H.
  rewrite length_map in H. rewrite <- (Nat.mul_1_l (length props)). apply H.
  apply Forall_map, Forall_forall. intros kv _. apply member_length.
Qed.

Lemma object_props_length (props : list (string * string)) :
  2 <= String.length (JSON.object props).
Proof. unfold JSON.object. rewrite !append_length. simpl. lia. Qed.

Lemma parseLead_props (l : Lead.t) (props : list (string * string)) (rest : string) :
  props <> [] -> JSON.leadOfProps props = Some l ->
  JSON.parseLead (JSON.object props +:+ rest) = Some (l, rest).
Proof.
  intros Hne Hl. unfold JSON.parseLead, JSON.parseObject, JSON.object.
  rewrite !append_assoc.
  change (JSON.expect "{" ("{" +:+ ?t)) with (Some t).
  cbn [mbind option_bind].
  destruct (members_head props ("}" +:+ rest) Hne) as [t Ht].
  assert (Hexp : JSON.expect "}" (JSON.join "," (map JSON.member props) +:+ "}" +:+ rest) = None)
    by (rewrite Ht; reflexivity).
  rewrite Hexp.
  rewrite parseMembers_join; [| exact Hne |].
  - cbn [mbind option_bind]. rewrite Hl. reflexivity.
  - rewrite append_length. pose proof (members_length props). lia.
Qed.

Lemma leadOfProps_builtAs (l : Lead.t) (props : list (string * string)) :
  builtAs l props -> props <> [] /\ length props = 5 /\ JSON.leadOfProps props = Some l.
Proof. intros [-> | ->]; destruct l; repeat split; discriminate. Qed.

Lemma objects_head (rows : list (list (string * string))) (rest : string) :
  rows <> [] -> exists t, JSON.join "," (map JSON.object rows) +:+ rest = String "{" t.
Proof.
  destruct rows as [|r rows]; [congruence|]. intros _.
  destruct rows as [|r' rows].
  - cbn [map JSON.join]. unfold JSON.object. rewrite !append_assoc. eexists. reflexivity.
  - rewrite map_cons, (map_cons _ r'), join_cons_cons. unfold JSON.object at 1.
    rewrite !append_assoc. eexists. reflexivity.
Qed.

Lemma objects_length (rows : list (list (string * string))) :
  2 * length rows <= String.length (JSON.join "," (map JSON.object rows)).
Proof.
  pose proof (join_length 2 "," (map JSON.object rows)) as H.
  rewrite length_map in H. apply H.
  apply Forall_map, Forall_forall. intros r _. apply object_props_length.
Qed.

Lemma objects_builtAs_length (leads : list Lead.t) (rows : list (list (string * string))) :
  Forall2 builtAs leads rows ->
  7 * length rows <= String.length (JSON.join "," (map JSON.object rows)).
Proof.
  intros H. pose proof (join_length 7 "," (map JSON.object rows)) as Hj.
  rewrite length_map in Hj. apply Hj. apply Forall_map.
  clear Hj. induction H as [|l r leads rows Hlr _ IH]; constructor; [|exact IH].
  destruct (leadOfProps_builtAs l r Hlr) as (_ & H5 & _).
  unfold JSON.object. rewrite !append_length. pose proof (members_length r).
  change (String.length "{") with 1. change (String.length "}") with 1. lia.
Qed.

Lemma parseElements_rows (leads : list Lead.t) (rows : list (list (string * string)))
    (rest : string) (fuel : nat) :
  Forall2 builtAs leads rows -> rows <> [] -> length rows <= fuel ->
  JSON.parseElements fuel (JSON.join "," (map JSON.object rows) +:+ "]" +:+ rest)
  = Some (leads, rest).
Proof.
  intros H. revert fuel. induction H as [|l r leads rows Hlr Hrest IH]; intros fuel Hne Hfuel;
    [congruence|].
  destruct (leadOfProps_builtAs l r Hlr) as (Hr & _ & Hof).
  destruct fuel as [|fuel]; [simpl in Hfuel; lia|].
  destruct rows as [|r' rows].
  - inversion Hrest. subst. cbn [map JSON.join JSON.parseElements].
    rewrite (parseLead_props l r _ Hr Hof). reflexivity.
  - rewrite map_cons, (map_cons _ r'), join_cons_cons, !append_assoc.
    cbn [JSON.parseElements]. rewrite (parseLead_props l r _ Hr Hof).
    cbn [mbind option_bind].
    change (JSON.skipWs ("," +:+ ?t)) with (String ","%char t).
    change (Ascii.eqb "," ",") with true. cbv iota.
    change (JSON.object r' :: map JSON.object rows) with (map JSON.object (r' :: rows)).
    rewrite IH; [reflexivity | discriminate | simpl in *; lia].
Qed.

Lemma parse_rows (leads : list Lead.t) (rows : list (list (string * string))) :
  Forall2 builtAs leads rows -> JSON.parse (stringifyObjects rows) = Some leads.
Proof.
  intros H. unfold JSON.parse, JSON.parseArray, stringifyObjects.
  change (JSON.expect "[" ("[" +:+ ?t)) with (Some t).
  cbn [mbind option_bind].
  destruct rows as [|r rows]; [inversion H; reflexivity|].
  destruct (objects_head (r :: rows) "]") as [t Ht]; [discriminate|].
  assert (Hexp : JSON.expect "]" (JSON.join "," (map JSON.object (r :: rows)) +:+ "]") = None)
    by (rewrite Ht; reflexivity).
  rewrite Hexp.
  rewrite <- (append_nil_r "]") at 2.
  rewrite (parseElements_rows leads (r :: rows) "" _ H); [reflexivity | discriminate |].
  rewrite append_length. pose proof (objects_length (r :: rows)). lia.
Qed.

Lemma skipValue_props (props : list (string * string)) (rest : string) (fuel : nat) :
  props <> [] -> length props + 2 <= fuel ->
  JSON.skipValue fuel (JSON.object props +:+ rest) = Some rest.
Proof.
  intros Hne Hfuel. destruct fuel as [|fuel]; [lia|].
  unfold JSON.object. rewrite !append_assoc.
  change (JSON.skipValue (S fuel) ("{" +:+ ?t)) with
    (match JSON.expect "}" t with
     | Some r' => Some r'
     | None => JSON.skipMembers fuel t
     end).
  destruct (members_head props ("}" +:+ rest) Hne) as [t Ht].
  assert (Hexp : JSON.expect "}" (JSON.join "," (map JSON.member props) +:+ "}" +:+ rest) = None)
    by (rewrite Ht; reflexivity).
  rewrite Hexp. apply skipMembers_join; [exact Hne | lia].
Qed.

Lemma skipElements_rows (leads : list Lead.t) (rows : list (list (string * string)))
    (rest : string) (fuel : nat) :
  Forall2 builtAs leads rows -> rows <> [] -> length rows + 7 <= fuel ->
  JSON.skipElements fuel (JSON.join "," (map JSON.object rows) +:+ "]" +:+ rest) = Some rest.
Proof.
  intros H. revert fuel. induction H as [|l r leads rows Hlr Hrest IH]; intros fuel Hne Hfuel;
    [congruence|].
  destruct (leadOfProps_builtAs l r Hlr) as (Hr & Hlen & _).
  destruct fuel as [|fuel]; [simpl in Hfuel; lia|].
  destruct rows as [|r' rows].
  - cbn [map JSON.join JSON.skipElements].
    rewrite (skipValue_props r _ fuel Hr) by (simpl in Hfuel; lia). reflexivity.
  - rewrite map_cons, (map_cons _ r'), join_cons_cons, !append_assoc.
    cbn [JSON.skipElements]. rewrite (skipValue_props r _ fuel Hr) by (simpl in Hfuel; lia).
    cbn [mbind option_bind].
    change (JSON.skipWs ("," +:+ ?t)) with (String ","%char t).
    change (Ascii.eqb "," ",") with true. cbv iota.
    change (JSON.object r' :: map JSON.object rows) with (map JSON.object (r' :: rows)).
    apply IH; [discriminate | simpl in *; lia].
Qed.

Lemma wellFormed_rows (leads : list Lead.t) (rows : list (list (string * string))) :
  Forall2 builtAs leads rows -> JSON.wellFormed (stringifyObjects rows) = true.
Proof.
  intros H. destruct rows as [|r rows]; [reflexivity|].
  unfold JSON.wellFormed, stringifyObjects.
  set (body := JSON.join "," (map JSON.object (r :: rows)) +:+ "]").
  assert (Hlen : length (r :: rows) + 7 <= String.length ("[" +:+ body)).
  { unfold body. rewrite !append_length.
    change (String.length "[") with 1. change (String.length "]") with 1.
    pose proof (objects_builtAs_length leads (r :: rows) H) as Ho.
    cbn [length] in *. lia. }
  change (JSON.skipValue (S ?n) ("[" +:+ body)) with
    (match JSON.expect "]" body with
     | Some r' => Some r'
     | None => JSON.skipElements n body
     end).
  destruct (objects_head (r :: rows) "]") as [t Ht]; [discriminate|].
  assert (Hexp : JSON.expect "]" body = None) by (unfold body; rewrite Ht; reflexivity).
  rewrite Hexp. unfold body in *.
  rewrite <- (append_nil_r "]") at 2.
  rewrite (skipElements_rows leads (r :: rows) "" _ H); [reflexivity | discriminate | exact Hlen].
Qed.

Lemma object_builtAs_length (l : Lead.t) (props : list (string * string)) :
  builtAs l props ->
  String.length (JSON.object props) = String.length (JSON.object (JSON.leadProps l)).
Proof.
  intros [-> | ->]; [reflexivity|].
  unfold JSON.object, payloadProps, JSON.leadProps. cbn [map JSON.join].
  rewrite !append_length. lia.
Qed.

Lemma join_length_cons (sep x : string) (parts : list string) :
  parts <> [] ->
  String.length (JSON.join sep (x :: parts)) =
  String.length x + String.length sep + String.length (JSON.join sep parts).
Proof.
  destruct parts as [|y parts]; [congruence|]. intros _.
  rewrite join_cons_cons, !append_length. lia.
Qed.

Lemma stringifyObjects_length (leads : list Lead.t) (rows : list (list (string * string))) :
  Forall2 builtAs leads rows ->
  String.length (stringifyObjects rows) = String.length (JSON.stringify leads).
Proof.
  intros H. unfold stringifyObjects, JSON.stringify. rewrite !append_length. f_equal. f_equal.
  induction H as [|l r leads rows Hlr Hrest IH]; [reflexivity|].
  destruct Hrest as [|l' r' leads rows Hlr' Hrest].
  - cbn [map JSON.join]. apply object_builtAs_length, Hlr.
  - rewrite !map_cons in *.
    rewrite (join_length_cons "," (JSON.object r)) by discriminate.
    rewrite (join_length_cons "," (JSON.object (JSON.leadProps l))) by discriminate.
    rewrite IH, (object_builtAs_length l r Hlr). reflexivity.
Qed.

(** The order in which a record lists its properties does not matter.  A
    stored text whose records list them as the update path does ([id]
    first) or as the add path does ([id] last) is JSON text, loads as the
    same list of leads, and is as long as the text that lists [id] first
    throughout, so that it meets the quota exactly when that text does. *)
Theorem property_order_is_immaterial (leads : list Lead.t)
    (rows : list (list (string * string))) :
  Forall2 builtAs leads rows ->
  JSON.wellFormed (stringifyObjects rows) = true /\
  JSON.parse (stringifyObjects rows) = Some leads /\
  String.length (stringifyObjects rows) = String.length (JSON.stringify leads) /\
  (forall p, items (localStorage p) !! STORAGE_KEY = Some (stringifyObjects rows) ->
             persisted p leads).
Proof.
  intros H. split; [apply (wellFormed_rows leads rows H)|].
  split; [apply parse_rows, H|]. split; [apply stringifyObjects_length, H|].
  intros p Hslot. apply persisted_loadOutcome. unfold loadOutcome.
  rewrite Hslot, (wellFormed_rows leads rows H), (parse_rows leads rows H).
  reflexivity.
Qed.

(** ** Distinct ids through a session *)

(** One action leaves the ids as they were, or some of them, or, for a
    submission, the ids with the generated one after them. *)
Lemma act_ids (a : Action) (p : Page) (leads : list Lead.t) :
  persisted p leads ->
  exists leads',
    persisted (act a p) leads' /\
    (sublist (map Lead.id leads') (map Lead.id leads) \/
     exists e, a = Fire (Submit e) /\
               map Lead.id leads' = map Lead.id leads ++ [generateId e]).
Proof.
  intros Hl.
  assert (Hsame : forall q, localStorage q = localStorage p ->
            exists leads', persisted q leads' /\
              (sublist (map Lead.id leads') (map Lead.id leads) \/
               exists e, a = Fire (Submit e) /\
                         map Lead.id leads' = map Lead.id leads ++ [generateId e])).
  { intros q Hs. exists leads. split; [eapply persisted_storage; eassumption|].
    left. reflexivity. }
  destruct a as [ev| | |]; cbn [act].
  - destruct ev as [e| | |d|d| | |o]; cbn [dispatch].
    + destruct (formValid p) eqn:Hv.
      * destruct (handleFormSubmit_valid e p leads Hv Hl)
          as (q & shown & -> & Hq & _ & _ & _ & _ & _ & _ & Hcase).
        exists shown. split; [apply persisted_rendered, Hq|].
        destruct Hcase as [[_ ->] | (saved & _ & -> & Hsaved)]; [left; reflexivity|].
        destruct (fits _ _ _); [|left; reflexivity].
        destruct Hsaved as [-> | (pre & old & suf & -> & -> & _ & Hold)].
        -- right. exists e. split; [reflexivity|]. rewrite map_app. reflexivity.
        -- left. rewrite (ids_insert_first _ p pre suf old Hold). reflexivity.
      * apply Hsame. unfold exec. rewrite (handleFormSubmit_invalid e p Hv). reflexivity.
    + apply Hsame. reflexivity.
    + apply Hsame, renderLeads_storage.
    + apply Hsame, handleEditClick_storage.
    + apply Hsame, handleDeleteClick_storage.
    + apply Hsame. reflexivity.
    + destruct (pendingTarget p) as [t|] eqn:Ht.
      * rewrite (exec_confirmDelete_pending p t leads Ht Hl).
        eexists. split; [apply persisted_rendered, (persisted_deleted t leads p Hl)|].
        left. destruct (fits _ _ _); [|reflexivity].
        apply sublist_map. eapply Selects_sublist, withoutId_Selects.
      * apply Hsame. unfold exec. rewrite (confirmDelete_idle p Ht). reflexivity.
    + apply Hsame. destruct o; reflexivity.
  - apply Hsame. reflexivity.
  - apply Hsame. unfold handleSearchOrFilter. rewrite renderLeads_storage. reflexivity.
  - apply Hsame. unfold handleSearchOrFilter. rewrite renderLeads_storage. reflexivity.
Qed.

Lemma generatedIds_cons (a : Action) (acts : list Action) :
  generatedIds (a :: acts) = generatedIds acts \/
  exists e, a = Fire (Submit e) /\ generatedIds (a :: acts) = generateId e :: generatedIds acts.
Proof.
  destruct a as [[e| | | | | | |]| | |]; try (left; reflexivity).
  right. exists e. split; reflexivity.
Qed.

Lemma session_ids (acts : list Action) (p : Page) (leads : list Lead.t) :
  persisted p leads -> NoDup (map Lead.id leads ++ generatedIds acts) ->
  exists leads', persisted (session acts p) leads' /\ NoDup (map Lead.id leads').
Proof.
  revert p leads. induction acts as [|a acts IH]; intros p leads Hl Hnd; cbn [session].
  - exists leads. split; [exact Hl|]. cbn [generatedIds] in Hnd.
    rewrite app_nil_r in Hnd. exact Hnd.
  - destruct (act_ids a p leads Hl) as (l1 & H1 & Hids).
    apply (IH (act a p) l1 H1).
    destruct Hids as [Hsub | (e & -> & Heq)].
    + eapply sublist_NoDup; [exact Hnd|].
      apply sublist_app; [exact Hsub|].
      destruct (generatedIds_cons a acts) as [-> | (e & _ & ->)];
        [reflexivity | apply sublist_cons; reflexivity].
    + rewrite Heq, <- app_assoc. exact Hnd.
Qed.

(** The ids stay distinct through a whole session, whatever the user does,
    as long as the ids that [generateId] has for its submissions are
    distinct from each other and from the ids stored at the start. *)
Theorem session_ids_stay_distinct (acts : list Action) (p : Page) (leads : list Lead.t) :
  persisted p leads -> NoDup (map Lead.id leads ++ generatedIds acts) ->
  exists leads', persisted (session acts p) leads' /\ NoDup (map Lead.id leads').
Proof. apply session_ids. Qed.

(** ** The properties at concrete pages *)

Example generateId_someEntropy : generateId someEntropy = "lead_1700000000000_4fzyo82".
Proof. reflexivity. Qed.

Example stringify_jo :
  JSON.parse (JSON.stringify [jo]) = Some [jo] /\
  String.length (JSON.stringify [jo]) = 82.
Proof. split; reflexivity. Qed.

Lemma persisted_pageWith (leads : list Lead.t) :
  fits STORAGE_KEY (JSON.stringify leads) (emptyStorage 2000) = true ->
  persisted (pageWith leads) leads.
Proof.
  intros H. unfold pageWith.
  pose proof (persisted_saveLeads leads [] (freshPage (emptyStorage 2000))) as Hp.
  change (localStorage (freshPage (emptyStorage 2000))) with (emptyStorage 2000) in Hp.
  rewrite H in Hp. apply Hp. reflexivity.
Qed.


(** C5: with room for 64 code units only, the write of [jo] (82 code units
    and the key) is refused and dropped, and loading returns what was there
    before, here nothing. *)
Lemma getLeads_saveLeads_counterexample :
  getLeads (exec (saveLeads [jo]) (freshPage (emptyStorage 64))) =
  (Normal [], freshPage (emptyStorage 64)) /\
  getLeads (exec (saveLeads [jo]) (freshPage (emptyStorage 64))) <>
  (Normal [jo], exec (saveLeads [jo]) (freshPage (emptyStorage 64))).
Proof. split; [vm_compute; reflexivity | vm_compute; discriminate]. Qed.

(** C5 as amended, at a concrete input: two leads saved where there is room. *)
Lemma getLeads_saveLeads_witness :
  fits STORAGE_KEY (JSON.stringify [jo; amy]) (localStorage (freshPage (emptyStorage 2000))) = true /\
  getLeads (pageWith [jo; amy]) = (Normal [jo; amy], pageWith [jo; amy]).
Proof.
  split; [vm_compute; reflexivity|].
  apply (getLeads_saveLeads [jo; amy] (freshPage (emptyStorage 2000))).
  vm_compute; reflexivity.
Defined.


(** A stored record with a sixth property is outside the typed model: the
    script keeps the property and writes it back, so the text it saves is
    longer than the text of the five fields. *)
Example sixth_property :
  let text := stringifyObjects [JSON.leadProps jo ++ [("note", "call back")]] in
  let p := freshPage {| items := {[ STORAGE_KEY := text ]}; quota := 2000 |} in
  JSON.wellFormed text = true /\ JSON.parse text = None /\ getLeads p = (Untyped, p).
Proof. cbv zeta. repeat split; vm_compute; reflexivity. Qed.

(** C4: a storage that the text of the collection fills to its quota.  The
    form is valid and carries the id ["x"], a record with that id is in the
    collection, and the submission shows no error; but the longer name makes
    the text longer, the write is refused, and the persisted collection is
    the one from before, not the one with the record replaced. *)
Lemma update_replaces_first_or_nothing_counterexample :
  (validateForm fullEditPage).1 = Normal true /\
  trim (leadIdInput (inputs fullEditPage)) = "x" /\
  ownSlot (localStorage fullEditPage) [amy; jo] /\
  persisted fullEditPage [amy; jo] /\
  Lead.id jo = "x" /\
  exists p',
    handleFormSubmit someEntropy fullEditPage = (Normal tt, p') /\
    errorElements p' = noErrors /\
    localStorage p' = localStorage fullEditPage /\
    persisted p' [amy; jo] /\
    ~ persisted p' [amy; formLead "x" fullEditPage].
Proof.
  split; [vm_compute; reflexivity|]. split; [reflexivity|].
  split; [split; [apply Nat.leb_le; vm_compute; reflexivity | vm_compute; reflexivity]|].
  split; [vm_compute; reflexivity|]. split; [reflexivity|].
  eexists. split; [vm_compute; reflexivity|].
  split; [reflexivity|]. split; [vm_compute; reflexivity|].
  split; [vm_compute; reflexivity | vm_compute; discriminate].
Qed.

(** C4 as amended, at a concrete input: the record ["x"] gets a new phone
    number. *)
Lemma update_replaces_first_or_nothing_witness :
  (validateForm editPage).1 = Normal true /\
  trim (leadIdInput (inputs editPage)) = "x" /\
  "x" <> EmptyString /\
  persisted editPage [amy; jo] /\
  persisted (exec (handleFormSubmit someEntropy) editPage)
    [amy;
     {| Lead.id := "x"; Lead.name := "Jo Smith"; Lead.phone := "555-0000000";
        Lead.source := "web"; Lead.status := "new" |}].
Proof.
  assert (Hv : (validateForm editPage).1 = Normal true) by (vm_compute; reflexivity).
  assert (Hi : trim (leadIdInput (inputs editPage)) = "x") by reflexivity.
  assert (Hne : "x" <> EmptyString) by discriminate.
  assert (Hl : persisted editPage [amy; jo]).
  { apply (persisted_storage _ (pageWith [amy; jo])); [reflexivity|].
    apply persisted_pageWith. vm_compute; reflexivity. }
  split; [exact Hv|]. split; [exact Hi|]. split; [exact Hne|]. split; [exact Hl|].
  destruct (update_replaces_first_or_nothing someEntropy editPage "x" [amy; jo] Hv Hi Hne Hl)
    as (p' & Hrun & _ & Hfound & _).
  unfold exec. rewrite Hrun. cbn [snd].
  destruct Hfound as (pre & old & suf & Hsplit & Hpre & Hold & _ & _ & Hsaved).
  { exists jo. split; [|reflexivity]. apply list_elem_of_In. simpl. auto. }
  destruct pre as [|a pre].
  { injection Hsplit as <- _. discriminate Hold. }
  injection Hsplit as <- Hsplit.
  destruct pre as [|b pre].
  - injection Hsplit as <- <-.
    replace (fits STORAGE_KEY (JSON.stringify ([amy] ++ formLead "x" editPage :: []))
               (localStorage editPage)) with true in Hsaved by (vm_compute; reflexivity).
    exact Hsaved.
  - injection Hsplit as _ Hsplit. destruct pre; discriminate Hsplit.
Defined.

(** C9: a collision of the generated id with a stored one. *)
Lemma ids_stay_distinct_counterexample :
  persisted collidingPage [collidingLead] /\
  NoDup (map Lead.id [collidingLead]) /\
  exists added,
    Lead.id added = Lead.id collidingLead /\
    persisted (exec (handleFormSubmit someEntropy) collidingPage) [collidingLead; added] /\
    ~ NoDup (map Lead.id [collidingLead; added]).
Proof.
  split; [vm_compute; reflexivity|]. split; [apply NoDup_singleton|].
  exists {| Lead.id := generateId someEntropy; Lead.name := "Amy Wong";
            Lead.phone := "(555) 765-4321"; Lead.source := "referral";
            Lead.status := "lost" |}.
  split; [reflexivity|]. split; [vm_compute; reflexivity|].
  intros H. apply NoDup_cons in H as [H _]. apply H. apply list_elem_of_In. simpl. auto.
Qed.

(** C9 as amended, at a concrete input: a lead added over a collection of
    one, under an id that is new. *)
Lemma ids_stay_distinct_witness :
  persisted addPage [jo] /\
  NoDup (map Lead.id [jo]) /\
  (trim (leadIdInput (inputs addPage)) = EmptyString ->
   generateId someEntropy ∉ map Lead.id [jo]) /\
  (exists leads', persisted (exec (handleFormSubmit someEntropy) addPage) leads' /\
                  NoDup (map Lead.id leads')) /\
  (exists leads', persisted (exec confirmDelete addPage) leads' /\
                  NoDup (map Lead.id leads')).
Proof.
  assert (Hl : persisted addPage [jo]).
  { apply (persisted_storage _ (pageWith [jo])); [reflexivity|].
    apply persisted_pageWith. vm_compute; reflexivity. }
  assert (Hnd : NoDup (map Lead.id [jo])) by apply NoDup_singleton.
  assert (Hfresh : trim (leadIdInput (inputs addPage)) = EmptyString ->
                   generateId someEntropy ∉ map Lead.id [jo]).
  { intros _ H. apply list_elem_of_singleton in H. discriminate H. }
  split; [exact Hl|]. split; [exact Hnd|]. split; [exact Hfresh|].
  exact (ids_stay_distinct someEntropy addPage [jo] Hl Hnd Hfresh).
Defined.

(** C10: two records under the id ["x"] in a storage that the text of the
    collection fills to its quota.  A valid update with the id ["x"] and a
    longer name is refused its write: the first record under ["x"] is not
    replaced, the persisted collection is the one from before. *)
Lemma duplicates_delete_all_update_first_counterexample :
  (validateForm fullDuplicatePage).1 = Normal true /\
  trim (leadIdInput (inputs fullDuplicatePage)) = "x" /\
  ownSlot (localStorage fullDuplicatePage) [jo; amy; jo2] /\
  persisted fullDuplicatePage [jo; amy; jo2] /\
  Lead.id jo = "x" /\ Lead.id jo2 = "x" /\
  exists p',
    handleFormSubmit someEntropy fullDuplicatePage = (Normal tt, p') /\
    persisted p' [jo; amy; jo2] /\
    ~ persisted p' [formLead "x" fullDuplicatePage; amy; jo2].
Proof.
  split; [vm_compute; reflexivity|]. split; [reflexivity|].
  split; [split; [apply Nat.leb_le; vm_compute; reflexivity | vm_compute; reflexivity]|].
  split; [vm_compute; reflexivity|]. split; [reflexivity|]. split; [reflexivity|].
  eexists. split; [vm_compute; reflexivity|].
  split; [vm_compute; reflexivity | vm_compute; discriminate].
Qed.

(** C10 as amended, at a collection with two records under the id ["x"]. *)
Lemma duplicates_delete_all_update_first_witness :
  persisted duplicatePage ([] ++ jo :: [amy] ++ jo2 :: []) /\
  Forall (fun l => Lead.id l <> "x") [] /\ Lead.id jo = "x" /\ Lead.id jo2 = "x" /\
  "x" <> EmptyString /\ deleteTargetId duplicatePage = Some "x" /\
  (validateForm duplicatePage).1 = Normal true /\
  trim (leadIdInput (inputs duplicatePage)) = "x" /\
  persisted (exec confirmDelete duplicatePage) [amy] /\
  persisted (exec (handleFormSubmit someEntropy) duplicatePage)
    [formLead "x" duplicatePage; amy; jo2].
Proof.
  assert (Hl : persisted duplicatePage ([] ++ jo :: [amy] ++ jo2 :: [])).
  { apply (persisted_storage _ (pageWith [jo; amy; jo2])); [reflexivity|].
    apply persisted_pageWith. vm_compute; reflexivity. }
  assert (Hne : "x" <> EmptyString) by discriminate.
  assert (Hv : (validateForm duplicatePage).1 = Normal true) by (vm_compute; reflexivity).
  destruct (duplicates_delete_all_update_first someEntropy duplicatePage "x"
              [] [amy] [] jo jo2 Hl (List.Forall_nil _) eq_refl eq_refl Hne) as [Hdel Hupd].
  destruct (Hdel eq_refl) as (_ & _ & _ & _ & Hkept & _).
  destruct (Hupd Hv eq_refl) as (_ & Hsaved).
  split; [exact Hl|]. split; [constructor|]. split; [reflexivity|]. split; [reflexivity|].
  split; [exact Hne|]. split; [reflexivity|]. split; [exact Hv|]. split; [reflexivity|].
  split.
  - replace (fits STORAGE_KEY _ (localStorage duplicatePage)) with true in Hkept
      by (vm_compute; reflexivity).
    exact Hkept.
  - replace (fits STORAGE_KEY _ (localStorage duplicatePage)) with true in Hsaved
      by (vm_compute; reflexivity).
    exact Hsaved.
Defined.

(** C8, at a concrete page: the click on Delete changes nothing in the
    storage, the confirmation removes both records under ["x"]. *)
Example delete_dialogue :
  localStorage (run [DeleteClick (Some "x"); ModalCancelClick; DeleteClick (Some "x")]
                  (pageWith [jo; amy; jo2])) = localStorage (pageWith [jo; amy; jo2]) /\
  persisted (run [DeleteClick (Some "x"); ModalConfirmClick] (pageWith [jo; amy; jo2])) [amy].
Proof. split; vm_compute; reflexivity. Qed.

(** Adding a lead to an empty collection: one record under the generated id,
    which a search for "jo" shows and a status filter "lost" hides. *)
Example add_scenario :
  let p := filled "" "Jo Smith" "555-1234567" "web" "new" (pageWith []) in
  let added := {| Lead.id := "lead_1700000000000_4fzyo82"; Lead.name := "Jo Smith";
                  Lead.phone := "555-1234567"; Lead.source := "web"; Lead.status := "new" |} in
  persisted (exec (handleFormSubmit someEntropy) p) [added] /\
  filterLeads [added] {| search := "jo"; status := "" |} = [added] /\
  filterLeads [added] {| search := ""; status := "lost" |} = [].
Proof.
  intros p added. split; [vm_compute; reflexivity|]. split; vm_compute; reflexivity.
Qed.

(** ** The further properties at concrete inputs *)

Lemma persisted_on (p : Page) (leads : list Lead.t) :
  localStorage p = localStorage (pageWith leads) ->
  fits STORAGE_KEY (JSON.stringify leads) (emptyStorage 2000) = true ->
  persisted p leads.
Proof.
  intros Hs Hf. apply (persisted_storage _ (pageWith leads)); [exact Hs|].
  apply persisted_pageWith, Hf.
Qed.

Lemma accepted_jo_amy : Forall accepted [jo; amy].
Proof.
  repeat constructor; try reflexivity; vm_compute; discriminate.
Qed.

(** Padding around a name changes no verdict. *)
Lemma validators_judge_trimmed_text_witness :
  trim "  Jo Smith " = trim "Jo Smith" /\
  validateName "  Jo Smith " = validateName "Jo Smith" /\
  validatePhone "  Jo Smith " = validatePhone "Jo Smith" /\
  validateSource "  Jo Smith " = validateSource "Jo Smith" /\
  validateStatus "  Jo Smith " = validateStatus "Jo Smith".
Proof.
  split; [reflexivity|].
  apply (validators_judge_trimmed_text "  Jo Smith " "Jo Smith"). reflexivity.
Defined.

(** From the term "jo" to the term "jo s". *)
Lemma filterLeads_narrows_witness :
  includes "jo s" "jo" = true /\
  sublist (filterLeads [jo; amy; jo2] {| search := "jo s"; status := "" |})
          (filterLeads [jo; amy; jo2] {| search := "jo"; status := "" |}) /\
  filterLeads (filterLeads [jo; amy; jo2] {| search := "jo"; status := "" |})
              {| search := "jo s"; status := "" |} =
  filterLeads [jo; amy; jo2] {| search := "jo s"; status := "" |}.
Proof.
  split; [reflexivity|].
  apply (filterLeads_narrows [jo; amy; jo2] "jo" "jo s" ""). reflexivity.
Defined.

(** The term "Jo", with its capital, finds neither Jo Smith nor Joanna. *)
Lemma filterLeads_capital_term_witness :
  toLowerCase "Jo" <> "Jo" /\
  filterLeads [jo; amy; jo2] {| search := "Jo"; status := "" |} = [].
Proof.
  assert (H : toLowerCase "Jo" <> "Jo") by (vm_compute; discriminate).
  split; [exact H|]. apply (filterLeads_capital_term [jo; amy; jo2] "Jo" "" H).
Defined.

(** A lead added over a collection of one. *)
Lemma add_appends_one_witness :
  (validateForm addPage).1 = Normal true /\
  trim (leadIdInput (inputs addPage)) = EmptyString /\
  persisted addPage [jo] /\
  persisted (exec (handleFormSubmit someEntropy) addPage)
    [jo; formLead (generateId someEntropy) addPage] /\
  inputs (exec (handleFormSubmit someEntropy) addPage) = emptyInputs.
Proof.
  assert (Hv : (validateForm addPage).1 = Normal true) by (vm_compute; reflexivity).
  assert (Hi : trim (leadIdInput (inputs addPage)) = EmptyString) by reflexivity.
  assert (Hl : persisted addPage [jo])
    by (apply persisted_on; [reflexivity | vm_compute; reflexivity]).
  pose proof (add_appends_one someEntropy addPage [jo] Hv Hi Hl) as H. cbv zeta in H.
  destruct H as (Hp & Hin & _).
  match type of Hp with
  | context [fits ?k ?v ?s] =>
      assert (Hf : fits k v s = true) by (vm_compute; reflexivity); rewrite Hf in Hp
  end.
  split; [exact Hv|]. split; [exact Hi|]. split; [exact Hl|]. split; [exact Hp | exact Hin].
Defined.

(** A form with a name but no phone, source or status. *)
Lemma invalid_submission_keeps_form_witness :
  let p := filled "" "Jo Smith" "" "" "" (pageWith [amy]) in
  (validateForm p).1 = Normal false /\
  inputs (exec (handleFormSubmit someEntropy) p) = inputs p /\
  localStorage (exec (handleFormSubmit someEntropy) p) = localStorage p /\
  errorElements (exec (handleFormSubmit someEntropy) p) <> noErrors.
Proof.
  intros p.
  assert (Hv : (validateForm p).1 = Normal false) by (vm_compute; reflexivity).
  pose proof (invalid_submission_keeps_form someEntropy p Hv) as H. cbv zeta in H.
  destruct H as (Hin & _ & Hs & _ & He).
  split; [exact Hv|]. split; [exact Hin|]. split; [exact Hs | exact He].
Defined.

(** A click on Edit in the first row of three, two of them under ["x"]. *)
Lemma handleEditClick_loads_first_witness :
  persisted (pageWith [jo; amy; jo2]) [jo; amy; jo2] /\
  inputs (exec (handleEditClick (Some "x")) (pageWith [jo; amy; jo2])) =
    {| leadIdInput := "x"; leadNameInput := "Jo Smith"; leadPhoneInput := "555-1234567";
       leadSourceSelect := "web"; leadStatusSelect := "new" |} /\
  header (exec (handleEditClick (Some "x")) (pageWith [jo; amy; jo2])) = editMode.
Proof.
  assert (Hl : persisted (pageWith [jo; amy; jo2]) [jo; amy; jo2])
    by (apply persisted_pageWith; vm_compute; reflexivity).
  destruct (handleEditClick_loads_first (pageWith [jo; amy; jo2]) "x" [jo; amy; jo2] Hl)
    as (Hfound & _).
  assert (Hne : "x" <> EmptyString) by discriminate.
  pose proof (Hfound [] jo [amy; jo2] Hne eq_refl (List.Forall_nil _) eq_refl) as H.
  cbv zeta in H. destruct H as (Hin & Hh & _).
  split; [exact Hl|]. split; [exact Hin | exact Hh].
Defined.

(** Amy Wong opened for editing and submitted as she is. *)
Lemma edit_then_submit_keeps_collection_witness :
  persisted (pageWith [jo; amy]) [jo; amy] /\ Forall accepted [jo; amy] /\
  (exists l, l ∈ [jo; amy] /\ Lead.id l = "y") /\ trim "y" = "y" /\
  persisted (run [EditClick (Some "y"); Submit someEntropy] (pageWith [jo; amy])) [jo; amy] /\
  inputs (run [EditClick (Some "y"); Submit someEntropy] (pageWith [jo; amy])) = emptyInputs.
Proof.
  assert (Hl : persisted (pageWith [jo; amy]) [jo; amy])
    by (apply persisted_pageWith; vm_compute; reflexivity).
  assert (Hex : exists l, l ∈ [jo; amy] /\ Lead.id l = "y").
  { exists amy. split; [|reflexivity]. apply list_elem_of_In. simpl. auto. }
  pose proof (edit_then_submit_keeps_collection someEntropy (pageWith [jo; amy]) "y" [jo; amy]
                Hl accepted_jo_amy Hex eq_refl) as H.
  cbv zeta in H. destruct H as (Hp & Hin & _).
  split; [exact Hl|]. split; [exact accepted_jo_amy|]. split; [exact Hex|].
  split; [reflexivity|]. split; [exact Hp | exact Hin].
Defined.

(** The delete of an id ["z"] that neither record has. *)
Lemma confirmDelete_absent_id_witness :
  let p := setDeleteTargetId (Some "z") (pageWith [jo; amy]) in
  deleteTargetId p = Some "z" /\ "z" <> EmptyString /\ persisted p [jo; amy] /\
  Forall (fun l => Lead.id l <> "z") [jo; amy] /\
  persisted (exec confirmDelete p) [jo; amy] /\ deleteTargetId (exec confirmDelete p) = None.
Proof.
  intros p.
  assert (Hne : "z" <> EmptyString) by discriminate.
  assert (Hl : persisted p [jo; amy])
    by (apply persisted_on; [reflexivity | vm_compute; reflexivity]).
  assert (Hall : Forall (fun l => Lead.id l <> "z") [jo; amy])
    by (repeat constructor; vm_compute; discriminate).
  pose proof (confirmDelete_absent_id p "z" [jo; amy] eq_refl Hne Hl Hall) as H.
  cbv zeta in H. destruct H as (Hp & Ht & _).
  split; [reflexivity|]. split; [exact Hne|]. split; [exact Hl|]. split; [exact Hall|].
  split; [exact Hp | exact Ht].
Defined.

(** The edit of ["x"] cancelled, and a new lead typed in and submitted. *)
Lemma cancel_then_submit_adds_witness :
  persisted editPage [amy; jo] /\
  persisted
    (session [Fire CancelClick; FillForm "Jo Smith" "555 000 1111" "web" "new";
              Fire (Submit someEntropy)] editPage)
    [amy; jo;
     {| Lead.id := generateId someEntropy; Lead.name := "Jo Smith";
        Lead.phone := "555 000 1111"; Lead.source := "web"; Lead.status := "new" |}].
Proof.
  assert (Hl : persisted editPage [amy; jo])
    by (apply persisted_on; [reflexivity | vm_compute; reflexivity]).
  pose proof (cancel_then_submit_adds someEntropy editPage [amy; jo]
                "Jo Smith" "555 000 1111" "web" "new" Hl) as H.
  cbv zeta in H. destruct H as (_ & Hp).
  match type of Hp with
  | context [if ?c then _ else _] =>
      assert (Hf : c = true) by (vm_compute; reflexivity); rewrite Hf in Hp
  end.
  split; [exact Hl | exact Hp].
Defined.

(** A delete asked for, confirmed, asked for again and cancelled. *)
Lemma dialogue_open_iff_delete_pending_witness :
  persisted (pageWith [jo; amy]) [jo; amy] /\
  dialogueInStep (pageWith [jo; amy]) /\
  dialogueInStep
    (session [Fire (DeleteClick (Some "x")); Fire ModalConfirmClick;
              Fire (DeleteClick (Some "y")); Fire (OverlayClick true)] (pageWith [jo; amy])).
Proof.
  assert (Hl : persisted (pageWith [jo; amy]) [jo; amy])
    by (apply persisted_pageWith; vm_compute; reflexivity).
  assert (H : dialogueInStep (pageWith [jo; amy])).
  { unfold dialogueInStep.
    replace (modal (pageWith [jo; amy])) with (modal (freshPage (emptyStorage 2000)))
      by (vm_compute; reflexivity).
    replace (pendingTarget (pageWith [jo; amy])) with (@None string)
      by (vm_compute; reflexivity).
    split; [split; [discriminate | congruence] | reflexivity]. }
  split; [exact Hl|]. split; [exact H|].
  exact (dialogue_open_iff_delete_pending _ _ [jo; amy] Hl H).
Defined.

(** The form of [addPage] submitted twice. *)
Lemma second_click_changes_nothing_witness :
  persisted addPage [jo] /\
  localStorage (run [Submit someEntropy; Submit someEntropy] addPage) =
    localStorage (run [Submit someEntropy] addPage) /\
  localStorage (run [ModalConfirmClick; ModalConfirmClick] addPage) =
    localStorage (run [ModalConfirmClick] addPage).
Proof.
  assert (Hl : persisted addPage [jo])
    by (apply persisted_on; [reflexivity | vm_compute; reflexivity]).
  split; [exact Hl|].
  exact (second_click_changes_nothing someEntropy someEntropy addPage [jo] Hl).
Defined.

(** A storage that another script shares: a lead is added and another
    deleted, and the item under ["theme"] is still there. *)
Lemma session_keeps_to_its_slot_witness :
  let acts := [FillForm "Amy Wong" "(555) 765-4321" "referral" "lost";
               Fire (Submit someEntropy); Fire (DeleteClick (Some "x"));
               Fire ModalConfirmClick] in
  persisted sharedPage [jo] /\
  quota (localStorage (session acts sharedPage)) = quota (localStorage sharedPage) /\
  items (localStorage (session acts sharedPage)) !! "theme" = Some "dark".
Proof.
  intros acts.
  assert (Hl : persisted sharedPage [jo]) by (vm_compute; reflexivity).
  pose proof (session_keeps_to_its_slot acts sharedPage [jo] Hl) as H. cbv zeta in H.
  destruct H as (Hq & Hk & _).
  split; [exact Hl|]. split; [exact Hq|].
  rewrite (Hk "theme"); [vm_compute; reflexivity | discriminate].
Defined.

(** A lead added and another deleted. *)
Lemma stored_records_stay_accepted_witness :
  persisted (pageWith [jo; amy]) [jo; amy] /\ Forall accepted [jo; amy] /\
  exists leads',
    persisted
      (session [FillForm " Joanna Smith" "555-7654321 " "web" "contacted";
                Fire (Submit someEntropy); Fire (DeleteClick (Some "y"));
                Fire ModalConfirmClick] (pageWith [jo; amy])) leads' /\
    Forall accepted leads'.
Proof.
  assert (Hl : persisted (pageWith [jo; amy]) [jo; amy])
    by (apply persisted_pageWith; vm_compute; reflexivity).
  split; [exact Hl|]. split; [exact accepted_jo_amy|].
  exact (stored_records_stay_accepted _ _ _ Hl accepted_jo_amy).
Defined.

(** A search typed in, and the record it showed deleted. *)
Lemma list_shows_persisted_leads_witness :
  persisted (pageWith [jo; amy]) [jo; amy] /\
  exists leads',
    persisted
      (session [TypeSearch "Jo"; Fire (DeleteClick (Some "x")); Fire ModalConfirmClick]
         (exec renderLeads (pageWith [jo; amy]))) leads' /\
    shows
      (session [TypeSearch "Jo"; Fire (DeleteClick (Some "x")); Fire ModalConfirmClick]
         (exec renderLeads (pageWith [jo; amy]))) leads'.
Proof.
  assert (Hl : persisted (pageWith [jo; amy]) [jo; amy])
    by (apply persisted_pageWith; vm_compute; reflexivity).
  split; [exact Hl|].
  exact (list_shows_persisted_leads
           [TypeSearch "Jo"; Fire (DeleteClick (Some "x")); Fire ModalConfirmClick]
           (pageWith [jo; amy]) [jo; amy] Hl).
Defined.

(** The id generated from [someEntropy]. *)
Lemma generateId_in_rows_witness :
  base36 someEntropy /\
  escapeHtml (generateId someEntropy) = generateId someEntropy /\
  trim (generateId someEntropy) = generateId someEntropy /\
  countChar JSON.dquote (generateId someEntropy) = 0.
Proof.
  assert (H : base36 someEntropy) by (repeat constructor).
  split; [exact H|]. apply (generateId_in_rows someEntropy H).
Defined.

(** Jo Smith as the update path writes the record, Amy Wong as the add path
    does. *)
Lemma property_order_is_immaterial_witness :
  Forall2 builtAs [jo; amy] [JSON.leadProps jo; payloadProps amy] /\
  JSON.parse (stringifyObjects [JSON.leadProps jo; payloadProps amy]) = Some [jo; amy] /\
  String.length (stringifyObjects [JSON.leadProps jo; payloadProps amy]) =
    String.length (JSON.stringify [jo; amy]).
Proof.
  assert (H : Forall2 builtAs [jo; amy] [JSON.leadProps jo; payloadProps amy]).
  { constructor; [left; reflexivity|]. constructor; [right; reflexivity|]. constructor. }
  split; [exact H|].
  destruct (property_order_is_immaterial _ _ H) as (_ & Hparse & Hlen & _).
  split; [exact Hparse | exact Hlen].
Defined.

(** A lead added under a new id, and another deleted. *)
Lemma session_ids_stay_distinct_witness :
  let acts := [FillForm "Joanna Smith" "555-7654321" "web" "contacted";
               Fire (Submit someEntropy); Fire (DeleteClick (Some "y"));
               Fire ModalConfirmClick] in
  persisted (pageWith [jo; amy]) [jo; amy] /\
  NoDup (map Lead.id [jo; amy] ++ generatedIds acts) /\
  exists leads', persisted (session acts (pageWith [jo; amy])) leads' /\
                 NoDup (map Lead.id leads').
Proof.
  intros acts.
  assert (Hl : persisted (pageWith [jo; amy]) [jo; amy])
    by (apply persisted_pageWith; vm_compute; reflexivity).
  assert (Hnd : NoDup (map Lead.id [jo; amy] ++ generatedIds acts))
    by (apply (bool_decide_unpack _); vm_compute; exact I).
  split; [exact Hl|]. split; [exact Hnd|].
  exact (session_ids_stay_distinct acts (pageWith [jo; amy]) [jo; amy] Hl Hnd).
Defined.
